(** * gospec-cli: the extraction and conversion pipeline

    A shallow embedding of the Cobra extractor ([pkg/parser/cobra]), of the
    intermediate model ([pkg/parser]), of the output model ([pkg/spec]) and of
    the conversion engine ([pkg/converter]), followed by the properties of the
    specification that concern them.

    Conventions of the embedding:
    - a Go pointer [*T] that the code may receive as [nil] is [ptr T]
      ([None] is [nil]); dereferencing [nil] is the outcome [Panic];
    - a Go [map[string]T] is a [gmap string T]; a [range] over a map visits
      its entries in an order Go leaves unspecified, so the loops that range
      over a map take that order from a parameter [rng], of which only
      "it enumerates the map" is assumed;
    - Go [int] values are in [Z]; strings are byte strings, and the functions
      of the Go [strings] package are written out on ASCII. *)

From Stdlib Require Import ZArith Ascii String List Lia.
From stdpp Require Import base option list strings gmap fin_maps.

Local Open Scope string_scope.
Local Open Scope list_scope.
Local Open Scope Z_scope.

#[local] Set Warnings "-register-all,-clear-no-such-hyp".

(** ** Outcomes of a call: a value, a returned [error], or a run-time panic *)

(** The [error] values the code builds: a plain error made by [fmt.Errorf],
    and [*parser.ParserError{Message, Cause}]. *)
Inductive error : Type :=
| errorString (s : string)
| ParserError (Message : string) (Cause : option error).

Inductive Res (A : Type) : Type :=
| Ok (a : A)
| Err (e : error)
| Panic.
Arguments Ok {A} a.
Arguments Err {A} e.
Arguments Panic {A}.

Definition bindRes {A B} (r : Res A) (k : A -> Res B) : Res B :=
  match r with
  | Ok a => k a
  | Err e => Err e
  | Panic => Panic
  end.

Notation "x <~ r ;; k" := (bindRes r (fun x => k))
  (at level 100, r at next level, right associativity).

(** A Go pointer; [None] is [nil]. *)
Abbreviation ptr A := (option A) (only parsing).

(** [*p] *)
Definition deref {A} (p : ptr A) : Res A :=
  match p with
  | Some a => Ok a
  | None => Panic
  end.

(** ** The Go [strings] functions the code calls, on ASCII byte strings *)

Module Strings.

Definition code (c : ascii) : N := N_of_ascii c.

Definition isUpper (c : ascii) : bool := ((65 <=? code c) && (code c <=? 90))%N.
Definition isLower (c : ascii) : bool := ((97 <=? code c) && (code c <=? 122))%N.
Definition isDigit (c : ascii) : bool := ((48 <=? code c) && (code c <=? 57))%N.

Definition toLowerByte (c : ascii) : ascii :=
  if isUpper c then ascii_of_N (code c + 32) else c.
Definition toUpperByte (c : ascii) : ascii :=
  if isLower c then ascii_of_N (code c - 32) else c.

(** [strings.ToLower] *)
Fixpoint ToLower (s : string) : string :=
  match s with
  | EmptyString => EmptyString
  | String c s' => String (toLowerByte c) (ToLower s')
  end.

(** [isSeparator] of package [strings]: ASCII letters, digits and the
    underscore are not separators, every other ASCII character is; bytes
    above 0x7F (parts of letters, in UTF-8) are left alone. *)
Definition isSeparator (c : ascii) : bool :=
  if (code c <=? 127)%N
  then negb (isDigit c || isLower c || isUpper c || (code c =? 95)%N)
  else false.

Fixpoint TitleFrom (prev : ascii) (s : string) : string :=
  match s with
  | EmptyString => EmptyString
  | String c s' =>
      String (if isSeparator prev then toUpperByte c else c) (TitleFrom c s')
  end.

(** [strings.Title]: the first letter of every word in upper case. *)
Definition Title (s : string) : string := TitleFrom " "%char s.

(** [strings.HasPrefix] *)
Definition HasPrefix (s pre : string) : bool := String.prefix pre s.

(** [strings.Contains] *)
Fixpoint Contains (s sub : string) : bool :=
  String.prefix sub s ||
  match s with
  | EmptyString => false
  | String _ s' => Contains s' sub
  end.

Definition eqb_ascii (a b : ascii) : bool := (code a =? code b)%N.

Fixpoint TrimLeft (s : string) (cut : ascii) : string :=
  match s with
  | EmptyString => EmptyString
  | String c s' => if eqb_ascii c cut then TrimLeft s' cut else s
  end.

Fixpoint TrimRight (s : string) (cut : ascii) : string :=
  match s with
  | EmptyString => EmptyString
  | String c s' =>
      match TrimRight s' cut with
      | EmptyString => if eqb_ascii c cut then EmptyString else String c EmptyString
      | t => String c t
      end
  end.

(** [strings.Trim(s, cutset)] for a one-character cutset. *)
Definition Trim (s : string) (cut : ascii) : string :=
  TrimRight (TrimLeft s cut) cut.

(** [strings.Split(s, sep)] for a one-character separator: the pieces
    between the separators, empty pieces included; never an empty list. *)
Fixpoint Split (s : string) (sep : ascii) : list string :=
  match s with
  | EmptyString => [EmptyString]
  | String c s' =>
      if eqb_ascii c sep then EmptyString :: Split s' sep
      else match Split s' sep with
           | [] => [String c EmptyString]
           | p :: ps => String c p :: ps
           end
  end.

(** ASCII white space, as [strings.Fields] and [strings.TrimSpace] see it. *)
Definition isSpace (c : ascii) : bool :=
  ((code c =? 32) || ((9 <=? code c) && (code c <=? 13)))%N.

(** [strings.Fields] *)
Fixpoint Fields (s : string) : list string :=
  match s with
  | EmptyString => []
  | String c s' =>
      if isSpace c then Fields s'
      else match s' with
           | EmptyString => [String c EmptyString]
           | String c' _ =>
               if isSpace c' then String c EmptyString :: Fields s'
               else match Fields s' with
                    | [] => [String c EmptyString]
                    | w :: ws => String c w :: ws
                    end
           end
  end.

Fixpoint TrimSpaceLeft (s : string) : string :=
  match s with
  | EmptyString => EmptyString
  | String c s' => if isSpace c then TrimSpaceLeft s' else s
  end.

Fixpoint TrimSpaceRight (s : string) : string :=
  match s with
  | EmptyString => EmptyString
  | String c s' =>
      match TrimSpaceRight s' with
      | EmptyString => if isSpace c then EmptyString else String c EmptyString
      | t => String c t
      end
  end.

(** [strings.TrimSpace] *)
Definition TrimSpace (s : string) : string := TrimSpaceRight (TrimSpaceLeft s).

(** [s == t] *)
Definition eqb (s t : string) : bool := bool_decide (s = t).

(** [strings.Join]-free concatenation of a list of strings. *)
Definition concat (l : list string) : string := fold_right String.append "" l.

End Strings.

(** ** The source objects: [pflag.Flag], [pflag.FlagSet], [cobra.Command]

    These belong to the libraries the extractor reads from. A command is
    given by what the extractor observes of it: its fields and the results
    of the accessors it calls ([Name()], [Flags()], [PersistentFlags()],
    [Commands()], [Parent()]). *)

Module cobra.

Record Flag : Type := mkFlag {
  fl_Name : string;
  fl_Shorthand : string;
  fl_Usage : string;
  fl_Type : string;                         (* flag.Value.Type() *)
  fl_DefValue : string;
  fl_Changed : bool;
  fl_Hidden : bool;
  fl_Deprecated : string;
  fl_Annotations : gmap string (list string)
}.

(** A flag set, as the list of its flags in the order of [VisitAll]. A
    [pflag.FlagSet] holds one flag per name (adding a second one panics). *)
Abbreviation FlagSet := (list Flag) (only parsing).

Definition flagNames (fs : FlagSet) : list string := map fl_Name fs.

(** [fs.Lookup(name)]: the flag of that name, or [nil]. *)
Definition Lookup (fs : FlagSet) (name : string) : ptr Flag :=
  find (fun f => Strings.eqb (fl_Name f) name) fs.

(** The validators of package cobra that a command's [Args] field holds;
    all of them are values of the one function type [PositionalArgs]. *)
Inductive PositionalArgs : Type :=
| NoArgs
| ArbitraryArgs
| OnlyValidArgs
| ExactArgs (n : Z)
| MinimumNArgs (n : Z)
| MaximumNArgs (n : Z)
| RangeArgs (lo hi : Z)
| CustomArgs.

(** [reflect.TypeOf(v).String()] for [v] of static type
    [cobra.PositionalArgs]: the dynamic type of a function value stored in
    a field of a named function type is that named type, whichever
    function was stored, and its [String()] is the qualified type name. *)
Definition reflectTypeString (v : PositionalArgs) : string :=
  "cobra.PositionalArgs".

Inductive Command : Type := mkCommand {
  cmd_Use : string;
  cmd_Name : string;                        (* cmd.Name() *)
  cmd_Short : string;
  cmd_Long : string;
  cmd_Example : string;
  cmd_Aliases : list string;
  cmd_Version : string;
  cmd_Hidden : bool;
  cmd_Deprecated : string;
  cmd_HasRun : bool;                        (* cmd.Run != nil || cmd.RunE != nil *)
  cmd_Annotations : gmap string string;
  cmd_SuggestFor : list string;
  cmd_ValidArgs : ptr (list string);        (* a nil slice is None *)
  cmd_Args : ptr PositionalArgs;
  cmd_Flags : ptr FlagSet;                  (* cmd.Flags() *)
  cmd_PersistentFlags : ptr FlagSet;        (* cmd.PersistentFlags() *)
  cmd_Parent : ptr Command;                 (* cmd.Parent() *)
  cmd_Commands : list Command               (* cmd.Commands() *)
}.

(** The extractor follows [Parent()] upwards from the command it is handed,
    and nowhere else: of a command reached through [Commands()] it never
    asks for the parent, so that field of a subcommand is not read. *)

(** What [Parse] may be handed as its [source interface{}]: a
    [*cobra.Command] that points to a command, a [*cobra.Command] that is
    [nil] (the type assertion of [Supports] and [Parse] accepts it all the
    same), or a value of any other type. *)
Inductive Source : Type :=
| SrcCommand (cmd : Command)
| SrcNilCommand
| SrcOther.

End cobra.
Import cobra.

(** ** The output model: package [spec]

    Fields that the converter never writes (they keep Go's zero value) are
    left out of [Schema], [Tag], [Parameter] and [OpenCLISpec]. *)

Module spec.

Record Contact : Type := mkContact {
  ct_Name : string; ct_URL : string; ct_Email : string }.

Record License : Type := mkLicense { lc_Name : string; lc_URL : string }.

Record Info : Type := mkInfo {
  in_Title : string;
  in_Description : string;
  in_Version : string;
  in_Contact : ptr Contact;
  in_License : ptr License
}.

Record Platform : Type := mkPlatform {
  pl_Name : string; pl_Architectures : list string }.

Record EnvironmentVariable : Type := mkEnvironmentVariable {
  ev_Name : string; ev_Description : string; ev_Required : bool; ev_Default : string }.

Record Tag : Type := mkTag { tg_Name : string; tg_Description : string }.

Record Arity : Type := mkArity {
  ar_Min : Z;
  ar_Max : ptr Z                             (* nil means unlimited *)
}.

Record Schema : Type := mkSchema {
  sc_Type : string;
  sc_Enum : list string;
  sc_Default : option string                 (* interface{}: nil or a string *)
}.

(** [spec.Parameter] ([Parameter] is a reserved word of Rocq). *)
Record Parameter_ : Type := mkParameter {
  pa_Name : string;
  pa_In : string;
  pa_Alias : list string;
  pa_Description : string;
  pa_Required : bool;
  pa_Scope : string;
  pa_Position : Z;
  pa_Schema : ptr Schema;
  pa_Arity : ptr Arity;
  pa_Deprecated : bool;
  pa_Hidden : bool
}.

Record MediaType : Type := mkMediaType { mt_Example : option string }.

Record Response : Type := mkResponse {
  rs_Description : string;
  rs_Content : gmap string MediaType
}.

(** The values stored in the open [Extensions] bags. *)
Inductive ExtValue : Type :=
| ExtString (s : string)
| ExtStrings (l : list string)
| ExtBool (b : bool).

Record Command : Type := mkCommand {
  cm_Summary : string;
  cm_Description : string;
  cm_OperationID : string;
  cm_Aliases : list string;
  cm_Tags : list string;
  cm_Parameters : list Parameter_;
  cm_Responses : gmap string Response;
  cm_Deprecated : bool;
  cm_Hidden : bool;
  cm_Extensions : gmap string ExtValue
}.

Record Components : Type := mkComponents {
  cp_Schemas : gmap string Schema;
  cp_Parameters : gmap string Parameter_;
  cp_Responses : gmap string Response
}.

Record OpenCLISpec : Type := mkOpenCLISpec {
  os_OpenCLI : string;
  os_Info : Info;
  os_Platforms : list Platform;
  os_Environment : list EnvironmentVariable;
  os_Tags : list Tag;
  os_Commands : gmap string Command;
  os_Components : ptr Components
}.

End spec.
Import spec.

(** ** The intermediate model: package [parser] *)

Module parser.

Record FlagInfo : Type := mkFlagInfo {
  fi_Name : string;
  fi_Shorthand : string;
  fi_Usage : string;
  fi_Type : string;
  fi_DefaultValue : option string;           (* interface{}: nil or a string *)
  fi_Required : bool;
  fi_Hidden : bool;
  fi_Deprecated : string;
  fi_Persistent : bool;
  fi_ValidValues : list string;
  fi_Annotations : gmap string string
}.

Record ArgumentInfo : Type := mkArgumentInfo {
  ai_Name : string;
  ai_Description : string;
  ai_Position : Z;
  ai_Required : bool;
  ai_Type : string;
  ai_MinArgs : Z;
  ai_MaxArgs : Z;                            (* -1 for unlimited *)
  ai_ValidValues : list string
}.

(** [CommandInfo]. The [Parent] back reference, which owns nothing and
    which no code reads, is left out: the parent of a node is the node
    whose [Subcommands] holds it. *)
Inductive CommandInfo : Type := mkCommandInfo {
  ci_Name : string;
  ci_Path : string;
  ci_Use : string;
  ci_Short : string;
  ci_Long : string;
  ci_Example : string;
  ci_Aliases : list string;
  ci_Version : string;
  ci_Subcommands : list CommandInfo;
  ci_Flags : list (ptr FlagInfo);
  ci_Args : list (ptr ArgumentInfo);
  ci_PersistentFlags : list (ptr FlagInfo);
  ci_Hidden : bool;
  ci_Deprecated : string;
  ci_RunFunc : bool;
  ci_Annotations : gmap string string;
  ci_Tags : list string;
  ci_Extensions : gmap string ExtValue
}.

Record EnvVarInfo : Type := mkEnvVarInfo {
  en_Name : string; en_Description : string; en_Required : bool; en_Default : string }.

Record PlatformInfo : Type := mkPlatformInfo {
  pi_OS : string; pi_Architectures : list string }.

Record TagInfo : Type := mkTagInfo { ti_Name : string; ti_Description : string }.

Record CLIMetadata : Type := mkCLIMetadata {
  md_Name : string;
  md_Version : string;
  md_Description : string;
  md_Author : string;
  md_License : string;
  md_Homepage : string;
  md_Repository : string;
  md_EnvVars : list EnvVarInfo;
  md_Platforms : list PlatformInfo;
  md_Tags : list TagInfo
}.

Record ParsedCLI : Type := mkParsedCLI {
  RootCommand : ptr CommandInfo;
  Commands : gmap string (ptr CommandInfo);
  Metadata : ptr CLIMetadata;
  FrameworkData : gmap string string
}.

Record ConvertOptions : Type := mkConvertOptions {
  SpecVersion : string;
  IncludeHidden : bool;
  IncludeDeprecated : bool;
  GenerateOperationIDs : bool;
  InferResponses : bool;
  CustomInfo : ptr Info;
  TagStrategy : string;
  ExtractComponents : bool
}.

(** The [Error()] method of [ParserError]. *)
Fixpoint Error (e : error) : string :=
  match e with
  | errorString m => m
  | ParserError m None => m
  | ParserError m (Some c) => m +:+ ": " +:+ Error c
  end.

(** The three sentinel errors of the package. *)
Definition ErrNoSuitableParser : error :=
  ParserError "no suitable parser found for source" None.
Definition ErrInvalidSource : error :=
  ParserError "invalid source provided" None.
Definition ErrParsingFailed : error :=
  ParserError "parsing failed" None.

End parser.
Import parser.

(** ** The Cobra extractor: package [cobra] of [pkg/parser] *)

Module CobraParser.

(** [Name] *)
Definition Name : string := "cobra".

(** [Supports]: the source is a [*cobra.Command]. *)
Definition Supports (source : Source) : bool :=
  match source with
  | SrcCommand _ => true
  | SrcNilCommand => true
  | SrcOther => false
  end.

(** [isRequiredFlag] *)
Definition isRequiredFlag (flag : Flag) : bool :=
  bool_decide (is_Some (fl_Annotations flag !! "required")).

(** [extractValidValues] *)
Definition extractValidValues (flag : Flag) : list string :=
  match fl_Annotations flag !! "validValues" with
  | Some (v :: _) => Strings.Split v ","%char
  | _ => []
  end.

(** [parseFlag] *)
Definition parseFlag (flag : Flag) (persistent : bool) : FlagInfo :=
  {| fi_Name := fl_Name flag;
     fi_Shorthand := fl_Shorthand flag;
     fi_Usage := fl_Usage flag;
     fi_Type := fl_Type flag;
     fi_DefaultValue := Some (fl_DefValue flag);
     fi_Required := isRequiredFlag flag;
     fi_Hidden := fl_Hidden flag;
     fi_Deprecated := fl_Deprecated flag;
     fi_Persistent := persistent;
     fi_ValidValues := extractValidValues flag;
     fi_Annotations := omap head (fl_Annotations flag) |}.

(** [extractTags] *)
Definition extractTags (cmd : cobra.Command) : list string :=
  match cmd_Annotations cmd !! "tags" with
  | Some tagStr => map Strings.TrimSpace (Strings.Split tagStr ","%char)
  | None => []
  end.

(** [inferArgsArity]; [-1] stands for "unlimited". *)
Definition inferArgsArity (cmd : cobra.Command) : Z * Z :=
  match cmd_Args cmd with
  | None => (0, -1)
  | Some v =>
      let argsName := reflectTypeString v in
      if Strings.Contains argsName "NoArgs" then (0, 0)
      else if Strings.Contains argsName "ExactArgs" then (1, 1)
      else if Strings.Contains argsName "MinimumNArgs" then (1, -1)
      else if Strings.Contains argsName "MaximumNArgs" then (0, 1)
      else if Strings.Contains argsName "RangeArgs" then (1, -1)
      else (0, -1)
  end.

(** [parseArguments] *)
Definition parseArguments (cmd : cobra.Command) : list (ptr ArgumentInfo) :=
  let validArgs := default [] (cmd_ValidArgs cmd) in
  if (0 <? Z.of_nat (length validArgs)) then
    imap (fun i validArg =>
            Some {| ai_Name := validArg;
                    ai_Description := "";
                    ai_Position := Z.of_nat i + 1;
                    ai_Required := true;
                    ai_Type := "string";
                    ai_MinArgs := 0;
                    ai_MaxArgs := 0;
                    ai_ValidValues := [validArg] |}) validArgs
  else
    match cmd_Args cmd with
    | None => []
    | Some _ =>
        let '(minArgs, maxArgs) := inferArgsArity cmd in
        if (0 <? minArgs) || (0 <? maxArgs) then
          let argName :=
            if Strings.eqb (cmd_Use cmd) "" then "args"
            else match Strings.Fields (cmd_Use cmd) with
                 | _ :: second :: _ => second
                 | _ => "args"
                 end in
          [Some {| ai_Name := argName;
                   ai_Description := "";
                   ai_Position := 1;
                   ai_Required := (0 <? minArgs);
                   ai_Type := "string";
                   ai_MinArgs := minArgs;
                   ai_MaxArgs := maxArgs;
                   ai_ValidValues := [] |}]
        else []
    end.

(** The callback that [parseCommand] hands to [cmd.Flags().VisitAll]:
    [flags] is [info.Flags] so far. *)
Definition visitLocalFlag (cmd : cobra.Command) (flags : list (ptr FlagInfo))
    (flag : Flag) : list (ptr FlagInfo) :=
  let skip :=
    if negb (fl_Changed flag) then
      match cmd_PersistentFlags cmd with
      | Some pfs => bool_decide (is_Some (Lookup pfs (fl_Name flag)))
      | None => false
      end
    else false in
  if skip then flags else flags ++ [Some (parseFlag flag false)].

(** The callback handed to [cmd.PersistentFlags().VisitAll]. *)
Definition visitPersistentFlag (flags : list (ptr FlagInfo)) (flag : Flag)
    : list (ptr FlagInfo) :=
  flags ++ [Some (parseFlag flag true)].

(** The path that [parseCommand] builds. *)
Definition buildPath (name parentPath : string) : string :=
  if negb (Strings.eqb name "") then
    if Strings.eqb parentPath "" then name
    else parentPath +:+ "/" +:+ name
  else parentPath.

(** [parseCommand]: the node of one command, its [Subcommands] still
    empty. *)
Definition parseCommand (cmd : cobra.Command) (parentPath : string) : CommandInfo :=
  {| ci_Name := cmd_Name cmd;
     ci_Path := buildPath (cmd_Name cmd) parentPath;
     ci_Use := cmd_Use cmd;
     ci_Short := cmd_Short cmd;
     ci_Long := cmd_Long cmd;
     ci_Example := cmd_Example cmd;
     ci_Aliases := cmd_Aliases cmd;
     ci_Version := cmd_Version cmd;
     ci_Subcommands := [];
     ci_Flags :=
       match cmd_Flags cmd with
       | Some fs => fold_left (visitLocalFlag cmd) fs []
       | None => []
       end;
     ci_Args := parseArguments cmd;
     ci_PersistentFlags :=
       match cmd_PersistentFlags cmd with
       | Some pfs => fold_left visitPersistentFlag pfs []
       | None => []
       end;
     ci_Hidden := cmd_Hidden cmd;
     ci_Deprecated := cmd_Deprecated cmd;
     ci_RunFunc := cmd_HasRun cmd;
     ci_Annotations := cmd_Annotations cmd;
     ci_Tags := extractTags cmd;
     ci_Extensions :=
       let ext : gmap string ExtValue :=
         <["cobra_args_validator" := ExtBool (bool_decide (is_Some (cmd_Args cmd)))]>
           (<["cobra_suggest_for" := ExtStrings (cmd_SuggestFor cmd)]>
              (<["cobra_use" := ExtString (cmd_Use cmd)]> ∅)) in
       match cmd_ValidArgs cmd with
       | Some va => <["cobra_valid_args" := ExtStrings va]> ext
       | None => ext
       end |}.

(** [parentInfo.Subcommands = append(parentInfo.Subcommands, subInfo)] *)
Definition withSubcommands (info : CommandInfo) (subs : list CommandInfo) : CommandInfo :=
  {| ci_Name := ci_Name info; ci_Path := ci_Path info; ci_Use := ci_Use info;
     ci_Short := ci_Short info; ci_Long := ci_Long info;
     ci_Example := ci_Example info; ci_Aliases := ci_Aliases info;
     ci_Version := ci_Version info;
     ci_Subcommands := ci_Subcommands info ++ subs;
     ci_Flags := ci_Flags info; ci_Args := ci_Args info;
     ci_PersistentFlags := ci_PersistentFlags info;
     ci_Hidden := ci_Hidden info; ci_Deprecated := ci_Deprecated info;
     ci_RunFunc := ci_RunFunc info; ci_Annotations := ci_Annotations info;
     ci_Tags := ci_Tags info; ci_Extensions := ci_Extensions info |}.

(** [parseSubcommands] does two things for every subcommand, in the order
    of [cmd.Commands()]: it hangs the subcommand's node under
    [parentInfo], and it stores that node in the flat map under its path.
    The map holds references, so an entry shows its node as it is when
    [Parse] returns, subcommands filled in. The embedding gives the two
    effects as two functions: [parseNode] builds the node of a command
    with everything below it, and [parseSubcommands] makes the writes to
    [commandMap], in the order of the loop. *)
Fixpoint parseNode (cmd : cobra.Command) (parentPath : string) : CommandInfo :=
  let info := parseCommand cmd parentPath in
  withSubcommands info
    (map (fun subCmd => parseNode subCmd (ci_Path info)) (cmd_Commands cmd)).

Fixpoint parseSubcommands (parentInfo : CommandInfo)
    (commandMap : gmap string (ptr CommandInfo)) : gmap string (ptr CommandInfo) :=
  fold_left
    (fun m subInfo => parseSubcommands subInfo (<[ci_Path subInfo := Some subInfo]> m))
    (ci_Subcommands parentInfo) commandMap.

(** The loop [for root.Parent() != nil { root = root.Parent() }] of
    [extractMetadata]: the topmost ancestor of a command. *)
Fixpoint topmost (cmd : cobra.Command) : cobra.Command :=
  match cmd_Parent cmd with
  | Some parent => topmost parent
  | None => cmd
  end.

(** [extractMetadata] *)
Definition extractMetadata (cmd : cobra.Command) : CLIMetadata :=
  let root := topmost cmd in
  {| md_Name := cmd_Name root;
     md_Version := cmd_Version root;
     md_Description := cmd_Long root;
     md_Author := default "" (cmd_Annotations root !! "author");
     md_License := default "" (cmd_Annotations root !! "license");
     md_Homepage := default "" (cmd_Annotations root !! "homepage");
     md_Repository := default "" (cmd_Annotations root !! "repository");
     md_EnvVars := [];
     md_Platforms := [];
     md_Tags := [] |}.

(** [getCobraVersion] *)
Definition getCobraVersion : string := "1.8.0".

(** [Parse]; on a [nil] command the first thing read, [cmd.Name()] in
    [parseCommand], dereferences it. *)
Definition Parse (source : Source) : Res ParsedCLI :=
  match source with
  | SrcOther =>
      Err (ParserError "source is not a *cobra.Command" (Some ErrInvalidSource))
  | SrcNilCommand => Panic
  | SrcCommand cmd =>
      let rootInfo := parseNode cmd "" in
      let commands : gmap string (ptr CommandInfo) :=
        parseSubcommands rootInfo (<[ci_Path rootInfo := Some rootInfo]> ∅) in
      Ok {| RootCommand := Some rootInfo;
            Commands := commands;
            Metadata := Some (extractMetadata cmd);
            FrameworkData :=
              <["version" := getCobraVersion]> (<["framework" := "cobra"]> ∅) |}
  end.

End CobraParser.
Import CobraParser.

(** ** The conversion engine: package [converter] *)

(** A [for ... range] loop whose body may panic: the body [f] is run on the
    elements in order, threading the state of the loop. *)
Fixpoint foldRes {A S : Type} (f : S -> A -> Res S) (l : list A) (s : S) : Res S :=
  match l with
  | [] => Ok s
  | x :: l' => s' <~ f s x ;; foldRes f l' s'
  end.

(** The order in which [range] visits a map of string keys. *)
Definition RangeOrder : Type := forall A : Type, gmap string A -> list (string * A).

(** All that Go promises of it: every entry is visited once. *)
Definition enumerates (rng : RangeOrder) : Prop :=
  forall (A : Type) (m : gmap string A), rng A m ≡ₚ map_to_list m.

Module converter.

(** [DefaultConvertOptions] *)
Definition DefaultConvertOptions : ConvertOptions :=
  {| SpecVersion := "1.0.0";
     IncludeHidden := false;
     IncludeDeprecated := true;
     GenerateOperationIDs := true;
     InferResponses := true;
     CustomInfo := None;
     TagStrategy := "auto";
     ExtractComponents := true |}.

(** [mapTypeToSchemaType] *)
Definition mapTypeToSchemaType (typeName : string) : string :=
  let t := Strings.ToLower typeName in
  if bool_decide (t ∈ ["bool"; "boolean"]) then "boolean"
  else if bool_decide (t ∈ ["int"; "int8"; "int16"; "int32"; "int64";
                            "uint"; "uint8"; "uint16"; "uint32"; "uint64"])
  then "integer"
  else if bool_decide (t ∈ ["float"; "float32"; "float64"]) then "number"
  else if bool_decide (t = "string") then "string"
  else if bool_decide (t = "duration") then "string"
  else if bool_decide (t ∈ ["stringslice"; "[]string"]) then "array"
  else "string".

(** [generateOperationID] *)
Definition generateOperationID (cmdInfo : CommandInfo) : string :=
  let parts := Strings.Split (Strings.Trim (ci_Path cmdInfo) "/"%char) "/"%char in
  match parts with
  | [] => "rootCommand"
  | first :: rest =>
      fold_left (fun operationID part => operationID +:+ Strings.Title part) rest first
      +:+ "Command"
  end.

(** [createSchema] *)
Definition createSchema (typeName : string) (defaultValue : option string)
    (validValues : list string) : Schema :=
  {| sc_Type := mapTypeToSchemaType typeName;
     sc_Enum := if (0 <? Z.of_nat (length validValues)) then validValues else [];
     sc_Default := defaultValue |}.

(** [convertFlag], on a flag that is not [nil]. *)
Definition convertFlag (flag : FlagInfo) (scope : string) : Parameter_ :=
  {| pa_Name := fi_Name flag;
     pa_In := "flag";
     pa_Alias := if negb (Strings.eqb (fi_Shorthand flag) "") then [fi_Shorthand flag] else [];
     pa_Description := fi_Usage flag;
     pa_Required := fi_Required flag;
     pa_Scope := scope;
     pa_Position := 0;
     pa_Schema := Some (createSchema (fi_Type flag) (fi_DefaultValue flag) (fi_ValidValues flag));
     pa_Arity := None;
     pa_Deprecated := negb (Strings.eqb (fi_Deprecated flag) "");
     pa_Hidden := fi_Hidden flag |}.

(** [convertArgument], on an argument that is not [nil]. *)
Definition convertArgument (arg : ArgumentInfo) : Parameter_ :=
  {| pa_Name := ai_Name arg;
     pa_In := "argument";
     pa_Alias := [];
     pa_Description := ai_Description arg;
     pa_Required := ai_Required arg;
     pa_Scope := "local";
     pa_Position := ai_Position arg;
     pa_Schema := Some (createSchema (ai_Type arg) None (ai_ValidValues arg));
     pa_Arity :=
       if (0 <? ai_MinArgs arg) || negb (ai_MaxArgs arg =? 0) then
         Some {| ar_Min := ai_MinArgs arg;
                 ar_Max := if (0 <? ai_MaxArgs arg) then Some (ai_MaxArgs arg) else None |}
       else None;
     pa_Deprecated := false;
     pa_Hidden := false |}.

(** [generateDefaultResponses] *)
Definition generateDefaultResponses : gmap string Response :=
  <["1" := {| rs_Description := "Command execution failed";
              rs_Content := {["text/plain" := {| mt_Example := Some "Error: operation failed" |}]} |}]>
    (<["0" := {| rs_Description := "Command executed successfully";
                 rs_Content := {["text/plain" := {| mt_Example := Some "Operation completed successfully" |}]} |}]>
       ∅).

(** One turn of the two loops of [convertCommand] over flags. *)
Definition appendFlag (options : ConvertOptions) (scope : string)
    (parameters : list Parameter_) (flag : ptr FlagInfo) : Res (list Parameter_) :=
  f <~ deref flag ;;
  if negb (IncludeHidden options) && fi_Hidden f then Ok parameters
  else Ok (parameters ++ [convertFlag f scope]).

(** One turn of its loop over arguments. *)
Definition appendArgument (parameters : list Parameter_) (arg : ptr ArgumentInfo)
    : Res (list Parameter_) :=
  a <~ deref arg ;;
  Ok (parameters ++ [convertArgument a]).

(** [convertCommand], on a command that is not [nil]. *)
Definition convertCommand (cmdInfo : CommandInfo) (options : ConvertOptions)
    : Res spec.Command :=
  let operationID :=
    if GenerateOperationIDs options then generateOperationID cmdInfo else "" in
  p1 <~ foldRes (appendFlag options "local") (ci_Flags cmdInfo) [] ;;
  p2 <~ foldRes (appendFlag options "inherited") (ci_PersistentFlags cmdInfo) p1 ;;
  p3 <~ foldRes appendArgument (ci_Args cmdInfo) p2 ;;
  Ok {| cm_Summary := ci_Short cmdInfo;
        cm_Description := ci_Long cmdInfo;
        cm_OperationID := operationID;
        cm_Aliases := ci_Aliases cmdInfo;
        cm_Tags := ci_Tags cmdInfo;
        cm_Parameters := p3;
        cm_Responses := if InferResponses options then generateDefaultResponses else ∅;
        cm_Deprecated := negb (Strings.eqb (ci_Deprecated cmdInfo) "");
        cm_Hidden := ci_Hidden cmdInfo;
        cm_Extensions := ci_Extensions cmdInfo |}.

(** [convertInfo] *)
Definition convertInfo (metadata : ptr CLIMetadata) (options : ConvertOptions) : Res Info :=
  match CustomInfo options with
  | Some custom => Ok custom
  | None =>
      md <~ deref metadata ;;
      Ok {| in_Title := md_Name md;
            in_Description := md_Description md;
            in_Version := md_Version md;
            in_Contact :=
              if negb (Strings.eqb (md_Author md) "") || negb (Strings.eqb (md_Homepage md) "")
              then Some {| ct_Name := md_Author md; ct_URL := md_Homepage md; ct_Email := "" |}
              else None;
            in_License :=
              if negb (Strings.eqb (md_License md) "")
              then Some {| lc_Name := md_License md; lc_URL := "" |}
              else None |}
  end.

(** [convertTags], [convertEnvironment], [convertPlatforms] *)
Definition convertTags (tags : list TagInfo) : list Tag :=
  map (fun tag => {| tg_Name := ti_Name tag; tg_Description := ti_Description tag |}) tags.

Definition convertEnvironment (envVars : list EnvVarInfo) : list EnvironmentVariable :=
  map (fun env => {| ev_Name := en_Name env; ev_Description := en_Description env;
                     ev_Required := en_Required env; ev_Default := en_Default env |}) envVars.

Definition convertPlatforms (platforms : list PlatformInfo) : list Platform :=
  map (fun platform => {| pl_Name := pi_OS platform;
                          pl_Architectures := pi_Architectures platform |}) platforms.

(** The two tests of the command loop of [Convert] that end a turn with
    [continue]. *)
Definition skipped (options : ConvertOptions) (cmdInfo : CommandInfo) : bool :=
  (negb (IncludeHidden options) && ci_Hidden cmdInfo)
  || (negb (IncludeDeprecated options) && negb (Strings.eqb (ci_Deprecated cmdInfo) "")).

(** The key under which that loop stores the command found at [path]. *)
Definition outputKey (path : string) (cmdInfo : CommandInfo) : string :=
  let key := path in
  let key :=
    if negb (Strings.HasPrefix key "/") && negb (Strings.eqb key (ci_Name cmdInfo))
    then "/" +:+ key else key in
  if Strings.eqb path (ci_Name cmdInfo) then ci_Name cmdInfo else key.

(** One turn of the command loop of [Convert]. *)
Definition convertEntry (options : ConvertOptions) (commands : gmap string spec.Command)
    (entry : string * ptr CommandInfo) : Res (gmap string spec.Command) :=
  let '(path, p) := entry in
  cmdInfo <~ deref p ;;
  if skipped options cmdInfo then Ok commands
  else
    command <~ convertCommand cmdInfo options ;;
    Ok (<[outputKey path cmdInfo := command]> commands).

(** The state of the first loop of [extractComponents]: [paramCounts] and
    [paramMap]. *)
Abbreviation ParamTables := (gmap string Z * gmap string FlagInfo)%type (only parsing).

(** One turn of its inner loop, over the flags of a command. *)
Definition countFlag (tables : ParamTables) (flag : ptr FlagInfo) : Res ParamTables :=
  let '(paramCounts, paramMap) := tables in
  f <~ deref flag ;;
  let key := fi_Name f in
  let count := default 0 (paramCounts !! key) + 1 in
  let paramCounts := <[key := count]> paramCounts in
  Ok (paramCounts, if count =? 1 then <[key := f]> paramMap else paramMap).

(** One turn of its outer loop, over the commands. *)
Definition countCommand (tables : ParamTables) (entry : string * ptr CommandInfo)
    : Res ParamTables :=
  cmdInfo <~ deref (snd entry) ;;
  foldRes countFlag (ci_Flags cmdInfo) tables.

(** One turn of its second loop, over [paramCounts]. *)
Definition liftParameter (paramMap : gmap string FlagInfo)
    (parameters : gmap string Parameter_) (entry : string * Z)
    : Res (gmap string Parameter_) :=
  let '(name, count) := entry in
  if (1 <? count) then
    flag <~ deref (paramMap !! name) ;;
    Ok (<[name := convertFlag flag "local"]> parameters)
  else Ok parameters.

(** The two fixed response components. *)
Definition commonResponses : gmap string Response :=
  <["Error" := {| rs_Description := "Operation failed";
                  rs_Content := {["text/plain" := {| mt_Example := Some "Error: operation failed" |}]} |}]>
    (<["Success" := {| rs_Description := "Operation completed successfully";
                       rs_Content := {["text/plain" := {| mt_Example := Some "Success" |}]} |}]>
       ∅).

Section Ranging.

Variable rng : RangeOrder.

(** [extractComponents] *)
Definition extractComponents (parsed : ParsedCLI) (options : ConvertOptions)
    : Res Components :=
  tables <~ foldRes countCommand (rng _ (Commands parsed)) (∅, ∅) ;;
  parameters <~ foldRes (liftParameter (snd tables)) (rng _ (fst tables)) ∅ ;;
  Ok {| cp_Schemas := ∅;
        cp_Parameters := parameters;
        cp_Responses := commonResponses |}.

(** [Convert] *)
Definition Convert (parsed : ptr ParsedCLI) (options : ptr ConvertOptions)
    : Res OpenCLISpec :=
  match parsed with
  | None => Err (errorString "parsed CLI is nil")
  | Some parsed =>
      let options := default DefaultConvertOptions options in
      info <~ convertInfo (Metadata parsed) options ;;
      md <~ deref (Metadata parsed) ;;
      let tags :=
        if (0 <? Z.of_nat (length (md_Tags md))) then convertTags (md_Tags md) else [] in
      let environment :=
        if (0 <? Z.of_nat (length (md_EnvVars md)))
        then convertEnvironment (md_EnvVars md) else [] in
      let platforms :=
        if (0 <? Z.of_nat (length (md_Platforms md)))
        then convertPlatforms (md_Platforms md) else [] in
      commands <~ foldRes (convertEntry options) (rng _ (Commands parsed)) ∅ ;;
      components <~
        (if ExtractComponents options
         then c <~ extractComponents parsed options ;; Ok (Some c)
         else Ok None) ;;
      Ok {| os_OpenCLI := SpecVersion options;
            os_Info := info;
            os_Platforms := platforms;
            os_Environment := environment;
            os_Tags := tags;
            os_Commands := commands;
            os_Components := components |}
  end.

End Ranging.

End converter.
Import converter.

(** ** The extractor registry of package [parser] *)

Module registry.

(** The interface [Parser]: a value that has the three methods. An extractor
    may return a [nil] model with a [nil] error, so [Parse] gives a
    reference. *)
Record Parser : Type := mkParser {
  pr_Name : string;
  pr_Parse : Source -> Res (option ParsedCLI);
  pr_Supports : Source -> bool
}.

(** [NewParserRegistry]: the registry is its map [parsers]. *)
Definition NewParserRegistry : gmap string Parser := ∅.

(** [Register] *)
Definition Register (r : gmap string Parser) (parser : Parser) : gmap string Parser :=
  <[pr_Name parser := parser]> r.

(** [Get]: the parser and [true], or [false]. *)
Definition Get (r : gmap string Parser) (name : string) : option Parser :=
  r !! name.

(** The loop of [FindParser], over the parsers in the order of [range]. *)
Fixpoint firstSupporting (parsers : list (string * Parser)) (source : Source) : Res Parser :=
  match parsers with
  | [] => Err ErrNoSuitableParser
  | (_, parser) :: rest =>
      if pr_Supports parser source then Ok parser else firstSupporting rest source
  end.

(** [FindParser] *)
Definition FindParser (rng : RangeOrder) (r : gmap string Parser) (source : Source)
    : Res Parser :=
  firstSupporting (rng _ r) source.

(** [List] *)
Definition List (rng : RangeOrder) (r : gmap string Parser) : list string :=
  fold_left (fun names entry => names ++ [fst entry]) (rng _ r) [].

(** [NewCobraParser], as a [Parser]. *)
Definition NewCobraParser : Parser :=
  {| pr_Name := CobraParser.Name;
     pr_Parse := fun source => parsed <~ Parse source ;; Ok (Some parsed);
     pr_Supports := Supports |}.

End registry.
Import registry.

(** ** The entry points of package [gospec] *)

Module gospec.

(** An error made by [fmt.Errorf("<context>: %w", err)]: it reads
    [context: err.Error()] and unwraps to [err]. *)
Inductive wrapError : Type :=
| Wrapped (context : string) (err : error).

Definition wrapErrorText (e : wrapError) : string :=
  match e with
  | Wrapped context err => context +:+ ": " +:+ Error err
  end.

Definition Unwrap (e : wrapError) : error :=
  match e with
  | Wrapped _ err => err
  end.

(** The outcomes of [GoSpec.Convert]. *)
Inductive Outcome (A : Type) : Type :=
| Returned (a : A)
| Failed (e : wrapError)
| Panicked.
Arguments Returned {A} a.
Arguments Failed {A} e.
Arguments Panicked {A}.

(** [GoSpec]: a registry and a converter, the converter being any value with
    the method [Convert]. *)
Record GoSpec : Type := mkGoSpec {
  gs_registry : gmap string Parser;
  gs_converter : option ParsedCLI -> option ConvertOptions -> Res OpenCLISpec
}.

(** [NewWithRegistry]; the default converter ranges over maps in the order
    [rng]. *)
Definition NewWithRegistry (rng : RangeOrder) (r : gmap string Parser) : GoSpec :=
  {| gs_registry := r; gs_converter := converter.Convert rng |}.

(** [New] *)
Definition New (rng : RangeOrder) : GoSpec :=
  NewWithRegistry rng (Register NewParserRegistry NewCobraParser).

(** [SetConverter] *)
Definition SetConverter (g : GoSpec)
    (conv : option ParsedCLI -> option ConvertOptions -> Res OpenCLISpec) : GoSpec :=
  {| gs_registry := gs_registry g; gs_converter := conv |}.

(** [RegisterParser] *)
Definition RegisterParser (g : GoSpec) (p : Parser) : GoSpec :=
  {| gs_registry := Register (gs_registry g) p; gs_converter := gs_converter g |}.

(** [GoSpec.Convert]; [rng] is the order in which [FindParser] ranges. *)
Definition Convert (rng : RangeOrder) (g : GoSpec) (source : Source)
    (options : option ConvertOptions) : Outcome OpenCLISpec :=
  match FindParser rng (gs_registry g) source with
  | Err err => Failed (Wrapped "failed to find parser" err)
  | Panic => Panicked
  | Ok p =>
      match pr_Parse p source with
      | Err err => Failed (Wrapped "failed to parse CLI" err)
      | Panic => Panicked
      | Ok parsed =>
          match gs_converter g parsed options with
          | Err err => Failed (Wrapped "failed to convert to OpenCLI spec" err)
          | Panic => Panicked
          | Ok openCLI => Returned openCLI
          end
      end
  end.

(** [ListParsers], [GetParser] *)
Definition ListParsers (rng : RangeOrder) (g : GoSpec) : list string :=
  List rng (gs_registry g).

Definition GetParser (g : GoSpec) (name : string) : option Parser :=
  Get (gs_registry g) name.

(** [ParseWith] *)
Definition ParseWith (g : GoSpec) (parserName : string) (source : Source)
    : Res (option ParsedCLI) :=
  match Get (gs_registry g) parserName with
  | None => Err (errorString ("parser '" +:+ parserName +:+ "' not found"))
  | Some p => pr_Parse p source
  end.

(** [DefaultOptions] *)
Definition DefaultOptions : ConvertOptions := DefaultConvertOptions.

End gospec.

(** ** Notions used to state the properties *)

(** The order in which stdpp lists a map: one order a [range] may take. *)
Definition canonicalOrder : RangeOrder := fun A m => map_to_list m.

(** The nodes reachable from a node through [Subcommands], itself first. *)
Fixpoint nodes (info : CommandInfo) : list CommandInfo :=
  info :: flat_map nodes (ci_Subcommands info).

(** The commands reachable from a command through [Commands()]. *)
Fixpoint commandsOf (cmd : cobra.Command) : list cobra.Command :=
  cmd :: flat_map commandsOf (cmd_Commands cmd).

(** A path joined as the specification words it: the parent's path, one
    separator, the node's own name. *)
Definition joined (parentPath name : string) : string :=
  parentPath +:+ "/" +:+ name.

(** The specification's rule of paths, on a tree of nodes: the root's path
    is its name, and every other node's path is [joined] from its parent's
    path and its own name. *)
Definition PathsJoined (root : CommandInfo) : Prop :=
  ci_Path root = ci_Name root /\
  forall parent child : CommandInfo,
    parent ∈ nodes root -> child ∈ ci_Subcommands parent ->
    ci_Path child = joined (ci_Path parent) (ci_Name child).

(** A command with nothing but a name and subcommands, and a flag with
    nothing but a name, for the examples. *)
Definition plainCommand (name : string) (subs : list cobra.Command) : cobra.Command :=
  {| cmd_Use := name; cmd_Name := name; cmd_Short := ""; cmd_Long := "";
     cmd_Example := ""; cmd_Aliases := []; cmd_Version := "";
     cmd_Hidden := false; cmd_Deprecated := ""; cmd_HasRun := false;
     cmd_Annotations := ∅; cmd_SuggestFor := []; cmd_ValidArgs := None;
     cmd_Args := None; cmd_Flags := Some []; cmd_PersistentFlags := Some [];
     cmd_Parent := None; cmd_Commands := subs |}.

Definition plainFlag (name : string) (changed hidden : bool) : Flag :=
  {| fl_Name := name; fl_Shorthand := ""; fl_Usage := ""; fl_Type := "bool";
     fl_DefValue := "false"; fl_Changed := changed; fl_Hidden := hidden;
     fl_Deprecated := ""; fl_Annotations := ∅ |}.

(** The tree of the parser's own test: [testapp] with [user], with [create]. *)
Definition testappTree : cobra.Command :=
  plainCommand "testapp" [plainCommand "user" [plainCommand "create" []]].

(** A command with nothing but a name and a short text. *)
Definition describedCommand (name short : string) (subs : list cobra.Command)
    : cobra.Command :=
  {| cmd_Use := name; cmd_Name := name; cmd_Short := short; cmd_Long := "";
     cmd_Example := ""; cmd_Aliases := []; cmd_Version := "";
     cmd_Hidden := false; cmd_Deprecated := ""; cmd_HasRun := false;
     cmd_Annotations := ∅; cmd_SuggestFor := []; cmd_ValidArgs := None;
     cmd_Args := None; cmd_Flags := Some []; cmd_PersistentFlags := Some [];
     cmd_Parent := None; cmd_Commands := subs |}.

(** A root with two subcommands of one name, [x]. *)
Definition siblingsTree : cobra.Command :=
  plainCommand "app" [describedCommand "x" "first" []; describedCommand "x" "second" []].

(** A root that was given no [Use], with the subcommands [/a] and [a], each
    with a subcommand [b]. *)
Definition sharedKeyTree : cobra.Command :=
  plainCommand "" [plainCommand "/a" [describedCommand "b" "first" []];
                   plainCommand "a" [describedCommand "b" "second" []]].

(** A root that was given no [Use], with one subcommand. *)
Definition unnamedRootTree : cobra.Command :=
  plainCommand "" [plainCommand "serve" []].

(** The operation identifier as the specification words it: the segments of
    the path, the first in lower case, the others title-cased, then the
    suffix; the fixed constant for a path with no separator. *)
Definition specOperationID (path : string) : string :=
  match Strings.Split path "/"%char with
  | [] | [_] => "rootCommand"
  | first :: rest =>
      Strings.ToLower first +:+ Strings.concat (map Strings.Title rest) +:+ "Command"
  end.

(** A root named [App] with one subcommand [get]. *)
Definition capitalTree : cobra.Command :=
  plainCommand "App" [plainCommand "get" []].

(** A command with nothing but a name and its two flag sets. *)
Definition flaggedCommand (name : string) (flags persistent : FlagSet) : cobra.Command :=
  {| cmd_Use := name; cmd_Name := name; cmd_Short := ""; cmd_Long := "";
     cmd_Example := ""; cmd_Aliases := []; cmd_Version := "";
     cmd_Hidden := false; cmd_Deprecated := ""; cmd_HasRun := false;
     cmd_Annotations := ∅; cmd_SuggestFor := []; cmd_ValidArgs := None;
     cmd_Args := None; cmd_Flags := Some flags; cmd_PersistentFlags := Some persistent;
     cmd_Parent := None; cmd_Commands := [] |}.

(** A command with nothing but a usage line and an argument validator. *)
Definition validatedCommand (use name : string) (validator : PositionalArgs) : cobra.Command :=
  {| cmd_Use := use; cmd_Name := name; cmd_Short := ""; cmd_Long := "";
     cmd_Example := ""; cmd_Aliases := []; cmd_Version := "";
     cmd_Hidden := false; cmd_Deprecated := ""; cmd_HasRun := true;
     cmd_Annotations := ∅; cmd_SuggestFor := []; cmd_ValidArgs := None;
     cmd_Args := Some validator; cmd_Flags := Some []; cmd_PersistentFlags := Some [];
     cmd_Parent := None; cmd_Commands := [] |}.

(** The parameters of a list that stand for the flag of a given name. *)
Definition flagParameters (name : string) (parameters : list Parameter_) : list Parameter_ :=
  filter (fun p => pa_In p = "flag" /\ pa_Name p = name) parameters.

(** A command that declares [verbose] in both of its flag sets, the flag
    already set on the command line; and one that declares a hidden [token]
    in both. *)
Definition changedFlagCommand : cobra.Command :=
  flaggedCommand "run" [plainFlag "verbose" true false] [plainFlag "verbose" true false].

Definition hiddenFlagCommand : cobra.Command :=
  flaggedCommand "login" [plainFlag "token" false true] [plainFlag "token" false true].

(** One that declares a plain [config] in both. *)
Definition sharedFlagCommand : cobra.Command :=
  flaggedCommand "app" [plainFlag "config" false false] [plainFlag "config" false false].

(** A root with two subcommands that both declare the local flag [force],
    one of which also declares [yes]. *)
Definition forceTree : cobra.Command :=
  plainCommand "app"
    [flaggedCommand "deploy" [plainFlag "force" false false; plainFlag "yes" false false] [];
     flaggedCommand "delete" [plainFlag "force" false false] []].

(** The test of [visitLocalFlag]: the flag is unchanged and the persistent
    set has a flag of its name. *)
Definition shadowed (cmd : cobra.Command) (flag : Flag) : bool :=
  negb (fl_Changed flag) &&
  match cmd_PersistentFlags cmd with
  | Some pfs => bool_decide (is_Some (Lookup pfs (fl_Name flag)))
  | None => false
  end.

(** A list of references none of which is [nil]. *)
Definition noNil {A : Type} (l : list (option A)) : bool :=
  forallb (fun p => bool_decide (is_Some p)) l.

(** A reference to a command that the converter can read through: it is not
    [nil], and neither is any flag or argument of the command. *)
Definition commandValid (p : option CommandInfo) : bool :=
  match p with
  | Some cmdInfo =>
      noNil (ci_Flags cmdInfo) && noNil (ci_PersistentFlags cmdInfo) && noNil (ci_Args cmdInfo)
  | None => false
  end.

(** An intermediate model without [nil] inside: its metadata is there and
    every command of its flat map is [commandValid]. *)
Definition ReferencesValid (parsed : ParsedCLI) : Prop :=
  is_Some (Metadata parsed) /\
  map_Forall (fun _ p => commandValid p = true) (Commands parsed).

(** A model the converter can be handed that has no metadata. *)
Definition bareCLI : ParsedCLI :=
  {| RootCommand := None; Commands := ∅; Metadata := None; FrameworkData := ∅ |}.

(** The local flags of a command of the flat map. *)
Definition localFlagsOf (p : option CommandInfo) : list FlagInfo :=
  match p with
  | Some cmdInfo => omap id (ci_Flags cmdInfo)
  | None => []
  end.

(** How many flags of a list bear a name. *)
Definition occurrences (name : string) (flags : list FlagInfo) : Z :=
  Z.of_nat (length (filter (fun flag => fi_Name flag = name) flags)).

(** The local flags of all the commands of a model. *)
Definition allLocalFlags (parsed : ParsedCLI) : list FlagInfo :=
  flat_map (fun entry => localFlagsOf (snd entry)) (map_to_list (Commands parsed)).

(** The commands of a model among whose local flags a name occurs. *)
Definition commandsDeclaring (name : string) (parsed : ParsedCLI)
    : list (string * option CommandInfo) :=
  filter (fun entry => name ∈ fi_Name <$> localFlagsOf (snd entry))
         (map_to_list (Commands parsed)).

(** The tables of [extractComponents] after the flags [seen]: a count for
    every name seen, and a representative, of that name, for each. *)
Definition Counted (tables : gmap string Z * gmap string FlagInfo)
    (seen : list FlagInfo) : Prop :=
  (forall name,
     fst tables !! name =
     if bool_decide (0 < occurrences name seen) then Some (occurrences name seen) else None) /\
  (forall name, 0 < occurrences name seen -> is_Some (snd tables !! name)) /\
  (forall name flag, snd tables !! name = Some flag -> fi_Name flag = name).

(** An outcome that is not a returned error: a value or a panic. *)
Definition NoErr {A : Type} (r : Res A) : Prop :=
  match r with
  | Err _ => False
  | _ => True
  end.

(** A flag of the intermediate model with nothing but a name. *)
Definition plainFlagInfo (name : string) : FlagInfo :=
  {| fi_Name := name; fi_Shorthand := ""; fi_Usage := ""; fi_Type := "bool";
     fi_DefaultValue := Some "false"; fi_Required := false; fi_Hidden := false;
     fi_Deprecated := ""; fi_Persistent := false; fi_ValidValues := [];
     fi_Annotations := ∅ |}.

(** A command of the intermediate model with nothing but a name, a path and
    local flags. *)
Definition plainCommandInfo (name path : string) (flags : list FlagInfo) : CommandInfo :=
  {| ci_Name := name; ci_Path := path; ci_Use := name; ci_Short := ""; ci_Long := "";
     ci_Example := ""; ci_Aliases := []; ci_Version := ""; ci_Subcommands := [];
     ci_Flags := Some <$> flags; ci_Args := []; ci_PersistentFlags := [];
     ci_Hidden := false; ci_Deprecated := ""; ci_RunFunc := true;
     ci_Annotations := ∅; ci_Tags := []; ci_Extensions := ∅ |}.

Definition plainMetadata (name : string) : CLIMetadata :=
  {| md_Name := name; md_Version := "1.0.0"; md_Description := ""; md_Author := "";
     md_License := ""; md_Homepage := ""; md_Repository := "";
     md_EnvVars := []; md_Platforms := []; md_Tags := [] |}.

(** A model of one command, [deploy], that lists the local flag [force]
    twice. *)
Definition repeatedFlagCLI : ParsedCLI :=
  let deploy := plainCommandInfo "deploy" "deploy" [plainFlagInfo "force"; plainFlagInfo "force"] in
  {| RootCommand := Some deploy;
     Commands := {["deploy" := Some deploy]};
     Metadata := Some (plainMetadata "deploy");
     FrameworkData := ∅ |}.

(** The model that [Parse] gives for a command tree. *)
Definition parsedOf (cmd : cobra.Command) : ParsedCLI :=
  match Parse (SrcCommand cmd) with
  | Ok parsed => parsed
  | _ => bareCLI
  end.

(** The tree of the parser's test of hidden commands: [root] with [visible]
    and with [hidden], which is hidden. *)
Definition hiddenCommand (name : string) : cobra.Command :=
  {| cmd_Use := name; cmd_Name := name; cmd_Short := ""; cmd_Long := "";
     cmd_Example := ""; cmd_Aliases := []; cmd_Version := "";
     cmd_Hidden := true; cmd_Deprecated := ""; cmd_HasRun := false;
     cmd_Annotations := ∅; cmd_SuggestFor := []; cmd_ValidArgs := None;
     cmd_Args := None; cmd_Flags := Some []; cmd_PersistentFlags := Some [];
     cmd_Parent := None; cmd_Commands := [] |}.

Definition hiddenTree : cobra.Command :=
  plainCommand "root" [plainCommand "visible" []; hiddenCommand "hidden"].

(** No command of a document has a given summary; a test that computes. *)
Definition summaryAbsent (out : OpenCLISpec) (summary : string) : bool :=
  forallb (fun entry : string * spec.Command =>
             negb (Strings.eqb (cm_Summary (snd entry)) summary))
          (map_to_list (os_Commands out)).

(** A reference to a command whose local flags the component extraction
    can read through. *)
Definition localValid (p : option CommandInfo) : bool :=
  match p with
  | Some cmdInfo => noNil (ci_Flags cmdInfo)
  | None => false
  end.

(** No other command of the model is stored under the output key of the
    command found at [path]; a test that computes. *)
Definition keyUnshared (parsed : ParsedCLI) (path : string) (cmdInfo : CommandInfo) : bool :=
  forallb
    (fun entry : string * option CommandInfo =>
       match snd entry with
       | Some cmdInfo' =>
           implb (Strings.eqb (outputKey (fst entry) cmdInfo') (outputKey path cmdInfo))
                 (Strings.eqb (fst entry) path)
       | None => true
       end)
    (map_to_list (Commands parsed)).

(** How many times a character occurs in a string. *)
Fixpoint countByte (c : ascii) (s : string) : nat :=
  match s with
  | EmptyString => 0%nat
  | String c' s' => ((if Strings.eqb_ascii c' c then 1 else 0) + countByte c s')%nat
  end.

(** A string of ASCII characters only. *)
Fixpoint asciiOnly (s : string) : bool :=
  match s with
  | EmptyString => true
  | String c s' => (Strings.code c <? 128)%N && asciiOnly s'
  end.

(** [strings.Join(tags, ", ")]: how a list of tags is written in the
    annotation [tags]. *)
Fixpoint joinTags (tags : list string) : string :=
  match tags with
  | [] => ""
  | tag :: rest =>
      match rest with
      | [] => tag
      | _ :: _ => tag +:+ String ","%char (String " "%char (joinTags rest))
      end
  end.

(** A flag with a shorthand, annotated as required with the value [false]
    and with two allowed values. *)
Definition annotatedFlag : Flag :=
  {| fl_Name := "output"; fl_Shorthand := "o"; fl_Usage := "output format";
     fl_Type := "string"; fl_DefValue := "json"; fl_Changed := false;
     fl_Hidden := false; fl_Deprecated := "";
     fl_Annotations := {["required" := ["false"]; "validValues" := ["json,yaml"]]} |}.

(** The command [user] as it is after [testapp.AddCommand(user)]: its parent
    is [testapp], which has a version and no parent. *)
Definition attachedCommand : cobra.Command :=
  {| cmd_Use := "user"; cmd_Name := "user"; cmd_Short := ""; cmd_Long := "";
     cmd_Example := ""; cmd_Aliases := []; cmd_Version := ""; cmd_Hidden := false;
     cmd_Deprecated := ""; cmd_HasRun := false; cmd_Annotations := ∅;
     cmd_SuggestFor := []; cmd_ValidArgs := None; cmd_Args := None;
     cmd_Flags := Some []; cmd_PersistentFlags := Some [];
     cmd_Parent :=
       Some {| cmd_Use := "testapp"; cmd_Name := "testapp"; cmd_Short := "";
               cmd_Long := "A test application"; cmd_Example := ""; cmd_Aliases := [];
               cmd_Version := "2.1.0"; cmd_Hidden := false; cmd_Deprecated := "";
               cmd_HasRun := false; cmd_Annotations := ∅; cmd_SuggestFor := [];
               cmd_ValidArgs := None; cmd_Args := None; cmd_Flags := Some [];
               cmd_PersistentFlags := Some []; cmd_Parent := None;
               cmd_Commands := [plainCommand "user" []] |};
     cmd_Commands := [] |}.

(** A command annotated with two tags. *)
Definition taggedCommand : cobra.Command :=
  {| cmd_Use := "db"; cmd_Name := "db"; cmd_Short := ""; cmd_Long := "";
     cmd_Example := ""; cmd_Aliases := []; cmd_Version := ""; cmd_Hidden := false;
     cmd_Deprecated := ""; cmd_HasRun := true;
     cmd_Annotations := {["tags" := "storage, admin"]};
     cmd_SuggestFor := []; cmd_ValidArgs := None; cmd_Args := None;
     cmd_Flags := Some []; cmd_PersistentFlags := Some []; cmd_Parent := None; cmd_Commands := [] |}.

(** A parser that supports every source and returns neither a model nor an
    error. *)
Definition silentParser : Parser :=
  {| pr_Name := "silent"; pr_Parse := fun _ => Ok None; pr_Supports := fun _ => true |}.

(** * Properties *)

(** ** Induction over the two trees *)

Lemma CommandInfo_tree_ind (P : CommandInfo -> Prop) :
  (forall info, Forall P (ci_Subcommands info) -> P info) ->
  forall info, P info.
Proof.
  intros step. fix IH 1. intros info. apply step.
  destruct info as [? ? ? ? ? ? ? ? subs ? ? ? ? ? ? ? ? ?]; simpl.
  induction subs as [|sub subs IHsubs]; constructor; [apply IH | exact IHsubs].
Qed.

Lemma Command_tree_ind (P : cobra.Command -> Prop) :
  (forall cmd, Forall P (cmd_Commands cmd) -> P cmd) ->
  forall cmd, P cmd.
Proof.
  intros step. fix IH 1. intros cmd. apply step.
  destruct cmd as [? ? ? ? ? ? ? ? ? ? ? ? ? ? ? ? ? subs]; simpl.
  induction subs as [|sub subs IHsubs]; constructor; [apply IH | exact IHsubs].
Qed.

(** ** The extractor: the tree of nodes and the flat map *)

Lemma parseNode_unfold cmd parentPath :
  parseNode cmd parentPath =
  withSubcommands (parseCommand cmd parentPath)
    (map (fun subCmd => parseNode subCmd (ci_Path (parseCommand cmd parentPath)))
         (cmd_Commands cmd)).
Proof. destruct cmd; reflexivity. Qed.

Lemma parseNode_Path cmd parentPath :
  ci_Path (parseNode cmd parentPath) = buildPath (cmd_Name cmd) parentPath.
Proof. rewrite parseNode_unfold. reflexivity. Qed.

Lemma parseNode_Name cmd parentPath :
  ci_Name (parseNode cmd parentPath) = cmd_Name cmd.
Proof. rewrite parseNode_unfold. reflexivity. Qed.

Lemma parseNode_Subcommands cmd parentPath :
  ci_Subcommands (parseNode cmd parentPath) =
  map (fun subCmd => parseNode subCmd (buildPath (cmd_Name cmd) parentPath))
      (cmd_Commands cmd).
Proof. rewrite parseNode_unfold. reflexivity. Qed.

Lemma nodes_unfold info :
  nodes info = info :: flat_map nodes (ci_Subcommands info).
Proof. destruct info; reflexivity. Qed.

Lemma parseSubcommands_unfold parentInfo commandMap :
  parseSubcommands parentInfo commandMap =
  fold_left
    (fun m subInfo => parseSubcommands subInfo (<[ci_Path subInfo := Some subInfo]> m))
    (ci_Subcommands parentInfo) commandMap.
Proof. destruct parentInfo; reflexivity. Qed.

(** The writes of [parseSubcommands] are one insertion per node below
    [parentInfo], in the order of [nodes]. *)
Lemma parseSubcommands_inserts parentInfo :
  forall commandMap,
    parseSubcommands parentInfo commandMap =
    fold_left (fun m n => <[ci_Path n := Some n]> m)
              (flat_map nodes (ci_Subcommands parentInfo)) commandMap.
Proof.
  induction parentInfo as [parentInfo IH] using CommandInfo_tree_ind.
  intros commandMap. rewrite parseSubcommands_unfold.
  revert commandMap.
  induction IH as [|sub subs Hsub _ IHsubs]; intros commandMap; simpl; [reflexivity|].
  rewrite fold_left_app, Hsub, IHsubs. f_equal.
  rewrite (nodes_unfold sub). reflexivity.
Qed.

Lemma inserts_lookup (l : list CommandInfo) :
  forall (m : gmap string (ptr CommandInfo)) path p,
    fold_left (fun m n => <[ci_Path n := Some n]> m) l m !! path = Some p ->
    m !! path = Some p \/ exists n, p = Some n /\ n ∈ l /\ ci_Path n = path.
Proof.
  induction l as [|x l IH]; intros m path p Hp; simpl in Hp; [by left|].
  apply IH in Hp as [Hp|(n & -> & Hn & Hpath)].
  - destruct (decide (ci_Path x = path)) as [Heq|Hne].
    + rewrite <- Heq, lookup_insert_eq in Hp. injection Hp as <-.
      right. exists x. split_and!; [done|constructor|done].
    + rewrite lookup_insert_ne in Hp by done. by left.
  - right. exists n. split_and!; [done|by constructor|done].
Qed.

Lemma inserts_dom (l : list CommandInfo) :
  forall m : gmap string (ptr CommandInfo),
    dom (fold_left (fun m n => <[ci_Path n := Some n]> m) l m)
    = dom m ∪ list_to_set (ci_Path <$> l).
Proof.
  induction l as [|x l IH]; intros m; simpl.
  - set_solver.
  - rewrite IH, dom_insert_L. set_solver.
Qed.

Lemma inserts_last (l : list CommandInfo) :
  forall (m : gmap string (option CommandInfo)) path,
    fold_left (fun m n => <[ci_Path n := Some n]> m) l m !! path
    = match last (filter (fun n => ci_Path n = path) l) with
      | Some n => Some (Some n)
      | None => m !! path
      end.
Proof.
  induction l as [|x l IH] using rev_ind; intros m path; [reflexivity|].
  rewrite fold_left_app, filter_app. cbn [fold_left]. rewrite filter_cons, filter_nil.
  destruct (decide (ci_Path x = path)) as [Heq|Hne].
  - rewrite last_snoc, <- Heq. apply lookup_insert_eq.
  - rewrite app_nil_r, lookup_insert_ne by done. apply IH.
Qed.

Lemma inserts_size (l : list CommandInfo) :
  forall m : gmap string (option CommandInfo),
    (size (fold_left (fun m n => <[ci_Path n := Some n]> m) l m) <= size m + length l)%nat.
Proof.
  induction l as [|x l IH]; intros m; simpl; [lia|].
  etrans; [apply IH|]. rewrite map_size_insert.
  destruct (m !! ci_Path x); unfold id; simpl; lia.
Qed.

Lemma commandsOf_unfold cmd :
  commandsOf cmd = cmd :: flat_map commandsOf (cmd_Commands cmd).
Proof. destruct cmd; reflexivity. Qed.

(** The tree of nodes has the shape of the tree of commands. *)
Lemma nodes_parseNode_names cmd :
  forall parentPath,
    ci_Name <$> nodes (parseNode cmd parentPath) = cmd_Name <$> commandsOf cmd.
Proof.
  induction cmd as [cmd IH] using Command_tree_ind. intros parentPath.
  rewrite nodes_unfold, commandsOf_unfold, !fmap_cons.
  rewrite parseNode_Name, parseNode_Subcommands. f_equal.
  generalize (buildPath (cmd_Name cmd) parentPath) as here. intros here.
  induction IH as [|sub subs Hsub _ IHsubs]; simpl; [reflexivity|].
  rewrite !fmap_app. f_equal; [apply Hsub | apply IHsubs].
Qed.

(** The flat map that [Parse] builds for a command: its keys are the paths
    of the nodes of the tree, and each key holds a node of that path. *)
Lemma parsed_commands cmd :
  let rootInfo := parseNode cmd "" in
  let commands : gmap string (option CommandInfo) :=
    parseSubcommands rootInfo (<[ci_Path rootInfo := Some rootInfo]> ∅) in
  dom commands = list_to_set (ci_Path <$> nodes rootInfo) /\
  (forall path p, commands !! path = Some p ->
     exists info, p = Some info /\ info ∈ nodes rootInfo /\ ci_Path info = path).
Proof.
  intros rootInfo commands. unfold commands. split.
  - rewrite parseSubcommands_inserts, inserts_dom, dom_insert_L, dom_empty_L.
    rewrite (nodes_unfold rootInfo). simpl. set_solver.
  - intros path p Hp. rewrite parseSubcommands_inserts in Hp.
    apply inserts_lookup in Hp as [Hp|(n & -> & Hn & Hpath)].
    + destruct (decide (ci_Path rootInfo = path)) as [Heq|Hne].
      * rewrite <- Heq, lookup_insert_eq in Hp. injection Hp as <-.
        eexists. split_and!; [reflexivity| |exact Heq].
        rewrite nodes_unfold. constructor.
      * rewrite lookup_insert_ne, lookup_empty in Hp by done. discriminate.
    + exists n. split_and!; [done| |done].
      rewrite nodes_unfold. by constructor.
Qed.

(** ** Paths *)

(** The path of a child, from the parent's path and the child's name, at
    every node of a parsed tree. *)
Lemma child_path cmd :
  forall parentPath parent child,
    parent ∈ nodes (parseNode cmd parentPath) ->
    child ∈ ci_Subcommands parent ->
    ci_Path child = buildPath (ci_Name child) (ci_Path parent).
Proof.
  induction cmd as [cmd IH] using Command_tree_ind.
  intros parentPath parent child Hparent Hchild.
  rewrite nodes_unfold, parseNode_Subcommands in Hparent.
  apply elem_of_cons in Hparent as [->|Hparent].
  - rewrite parseNode_Subcommands in Hchild.
    apply list_elem_of_fmap in Hchild as (subCmd & -> & _).
    by rewrite !parseNode_Path, parseNode_Name.
  - apply list_elem_of_In, in_flat_map in Hparent as (subInfo & HsubInfo & Hin).
    apply in_map_iff in HsubInfo as (subCmd & <- & HsubCmd).
    rewrite Forall_forall in IH.
    eapply (IH subCmd); [by apply list_elem_of_In| |exact Hchild].
    apply list_elem_of_In, Hin.
Qed.

Lemma buildPath_root name : buildPath name "" = name.
Proof.
  unfold buildPath, Strings.eqb.
  destruct (decide (name = "")) as [->|Hne].
  - by rewrite bool_decide_eq_true_2.
  - by rewrite (bool_decide_eq_false_2 _ Hne).
Qed.

(** Claim C4, as the code has it. For every command tree, [Parse] succeeds;
    the root node's path is its own name; and the path of every other node
    is built from its parent's path and its own name: the two joined by one
    separator when both are non-empty, the name alone under a parent whose
    path is empty, and the parent's path for a node whose name is empty. *)
Theorem C4_paths_are_built_from_parent_path_and_name :
  forall cmd : cobra.Command,
    exists parsed rootInfo,
      Parse (SrcCommand cmd) = Ok parsed /\
      RootCommand parsed = Some rootInfo /\
      ci_Path rootInfo = ci_Name rootInfo /\
      forall parent child : CommandInfo,
        parent ∈ nodes rootInfo -> child ∈ ci_Subcommands parent ->
        (ci_Name child <> "" -> ci_Path parent <> "" ->
           ci_Path child = joined (ci_Path parent) (ci_Name child)) /\
        (ci_Name child <> "" -> ci_Path parent = "" ->
           ci_Path child = ci_Name child) /\
        (ci_Name child = "" -> ci_Path child = ci_Path parent).
Proof.
  intros cmd. eexists _, (parseNode cmd ""). split; [reflexivity|]. simpl.
  split_and!; [reflexivity| |].
  - by rewrite parseNode_Path, parseNode_Name, buildPath_root.
  - intros parent child Hparent Hchild.
    rewrite (child_path _ _ _ _ Hparent Hchild).
    unfold buildPath, joined, Strings.eqb. split_and!.
    + intros Hname Hpath.
      by rewrite (bool_decide_eq_false_2 _ Hname), (bool_decide_eq_false_2 _ Hpath).
    + intros Hname Hpath.
      by rewrite (bool_decide_eq_false_2 _ Hname), (bool_decide_eq_true_2 _ Hpath).
    + intros Hname. by rewrite (bool_decide_eq_true_2 _ Hname).
Qed.

(** The rule at work in the tree of the parser's test: [user] lies under
    [testapp] at [testapp/user]. *)
Lemma C4_paths_witness :
  exists child : CommandInfo,
    ci_Name child = "user" /\ ci_Path child = joined "testapp" "user".
Proof.
  destruct (C4_paths_are_built_from_parent_path_and_name testappTree)
    as (parsed & rootInfo & Hparse & Hroot & _ & Hkids).
  injection Hparse as <-. injection Hroot as <-.
  exists (parseNode (plainCommand "user" [plainCommand "create" []]) "testapp").
  split; [reflexivity|].
  refine (proj1 (Hkids (parseNode testappTree "") _ _ _) _ _).
  - vm_compute. constructor.
  - vm_compute. constructor.
  - vm_compute. discriminate.
  - vm_compute. discriminate.
Defined.

(** Claim C4, as it is worded, fails on a root that has no name: the path of
    its subcommand [serve] is [serve], with no separator before it. *)
Lemma C4_counterexample_unnamed_root :
  exists parsed rootInfo,
    Parse (SrcCommand unnamedRootTree) = Ok parsed /\
    RootCommand parsed = Some rootInfo /\
    ~ PathsJoined rootInfo.
Proof.
  eexists _, _. split_and!; [reflexivity|reflexivity|].
  intros [_ Hjoin].
  specialize (Hjoin (parseNode unnamedRootTree "") (parseNode (plainCommand "serve" []) "")).
  assert (Hpaths : ci_Path (parseNode (plainCommand "serve" []) "") = "/serve").
  { apply Hjoin; vm_compute; constructor. }
  vm_compute in Hpaths. discriminate.
Qed.

(** In a tree where every command has a name, the rule is the
    specification's. *)
Lemma paths_joined_when_named (cmd : cobra.Command) :
  Forall (fun c => cmd_Name c <> "") (commandsOf cmd) ->
  PathsJoined (parseNode cmd "").
Proof.
  intros Hnamed. split.
  - by rewrite parseNode_Path, parseNode_Name, buildPath_root.
  - assert (Hnodes : forall c parentPath,
               Forall (fun c => cmd_Name c <> "") (commandsOf c) ->
               Forall (fun n => ci_Name n <> "" /\ ci_Path n <> "")
                      (nodes (parseNode c parentPath))).
    { clear. induction c as [c IH] using Command_tree_ind.
      intros parentPath Hc. rewrite commandsOf_unfold in Hc.
      apply Forall_cons in Hc as [Hname Hsubs].
      rewrite nodes_unfold, parseNode_Subcommands. constructor.
      - rewrite parseNode_Name, parseNode_Path. split; [done|].
        unfold buildPath, Strings.eqb. rewrite (bool_decide_eq_false_2 _ Hname). simpl.
        case_bool_decide; [done|]. by destruct parentPath.
      - generalize (buildPath (cmd_Name c) parentPath). intros here.
        induction IH as [|sub subs Hsub _ IHsubs]; simpl in *; [constructor|].
        apply Forall_app in Hsubs as [Hs1 Hs2].
        apply Forall_app. split; [by apply Hsub | by apply IHsubs]. }
    intros parent child Hparent Hchild.
    rewrite (child_path _ _ _ _ Hparent Hchild).
    pose proof (Hnodes cmd "" Hnamed) as Hall. rewrite Forall_forall in Hall.
    destruct (Hall parent Hparent) as [_ HparentPath].
    assert (Hchildnode : child ∈ nodes (parseNode cmd "")).
    { clear -Hparent Hchild.
      revert Hparent. generalize (parseNode cmd ""). intros root.
      induction root as [root IH] using CommandInfo_tree_ind. intros Hparent.
      rewrite nodes_unfold in Hparent |- *.
      apply elem_of_cons in Hparent as [->|Hparent].
      - right. apply list_elem_of_In, in_flat_map. exists child.
        split; [by apply list_elem_of_In|]. rewrite nodes_unfold. by left.
      - right. apply list_elem_of_In, in_flat_map in Hparent as (sub & Hsub & Hin).
        apply list_elem_of_In, in_flat_map. exists sub. split; [done|].
        rewrite Forall_forall in IH. apply list_elem_of_In.
        apply IH; by apply list_elem_of_In. }
    destruct (Hall child Hchildnode) as [HchildName _].
    unfold buildPath, joined, Strings.eqb.
    by rewrite (bool_decide_eq_false_2 _ HchildName), (bool_decide_eq_false_2 _ HparentPath).
Qed.


(** ** The flat map *)

Lemma filter_none {A} (P : A -> Prop) `{forall x, Decision (P x)} (l : list A) :
  Forall (fun x => ~ P x) l -> filter P l = [].
Proof.
  induction 1 as [|x l Hx _ IH]; [reflexivity|].
  by rewrite filter_cons, decide_False, IH.
Qed.

(** A list of strings has as many elements as its set exactly when it has
    no element twice. *)
Lemma size_list_to_set_NoDup (l : list string) :
  (size (list_to_set l : gset string) <= length l)%nat /\
  (size (list_to_set l : gset string) = length l <-> NoDup l).
Proof.
  induction l as [|x l [IHle IHeq]].
  - cbn [list_to_set length]. rewrite size_empty. split; [lia|].
    split; [constructor|done].
  - cbn [list_to_set length]. destruct (decide (x ∈ l)) as [Hin|Hout].
    + assert (Hsame : ({[x]} ∪ list_to_set l : gset string) = list_to_set l) by set_solver.
      rewrite Hsame. split; [lia|]. split; [lia|].
      intros Hnd. apply NoDup_cons in Hnd as [Hfresh _]. done.
    + rewrite size_union, size_singleton by set_solver. split; [lia|]. split.
      * intros Hsize. apply NoDup_cons. split; [done|]. apply IHeq. lia.
      * intros Hnd. apply NoDup_cons in Hnd as [_ Hnd]. apply IHeq in Hnd. lia.
Qed.

(** Among nodes of pairwise different paths, a node is the only one of its
    path. *)
Lemma filter_own_path (l : list CommandInfo) (info : CommandInfo) :
  NoDup (ci_Path <$> l) -> info ∈ l ->
  filter (fun n => ci_Path n = ci_Path info) l = [info].
Proof.
  induction l as [|x l IH]; intros Hnd Hin; [by apply elem_of_nil in Hin|].
  rewrite fmap_cons in Hnd. apply NoDup_cons in Hnd as [Hfresh Hnd].
  rewrite filter_cons. apply elem_of_cons in Hin as [->|Hin].
  - rewrite decide_True by done. f_equal. apply filter_none, Forall_forall.
    intros n Hn Heq. apply Hfresh. rewrite <- Heq. apply list_elem_of_fmap. by exists n.
  - rewrite decide_False; [by apply IH|].
    intros Heq. apply Hfresh. rewrite Heq. apply list_elem_of_fmap. by exists info.
Qed.

(** Claim C9, as the code has it. For every command tree, [Parse] succeeds.
    The reachable nodes are the nodes of the commands of the tree, one for
    each. The keys of the flat command map are exactly the paths of the
    reachable nodes, the root included: the root's name is a key, and so is
    the path joined from a parent's path and a child's name, both not
    empty; and each key holds a reachable node of that path. The map has as
    many entries as there are reachable nodes exactly when the paths of the
    nodes are pairwise different, and then every reachable node is stored
    under its path; nodes of one path overwrite one another, so that some
    reachable node is stored nowhere. *)
Theorem C9_flat_map_keys_are_the_reachable_paths :
  forall cmd : cobra.Command,
    exists parsed rootInfo,
      Parse (SrcCommand cmd) = Ok parsed /\
      RootCommand parsed = Some rootInfo /\
      ci_Name <$> nodes rootInfo = cmd_Name <$> commandsOf cmd /\
      dom (Commands parsed) = list_to_set (ci_Path <$> nodes rootInfo) /\
      cmd_Name cmd ∈ dom (Commands parsed) /\
      (forall parent child : CommandInfo,
         parent ∈ nodes rootInfo -> child ∈ ci_Subcommands parent ->
         ci_Name child <> "" -> ci_Path parent <> "" ->
         joined (ci_Path parent) (ci_Name child) ∈ dom (Commands parsed)) /\
      (forall path p, Commands parsed !! path = Some p ->
         exists info, p = Some info /\ info ∈ nodes rootInfo /\ ci_Path info = path) /\
      (size (Commands parsed) <= length (nodes rootInfo))%nat /\
      (size (Commands parsed) = length (nodes rootInfo) <->
       NoDup (ci_Path <$> nodes rootInfo)) /\
      (NoDup (ci_Path <$> nodes rootInfo) ->
       forall info, info ∈ nodes rootInfo ->
                    Commands parsed !! ci_Path info = Some (Some info)).
Proof.
  intros cmd. eexists _, (parseNode cmd ""). split; [reflexivity|]. simpl.
  destruct (parsed_commands cmd) as [Hdom Hlookup].
  assert (Hkey : forall info, info ∈ nodes (parseNode cmd "") ->
                   ci_Path info ∈ dom (parseSubcommands (parseNode cmd "")
                     (<[ci_Path (parseNode cmd "") := Some (parseNode cmd "")]> ∅))).
  { intros info Hinfo. rewrite Hdom.
    apply elem_of_list_to_set, list_elem_of_fmap. by exists info. }
  destruct (size_list_to_set_NoDup (ci_Path <$> nodes (parseNode cmd ""))) as [Hle Heq].
  rewrite length_fmap in Hle, Heq.
  split_and!; [reflexivity|apply nodes_parseNode_names|exact Hdom| | |exact Hlookup| | |].
  - rewrite <- (buildPath_root (cmd_Name cmd)), <- (parseNode_Path cmd "").
    apply Hkey. rewrite nodes_unfold. by left.
  - intros parent child Hparent Hchild Hname Hpath.
    assert (Hjoined : ci_Path child = joined (ci_Path parent) (ci_Name child)).
    { rewrite (child_path _ _ _ _ Hparent Hchild). unfold buildPath, joined, Strings.eqb.
      by rewrite (bool_decide_eq_false_2 _ Hname), (bool_decide_eq_false_2 _ Hpath). }
    rewrite <- Hjoined. apply Hkey.
    rewrite nodes_unfold in Hparent |- *. right.
    apply elem_of_cons in Hparent as [->|Hparent].
    + apply list_elem_of_In, in_flat_map. exists child.
      split; [by apply list_elem_of_In|]. rewrite nodes_unfold. by left.
    + apply list_elem_of_In, in_flat_map in Hparent as (sub & Hsub & Hin).
      apply list_elem_of_In, in_flat_map. exists sub. split; [done|].
      apply list_elem_of_In. apply list_elem_of_In in Hin.
      clear -Hin Hchild. revert Hin. generalize sub. clear sub.
      induction sub as [sub IH] using CommandInfo_tree_ind. intros Hin.
      rewrite nodes_unfold in Hin |- *. right.
      apply elem_of_cons in Hin as [->|Hin].
      * apply list_elem_of_In, in_flat_map. exists child.
        split; [by apply list_elem_of_In|]. rewrite nodes_unfold. by left.
      * apply list_elem_of_In, in_flat_map in Hin as (sub' & Hsub' & Hin').
        apply list_elem_of_In, in_flat_map. exists sub'. split; [done|].
        apply list_elem_of_In. rewrite Forall_forall in IH.
        apply (IH sub'); [by apply list_elem_of_In|by apply list_elem_of_In].
  - by rewrite <- size_dom, Hdom.
  - by rewrite <- size_dom, Hdom.
  - intros Hnd info Hinfo. rewrite parseSubcommands_inserts.
    assert (Hfold : forall (l : list CommandInfo) (x : CommandInfo)
                           (m : gmap string (option CommandInfo)),
               fold_left (fun m n => <[ci_Path n := Some n]> m) l (<[ci_Path x := Some x]> m)
               = fold_left (fun m n => <[ci_Path n := Some n]> m) (x :: l) m)
      by reflexivity.
    rewrite Hfold, <- (nodes_unfold (parseNode cmd "")), inserts_last.
    by rewrite (filter_own_path _ _ Hnd Hinfo).
Qed.

(** In the tree of the parser's test the three paths are different, and
    [create] is stored under its path. *)
Lemma C9_testapp_witness :
  Commands (parsedOf testappTree) !! "testapp/user/create"
  = Some (Some (parseNode (plainCommand "create" []) "testapp/user")).
Proof.
  destruct (C9_flat_map_keys_are_the_reachable_paths testappTree)
    as (parsed & rootInfo & Hparse & Hroot & _ & _ & _ & _ & _ & _ & _ & Hstored).
  injection Hparse as <-. injection Hroot as <-.
  apply (Hstored ltac:(vm_compute; repeat constructor; set_solver)
           (parseNode (plainCommand "create" []) "testapp/user")).
  vm_compute. do 2 right. left.
Defined.

(** Claim C9, as it is worded, fails on a root with two subcommands of one
    name: the tree has three reachable nodes, the flat map two entries, and
    the node of the first of the two subcommands is stored nowhere. *)
Lemma C9_counterexample_two_siblings_of_one_name :
  exists parsed rootInfo lost,
    Parse (SrcCommand siblingsTree) = Ok parsed /\
    RootCommand parsed = Some rootInfo /\
    lost ∈ nodes rootInfo /\
    (forall path, Commands parsed !! path <> Some (Some lost)) /\
    length (nodes rootInfo) = 3%nat /\
    size (Commands parsed) = 2%nat.
Proof.
  exists (parsedOf siblingsTree), (parseNode siblingsTree ""),
         (parseNode (describedCommand "x" "first" []) "app").
  split_and!; [reflexivity|reflexivity| | |reflexivity|vm_compute; reflexivity].
  - vm_compute. right. left.
  - intros path Hpath.
    destruct (parsed_commands siblingsTree) as [_ Hlookup].
    destruct (Hlookup path _ Hpath) as (info & Hinfo & _ & Hsame).
    injection Hinfo as <-.
    assert (Hhere : path = "app/x") by (rewrite <- Hsame; reflexivity).
    rewrite Hhere in Hpath.
    assert (Hshort : ci_Short <$> (Commands (parsedOf siblingsTree) !! "app/x" ≫= id)
                     = Some "second") by (vm_compute; reflexivity).
    rewrite Hpath in Hshort. vm_compute in Hshort. discriminate.
Qed.

(** ** Operation identifiers *)

Lemma append_assoc (s t u : string) : (s +:+ t) +:+ u = s +:+ (t +:+ u).
Proof.
  induction s as [|c s IH]; [reflexivity|].
  change (String c ((s +:+ t) +:+ u) = String c (s +:+ (t +:+ u))).
  by rewrite IH.
Qed.

Lemma append_empty_r (s : string) : s +:+ "" = s.
Proof.
  induction s as [|c s IH]; [reflexivity|].
  change (String c (s +:+ "") = String c s). by rewrite IH.
Qed.

Lemma Split_nonempty (s : string) (sep : ascii) : Strings.Split s sep <> [].
Proof.
  destruct s as [|c s]; simpl; [discriminate|].
  destruct (Strings.eqb_ascii c sep); [discriminate|].
  destruct (Strings.Split s sep); discriminate.
Qed.

(** The loop of [generateOperationID] concatenates the title-cased parts. *)
Lemma title_loop (rest : list string) :
  forall first,
    fold_left (fun operationID part => operationID +:+ Strings.Title part) rest first
    = first +:+ Strings.concat (map Strings.Title rest).
Proof.
  induction rest as [|part rest IH]; intros first.
  - simpl. by rewrite append_empty_r.
  - change (fold_left (fun operationID part => operationID +:+ Strings.Title part)
              rest (first +:+ Strings.Title part)
            = first +:+ (Strings.Title part +:+ Strings.concat (map Strings.Title rest))).
    by rewrite IH, append_assoc.
Qed.

(** The test [len(parts) == 0] of [generateOperationID] never holds. *)
Lemma generateOperationID_never_takes_the_constant_branch (cmdInfo : CommandInfo) :
  exists first rest,
    Strings.Split (Strings.Trim (ci_Path cmdInfo) "/"%char) "/"%char = first :: rest.
Proof.
  pose proof (Split_nonempty (Strings.Trim (ci_Path cmdInfo) "/"%char) "/"%char) as Hne.
  destruct (Strings.Split _ _) as [|first rest]; [done|by eexists _, _].
Qed.

Lemma convertCommand_OperationID cmdInfo options command :
  convertCommand cmdInfo options = Ok command ->
  cm_OperationID command =
  if GenerateOperationIDs options then generateOperationID cmdInfo else "".
Proof.
  unfold convertCommand, bindRes. intros H.
  repeat match type of H with
         | match ?r with _ => _ end = _ => destruct r; try discriminate
         end.
  by injection H as <-.
Qed.

(** Claim C2, as the code has it. For a command whose path is more than
    separators, the operation identifier is made of the segments of the
    path (separators at its two ends trimmed off, then split on the
    separator): the first segment as it stands, every later segment
    title-cased, all concatenated, and the suffix [Command] appended; a
    converted command carries that identifier when identifier generation is
    enabled, and the empty identifier otherwise. *)
Theorem C2_operation_id_is_built_from_the_path_segments :
  forall (cmdInfo : CommandInfo) (options : ConvertOptions),
    Strings.Trim (ci_Path cmdInfo) "/"%char <> "" ->
    exists first rest,
      Strings.Split (Strings.Trim (ci_Path cmdInfo) "/"%char) "/"%char = first :: rest /\
      generateOperationID cmdInfo
      = first +:+ Strings.concat (map Strings.Title rest) +:+ "Command" /\
      forall command,
        convertCommand cmdInfo options = Ok command ->
        cm_OperationID command =
        if GenerateOperationIDs options
        then first +:+ Strings.concat (map Strings.Title rest) +:+ "Command"
        else "".
Proof.
  intros cmdInfo options _.
  destruct (generateOperationID_never_takes_the_constant_branch cmdInfo)
    as (first & rest & Hparts).
  assert (Hid : generateOperationID cmdInfo
                = first +:+ Strings.concat (map Strings.Title rest) +:+ "Command").
  { unfold generateOperationID. rewrite Hparts, title_loop. apply append_assoc. }
  exists first, rest. split_and!; [done|done|].
  intros command Hcommand.
  rewrite (convertCommand_OperationID _ _ _ Hcommand). by rewrite Hid.
Qed.

(** The identifier of [create] in the tree of the parser's test. *)
Lemma C2_operation_id_witness :
  exists first rest,
    Strings.Split (Strings.Trim "testapp/user/create" "/"%char) "/"%char = first :: rest /\
    first +:+ Strings.concat (map Strings.Title rest) +:+ "Command"
    = "testappUserCreateCommand".
Proof.
  destruct (C2_operation_id_is_built_from_the_path_segments
              (parseNode (plainCommand "create" []) "testapp/user")
              DefaultConvertOptions)
    as (first & rest & Hparts & Hid & _).
  - vm_compute. discriminate.
  - exists first, rest. split; [exact Hparts|].
    rewrite <- Hid. vm_compute. reflexivity.
Defined.

(** Claim C2, as it is worded, fails on the tree [App] with [get]: the first
    segment keeps its capital, and the root, whose path has no separator,
    gets its own name with the suffix instead of the fixed constant. *)
Lemma C2_counterexample_capital_root :
  exists rootInfo child,
    rootInfo = parseNode capitalTree "" /\
    child ∈ ci_Subcommands rootInfo /\
    ci_Path rootInfo = "App" /\
    generateOperationID rootInfo = "AppCommand" /\
    specOperationID (ci_Path rootInfo) = "rootCommand" /\
    ci_Path child = "App/get" /\
    generateOperationID child = "AppGetCommand" /\
    specOperationID (ci_Path child) = "appGetCommand".
Proof.
  eexists _, (parseNode (plainCommand "get" []) "App").
  split_and!; [reflexivity|vm_compute; constructor|reflexivity..].
Qed.


(** ** Arity inference *)

Lemma reflected_name_matches_no_validator (v : PositionalArgs) :
  Forall (fun marker => Strings.Contains (reflectTypeString v) marker = false)
         ["NoArgs"; "ExactArgs"; "MinimumNArgs"; "MaximumNArgs"; "RangeArgs"].
Proof. repeat constructor. Qed.

(** Claim C7, what the code does instead. Whatever validator a command
    holds, its reflected type name is that of the function type, in which
    [inferArgsArity] finds none of the names it looks for: it answers
    "none required, unlimited", and [parseArguments] then makes no
    argument at all when the command has no set of valid arguments. *)
Theorem C7_every_validator_is_inferred_as_unlimited :
  forall (cmd : cobra.Command) (validator : PositionalArgs),
    cmd_Args cmd = Some validator ->
    default [] (cmd_ValidArgs cmd) = [] ->
    inferArgsArity cmd = (0, -1) /\ parseArguments cmd = [].
Proof.
  intros cmd validator Hargs Hvalid.
  assert (Harity : inferArgsArity cmd = (0, -1)).
  { unfold inferArgsArity. rewrite Hargs. reflexivity. }
  split; [exact Harity|].
  unfold parseArguments. rewrite Hvalid, Hargs, Harity. reflexivity.
Qed.

(** A command [get <id>] that asks for at least one argument gets none. *)
Lemma C7_minimum_validator_witness :
  parseArguments (validatedCommand "get <id>" "get" (MinimumNArgs 1)) = [].
Proof.
  refine (proj2 (C7_every_validator_is_inferred_as_unlimited
                   (validatedCommand "get <id>" "get" (MinimumNArgs 1))
                   (MinimumNArgs 1) _ _)); reflexivity.
Defined.


(** ** Flags of a node *)

Lemma visitLocalFlag_loop cmd (fs : FlagSet) :
  forall flags,
    fold_left (visitLocalFlag cmd) fs flags
    = flags ++ ((fun flag => Some (parseFlag flag false))
                <$> filter (fun flag => shadowed cmd flag = false) fs).
Proof.
  induction fs as [|flag fs IH]; intros flags; cbn [fold_left].
  - simpl. by rewrite app_nil_r.
  - rewrite IH. unfold visitLocalFlag.
    assert (Hskip : (if negb (fl_Changed flag)
                     then match cmd_PersistentFlags cmd with
                          | Some pfs => bool_decide (is_Some (Lookup pfs (fl_Name flag)))
                          | None => false
                          end
                     else false) = shadowed cmd flag).
    { unfold shadowed. by destruct (fl_Changed flag). }
    rewrite Hskip. rewrite filter_cons.
    destruct (shadowed cmd flag); simpl; [reflexivity|by rewrite <- app_assoc].
Qed.

Lemma visitPersistentFlag_loop (pfs : FlagSet) :
  forall flags,
    fold_left visitPersistentFlag pfs flags
    = flags ++ ((fun flag => Some (parseFlag flag true)) <$> pfs).
Proof.
  induction pfs as [|flag pfs IH]; intros flags; cbn [fold_left].
  - simpl. by rewrite app_nil_r.
  - rewrite IH. unfold visitPersistentFlag. by rewrite fmap_cons, <- app_assoc.
Qed.

(** The loops of [convertCommand] on lists that hold no [nil]. *)
Lemma appendFlag_loop options scope (flags : list FlagInfo) :
  forall parameters,
    foldRes (appendFlag options scope) (Some <$> flags) parameters
    = Ok (parameters ++
          ((fun flag => convertFlag flag scope)
           <$> filter (fun flag => IncludeHidden options || negb (fi_Hidden flag) = true) flags)).
Proof.
  induction flags as [|flag flags IH]; intros parameters.
  - simpl. by rewrite app_nil_r.
  - rewrite fmap_cons. cbn [foldRes]. unfold appendFlag at 1. cbn [deref bindRes].
    rewrite filter_cons.
    destruct (IncludeHidden options), (fi_Hidden flag);
      cbn [negb andb orb bindRes]; rewrite IH; simpl; by rewrite <- ?app_assoc.
Qed.

Lemma appendArgument_loop (args : list ArgumentInfo) :
  forall parameters,
    foldRes appendArgument (Some <$> args) parameters
    = Ok (parameters ++ (convertArgument <$> args)).
Proof.
  induction args as [|arg args IH]; intros parameters.
  - simpl. by rewrite app_nil_r.
  - rewrite fmap_cons. cbn [foldRes]. unfold appendArgument at 1. cbn [deref bindRes].
    rewrite IH. by rewrite fmap_cons, <- app_assoc.
Qed.

Lemma parseArguments_no_nil cmd :
  exists args : list ArgumentInfo, parseArguments cmd = Some <$> args.
Proof.
  unfold parseArguments.
  destruct (0 <? Z.of_nat (length (default [] (cmd_ValidArgs cmd)))).
  - generalize (default [] (cmd_ValidArgs cmd)). intros validArgs.
    eexists (imap _ validArgs). by rewrite fmap_imap.
  - destruct (cmd_Args cmd); [|by exists []].
    destruct (inferArgsArity cmd) as [minArgs maxArgs].
    destruct ((0 <? minArgs) || (0 <? maxArgs)); [|by exists []].
    by eexists [_].
Qed.

(** The parameters of a parsed node: its visible local flags, then its
    visible persistent flags, then its arguments. *)
Lemma convertCommand_parseCommand cmd parentPath options :
  exists command args,
    convertCommand (parseCommand cmd parentPath) options = Ok command /\
    parseArguments cmd = Some <$> args /\
    cm_Parameters command
    = ((fun flag => convertFlag flag "local")
       <$> filter (fun flag => IncludeHidden options || negb (fi_Hidden flag) = true)
             ((fun flag => parseFlag flag false)
              <$> filter (fun flag => shadowed cmd flag = false)
                    (default [] (cmd_Flags cmd))))
      ++ ((fun flag => convertFlag flag "inherited")
          <$> filter (fun flag => IncludeHidden options || negb (fi_Hidden flag) = true)
                ((fun flag => parseFlag flag true) <$> default [] (cmd_PersistentFlags cmd)))
      ++ (convertArgument <$> args).
Proof.
  destruct (parseArguments_no_nil cmd) as [args Hargs].
  assert (Hlocal : ci_Flags (parseCommand cmd parentPath)
                   = Some <$> ((fun flag => parseFlag flag false)
                               <$> filter (fun flag => shadowed cmd flag = false)
                                     (default [] (cmd_Flags cmd)))).
  { simpl. destruct (cmd_Flags cmd) as [fs|]; [|reflexivity].
    rewrite visitLocalFlag_loop. simpl. by rewrite <- list_fmap_compose. }
  assert (Hpers : ci_PersistentFlags (parseCommand cmd parentPath)
                  = Some <$> ((fun flag => parseFlag flag true)
                              <$> default [] (cmd_PersistentFlags cmd))).
  { simpl. destruct (cmd_PersistentFlags cmd) as [pfs|]; [|reflexivity].
    rewrite visitPersistentFlag_loop. simpl. by rewrite <- list_fmap_compose. }
  eexists _, args. unfold convertCommand.
  rewrite Hlocal, Hpers.
  change (ci_Args (parseCommand cmd parentPath)) with (parseArguments cmd).
  rewrite Hargs, appendFlag_loop. simpl.
  rewrite appendFlag_loop. simpl. rewrite appendArgument_loop. simpl.
  split_and!; [reflexivity|reflexivity|]. simpl. by rewrite <- app_assoc.
Qed.

Lemma Lookup_Some (pfs : list Flag) name pflag :
  Lookup pfs name = Some pflag -> pflag ∈ pfs /\ fl_Name pflag = name.
Proof.
  unfold Lookup. intros H. apply find_some in H as [Hin Heq].
  split; [by apply list_elem_of_In|].
  unfold Strings.eqb in Heq. by apply bool_decide_eq_true in Heq.
Qed.

Lemma unique_by_name (fs : list Flag) f g :
  NoDup (flagNames fs) -> f ∈ fs -> g ∈ fs -> fl_Name f = fl_Name g -> f = g.
Proof.
  unfold flagNames. induction fs as [|h fs IH]; intros Hnd Hf Hg Hname.
  - by apply elem_of_nil in Hf.
  - simpl in Hnd. apply NoDup_cons in Hnd as [Hh Hnd].
    apply elem_of_cons in Hf as [->|Hf]; apply elem_of_cons in Hg as [->|Hg].
    + reflexivity.
    + exfalso. apply Hh. rewrite Hname. apply list_elem_of_In, in_map.
      by apply list_elem_of_In.
    + exfalso. apply Hh. rewrite <- Hname. apply list_elem_of_In, in_map.
      by apply list_elem_of_In.
    + by apply IH.
Qed.

Lemma flagParameters_app name (l1 l2 : list Parameter_) :
  flagParameters name (l1 ++ l2) = flagParameters name l1 ++ flagParameters name l2.
Proof. apply filter_app. Qed.

Lemma flagParameters_arguments name (args : list ArgumentInfo) :
  flagParameters name (convertArgument <$> args) = [].
Proof.
  apply filter_none, Forall_fmap, Forall_forall. intros arg _ [Hin _]. discriminate.
Qed.

Lemma flagParameters_flags name scope (flags : list FlagInfo) :
  flagParameters name ((fun flag => convertFlag flag scope) <$> flags)
  = (fun flag => convertFlag flag scope) <$> filter (fun flag => fi_Name flag = name) flags.
Proof.
  unfold flagParameters. induction flags as [|flag flags IH]; [reflexivity|].
  rewrite fmap_cons, !filter_cons, IH. simpl.
  destruct (decide (fi_Name flag = name)) as [Heq|Hne].
  - by rewrite decide_True.
  - rewrite decide_False; [done|]. by intros [_ ?].
Qed.

(** In a flag set, the visible parsed flags of a given name: the one flag of
    that name, if it is to be shown. *)
Lemma persistent_of_name options (pfs : list Flag) name pflag :
  NoDup (flagNames pfs) ->
  Lookup pfs name = Some pflag ->
  filter (fun flag => fi_Name flag = name)
    (filter (fun flag => IncludeHidden options || negb (fi_Hidden flag) = true)
       ((fun flag => parseFlag flag true) <$> pfs))
  = if IncludeHidden options || negb (fl_Hidden pflag)
    then [parseFlag pflag true] else [].
Proof.
  intros Hnd Hlook.
  assert (Hnone : forall l : list Flag,
             name ∉ flagNames l ->
             filter (fun flag => fi_Name flag = name)
               (filter (fun flag => IncludeHidden options || negb (fi_Hidden flag) = true)
                  ((fun flag => parseFlag flag true) <$> l)) = []).
  { intros l Hl. apply filter_none, Forall_forall. intros fi Hfi Hname.
    apply list_elem_of_filter in Hfi as [_ Hfi].
    apply list_elem_of_fmap in Hfi as (flag & -> & Hflag).
    apply Hl. unfold flagNames. apply list_elem_of_In, in_map_iff.
    exists flag. split; [exact Hname|by apply list_elem_of_In]. }
  revert Hnd Hlook. unfold Lookup, flagNames.
  induction pfs as [|h pfs IH]; intros Hnd Hlook; [discriminate|].
  simpl in Hnd. apply NoDup_cons in Hnd as [Hh Hnd].
  simpl in Hlook. rewrite fmap_cons, filter_cons.
  unfold Strings.eqb in Hlook. case_bool_decide as Hname.
  - injection Hlook as <-. rewrite <- Hname in *.
    change (fi_Hidden (parseFlag h true)) with (fl_Hidden h).
    destruct (IncludeHidden options || negb (fl_Hidden h)); simpl.
    + rewrite filter_cons, decide_True by done. f_equal. by apply Hnone.
    + by apply Hnone.
  - change (fi_Hidden (parseFlag h true)) with (fl_Hidden h).
    destruct (decide (IncludeHidden options || negb (fl_Hidden h) = true)).
    + rewrite filter_cons, decide_False by done. by apply IH.
    + by apply IH.
Qed.

(** Claim C1, as the code has it. In a node, take a flag that stands in both
    the local and the persistent flag set and that is not marked as changed.
    The node records no local flag of that name, and records the persistent
    one; and the converted command holds, for that name, exactly one
    parameter, of scope [inherited], when the persistent flag is not hidden
    or hidden items are included, and none otherwise. *)
Theorem C1_unchanged_flag_of_both_sets_is_persistent_only :
  forall (cmd : cobra.Command) (parentPath : string) (fs pfs : list Flag)
         (flag pflag : Flag) (options : ConvertOptions),
    cmd_Flags cmd = Some fs ->
    cmd_PersistentFlags cmd = Some pfs ->
    NoDup (flagNames fs) ->
    NoDup (flagNames pfs) ->
    flag ∈ fs ->
    Lookup pfs (fl_Name flag) = Some pflag ->
    fl_Changed flag = false ->
    (forall fi, Some fi ∈ ci_Flags (parseCommand cmd parentPath) ->
                fi_Name fi <> fl_Name flag) /\
    Some (parseFlag pflag true) ∈ ci_PersistentFlags (parseCommand cmd parentPath) /\
    exists command,
      convertCommand (parseCommand cmd parentPath) options = Ok command /\
      flagParameters (fl_Name flag) (cm_Parameters command)
      = (if IncludeHidden options || negb (fl_Hidden pflag)
         then [convertFlag (parseFlag pflag true) "inherited"] else []) /\
      pa_Scope (convertFlag (parseFlag pflag true) "inherited") = "inherited".
Proof.
  intros cmd parentPath fs pfs flag pflag options Hfs Hpfs Hnd Hpnd Hflag Hlook Hunchanged.
  assert (Hshadow : shadowed cmd flag = true).
  { unfold shadowed. rewrite Hunchanged, Hpfs, Hlook. reflexivity. }
  assert (Hlocal : forall fi,
             fi ∈ (fun f => parseFlag f false)
                  <$> filter (fun f => shadowed cmd f = false) fs ->
             fi_Name fi <> fl_Name flag).
  { intros fi Hfi Hname. apply list_elem_of_fmap in Hfi as (f & -> & Hf).
    apply list_elem_of_filter in Hf as [Hkept Hf].
    assert (f = flag) as -> by (apply (unique_by_name fs); [done|done|done|exact Hname]).
    congruence. }
  split_and!.
  - intros fi Hfi. apply Hlocal. simpl in Hfi. rewrite Hfs, visitLocalFlag_loop in Hfi.
    simpl in Hfi. apply list_elem_of_fmap in Hfi as (f & Heq & Hf).
    apply list_elem_of_fmap. exists f. split; [congruence|done].
  - simpl. rewrite Hpfs, visitPersistentFlag_loop. simpl.
    apply list_elem_of_fmap. exists pflag. split; [done|].
    by apply Lookup_Some in Hlook as [? _].
  - destruct (convertCommand_parseCommand cmd parentPath options)
      as (command & args & Hconv & _ & Hparams).
    exists command. split_and!; [exact Hconv| |reflexivity].
    rewrite Hparams, Hfs, Hpfs. simpl.
    rewrite !flagParameters_app, !flagParameters_flags, flagParameters_arguments.
    rewrite app_nil_r.
    rewrite (persistent_of_name options pfs (fl_Name flag) pflag Hpnd Hlook).
    rewrite filter_none.
    + simpl. by destruct (IncludeHidden options || negb (fl_Hidden pflag)).
    + apply Forall_forall. intros fi Hfi Hname.
      apply list_elem_of_filter in Hfi as [_ Hfi]. by apply (Hlocal fi).
Qed.

(** The rule at work on [config], declared in both flag sets of [app]. *)
Lemma C1_shared_flag_witness :
  exists command,
    convertCommand (parseCommand sharedFlagCommand "") DefaultConvertOptions = Ok command /\
    pa_Scope <$> flagParameters "config" (cm_Parameters command) = ["inherited"].
Proof.
  destruct (C1_unchanged_flag_of_both_sets_is_persistent_only
              sharedFlagCommand ""
              [plainFlag "config" false false] [plainFlag "config" false false]
              (plainFlag "config" false false) (plainFlag "config" false false)
              DefaultConvertOptions)
    as (_ & _ & command & Hconv & Hparams & _).
  - reflexivity.
  - reflexivity.
  - apply NoDup_singleton.
  - apply NoDup_singleton.
  - constructor.
  - reflexivity.
  - reflexivity.
  - exists command. split; [exact Hconv|].
    change (plainFlag "config" false false).(fl_Name) with "config" in Hparams.
    rewrite Hparams. reflexivity.
Defined.

(** Claim C1, as it is worded, fails in two ways. A flag of both sets that is
    marked as changed is recorded as a local flag too, and is converted
    twice, once with scope [local]; and a hidden flag of both sets is, under
    the default options, not converted at all. *)
Lemma C1_counterexample_changed_flag_and_hidden_flag :
  (Some (parseFlag (plainFlag "verbose" true false) false)
     ∈ ci_Flags (parseCommand changedFlagCommand "") /\
   exists command,
     convertCommand (parseCommand changedFlagCommand "") DefaultConvertOptions = Ok command /\
     pa_Scope <$> flagParameters "verbose" (cm_Parameters command) = ["local"; "inherited"]) /\
  (exists command,
     convertCommand (parseCommand hiddenFlagCommand "") DefaultConvertOptions = Ok command /\
     flagParameters "token" (cm_Parameters command) = []).
Proof.
  split_and!.
  - vm_compute. constructor.
  - eexists. split; [reflexivity|]. vm_compute. reflexivity.
  - eexists. split; [reflexivity|]. vm_compute. reflexivity.
Qed.


(** ** The converter on a model without [nil] *)

Lemma noNil_fmap {A} (l : list (option A)) :
  noNil l = true -> exists l', l = Some <$> l'.
Proof.
  induction l as [|p l IH]; intros H; [by exists []|].
  simpl in H. apply andb_prop in H as [Hp Hl].
  apply bool_decide_eq_true in Hp as [a ->].
  destruct (IH Hl) as [l' ->]. by exists (a :: l').
Qed.

Lemma convertCommand_valid cmdInfo options :
  commandValid (Some cmdInfo) = true ->
  exists command, convertCommand cmdInfo options = Ok command.
Proof.
  simpl. intros H. apply andb_prop in H as [H Hargs]. apply andb_prop in H as [Hflags Hpers].
  apply noNil_fmap in Hflags as [flags Hflags].
  apply noNil_fmap in Hpers as [pers Hpers].
  apply noNil_fmap in Hargs as [args Hargs].
  unfold convertCommand. rewrite Hflags, Hpers, Hargs.
  rewrite appendFlag_loop. cbn [bindRes]. rewrite appendFlag_loop. cbn [bindRes].
  rewrite appendArgument_loop. cbn [bindRes]. by eexists.
Qed.

(** The command loop of [Convert]: it ends without panic on valid
    references; every entry it leaves was there before or is the conversion
    of a command that was not skipped, under that command's key; and every
    command that was not skipped has its key in the result. *)
Lemma convertEntry_loop options (entries : list (string * option CommandInfo)) :
  Forall (fun entry => commandValid (snd entry) = true) entries ->
  forall commands0 : gmap string spec.Command,
    exists commands,
      foldRes (convertEntry options) entries commands0 = Ok commands /\
      (forall key command, commands !! key = Some command ->
         commands0 !! key = Some command \/
         exists path cmdInfo,
           (path, Some cmdInfo) ∈ entries /\ skipped options cmdInfo = false /\
           outputKey path cmdInfo = key /\ convertCommand cmdInfo options = Ok command) /\
      (forall key, is_Some (commands0 !! key) -> is_Some (commands !! key)) /\
      (forall path cmdInfo,
         (path, Some cmdInfo) ∈ entries -> skipped options cmdInfo = false ->
         is_Some (commands !! outputKey path cmdInfo)).
Proof.
  induction 1 as [|[path p] entries Hvalid _ IH]; intros commands0.
  - exists commands0. split_and!; [reflexivity|by left|done|].
    intros ?? Hin. by apply elem_of_nil in Hin.
  - simpl in Hvalid. destruct p as [cmdInfo|]; [|discriminate].
    cbn [foldRes convertEntry deref bindRes].
    destruct (skipped options cmdInfo) eqn:Hskip.
    + cbn [bindRes]. destruct (IH commands0) as (commands & Hloop & Hfrom & Hkeep & Hin).
      exists commands. split_and!; [exact Hloop| |exact Hkeep|].
      * intros key command Hkey.
        destruct (Hfrom key command Hkey) as [?|(path' & ci' & Hi & ?)]; [by left|].
        right. exists path', ci'. split; [by right|done].
      * intros path' ci' Hi Hs. apply elem_of_cons in Hi as [Heq|Hi]; [|by apply Hin].
        injection Heq as -> ->. congruence.
    + destruct (convertCommand_valid cmdInfo options Hvalid) as [command Hcommand].
      rewrite Hcommand. cbn [bindRes].
      destruct (IH (<[outputKey path cmdInfo := command]> commands0))
        as (commands & Hloop & Hfrom & Hkeep & Hin).
      exists commands. split_and!; [exact Hloop| | |].
      * intros key command' Hkey.
        destruct (Hfrom key command' Hkey) as [Hold|(path' & ci' & Hi & ?)].
        -- destruct (decide (outputKey path cmdInfo = key)) as [Heq|Hne].
           ++ rewrite <- Heq, lookup_insert_eq in Hold. injection Hold as <-.
              right. exists path, cmdInfo. split; [by left|done].
           ++ rewrite lookup_insert_ne in Hold by done. by left.
        -- right. exists path', ci'. split; [by right|done].
      * intros key Hkey. apply Hkeep.
        destruct (decide (outputKey path cmdInfo = key)) as [<-|Hne].
        -- rewrite lookup_insert_eq. by eexists.
        -- by rewrite lookup_insert_ne.
      * intros path' ci' Hi Hs. apply elem_of_cons in Hi as [Heq|Hi]; [|by apply Hin].
        injection Heq as -> ->. apply Hkeep. rewrite lookup_insert_eq. by eexists.
Qed.

(** What a [range] over a map visits. *)
Lemma enumerates_elem (rng : RangeOrder) {A} (m : gmap string A) key (a : A) :
  enumerates rng -> (key, a) ∈ rng A m <-> m !! key = Some a.
Proof. intros Hrng. rewrite (Hrng A m). apply elem_of_map_to_list. Qed.

Lemma range_valid (rng : RangeOrder) parsed :
  enumerates rng -> ReferencesValid parsed ->
  Forall (fun entry => commandValid (snd entry) = true) (rng _ (Commands parsed)).
Proof.
  intros Hrng [_ Hall]. apply Forall_forall. intros [path p] Hin.
  apply (enumerates_elem rng) in Hin; [|done]. by apply (Hall path p).
Qed.


(** ** Component extraction *)

Lemma occurrences_nonneg name flags : 0 <= occurrences name flags.
Proof. unfold occurrences. lia. Qed.

Lemma occurrences_app name flags1 flags2 :
  occurrences name (flags1 ++ flags2) = occurrences name flags1 + occurrences name flags2.
Proof. unfold occurrences. rewrite filter_app, length_app. lia. Qed.

Lemma occurrences_one name flag :
  occurrences name [flag] = if bool_decide (fi_Name flag = name) then 1 else 0.
Proof.
  unfold occurrences. rewrite filter_cons.
  case_bool_decide; [by rewrite decide_True|by rewrite decide_False].
Qed.

Lemma Counted_start : Counted (∅, ∅) [].
Proof.
  split_and!; simpl.
  - intros name. by rewrite lookup_empty.
  - intros name H. unfold occurrences in H. simpl in H. lia.
  - intros name flag H. by rewrite lookup_empty in H.
Qed.

Lemma countFlag_step tables seen flag :
  Counted tables seen ->
  exists tables', countFlag tables (Some flag) = Ok tables' /\ Counted tables' (seen ++ [flag]).
Proof.
  destruct tables as [paramCounts paramMap]. intros (Hcounts & Hmap & Hnames).
  simpl in Hcounts, Hmap, Hnames.
  eexists. split; [reflexivity|].
  assert (Hhere : default 0 (paramCounts !! fi_Name flag) = occurrences (fi_Name flag) seen).
  { rewrite Hcounts. pose proof (occurrences_nonneg (fi_Name flag) seen).
    case_bool_decide; simpl; lia. }
  split_and!; simpl.
  - intros name. rewrite occurrences_app, occurrences_one.
    destruct (decide (fi_Name flag = name)) as [<-|Hne].
    + rewrite lookup_insert_eq, Hhere, (bool_decide_eq_true_2 (fi_Name flag = fi_Name flag)) by done.
      pose proof (occurrences_nonneg (fi_Name flag) seen).
      rewrite bool_decide_eq_true_2 by lia. reflexivity.
    + rewrite lookup_insert_ne, Hcounts by done.
      rewrite (bool_decide_eq_false_2 (fi_Name flag = name)) by done.
      by rewrite Z.add_0_r.
  - intros name. rewrite occurrences_app, occurrences_one. intros Hpos.
    destruct (decide (fi_Name flag = name)) as [<-|Hne].
    + rewrite Hhere. destruct (occurrences (fi_Name flag) seen + 1 =? 1) eqn:Hone.
      * rewrite lookup_insert_eq. by eexists.
      * apply Hmap. pose proof (occurrences_nonneg (fi_Name flag) seen). lia.
    + rewrite (bool_decide_eq_false_2 (fi_Name flag = name)) in Hpos by done.
      destruct (_ =? 1); [rewrite lookup_insert_ne by done|]; apply Hmap; lia.
  - intros name flag'. destruct (_ =? 1); [|apply Hnames].
    destruct (decide (fi_Name flag = name)) as [<-|Hne].
    + rewrite lookup_insert_eq. by intros [= <-].
    + rewrite lookup_insert_ne by done. apply Hnames.
Qed.

Lemma countFlag_loop (flags : list FlagInfo) :
  forall tables seen,
    Counted tables seen ->
    exists tables',
      foldRes countFlag (Some <$> flags) tables = Ok tables' /\
      Counted tables' (seen ++ flags).
Proof.
  induction flags as [|flag flags IH]; intros tables seen Hcounted.
  - exists tables. split; [reflexivity|by rewrite app_nil_r].
  - destruct (countFlag_step tables seen flag Hcounted) as (tables1 & Hstep & Hcounted1).
    destruct (IH tables1 (seen ++ [flag]) Hcounted1) as (tables' & Hloop & Hcounted').
    exists tables'. rewrite fmap_cons. cbn [foldRes]. rewrite Hstep. cbn [bindRes].
    split; [exact Hloop|]. by rewrite <- app_assoc in Hcounted'.
Qed.

Lemma omap_id_Some {A} (l : list A) : omap id (Some <$> l) = l.
Proof.
  induction l as [|a l IH]; [reflexivity|].
  rewrite fmap_cons. change (a :: omap id (Some <$> l) = a :: l). by rewrite IH.
Qed.

Lemma countCommand_loop (entries : list (string * option CommandInfo)) :
  Forall (fun entry => commandValid (snd entry) = true) entries ->
  forall tables seen,
    Counted tables seen ->
    exists tables',
      foldRes countCommand entries tables = Ok tables' /\
      Counted tables' (seen ++ flat_map (fun entry => localFlagsOf (snd entry)) entries).
Proof.
  induction 1 as [|[path p] entries Hvalid _ IH]; intros tables seen Hcounted.
  - exists tables. split; [reflexivity|]. simpl. by rewrite app_nil_r.
  - simpl in Hvalid. destruct p as [cmdInfo|]; [|discriminate].
    apply andb_prop in Hvalid as [Hvalid _]. apply andb_prop in Hvalid as [Hflags _].
    apply noNil_fmap in Hflags as [flags Hflags].
    destruct (countFlag_loop flags tables seen Hcounted) as (tables1 & Hstep & Hcounted1).
    destruct (IH tables1 (seen ++ flags) Hcounted1) as (tables' & Hloop & Hcounted').
    exists tables'. cbn [foldRes]. unfold countCommand at 1. cbn [snd deref bindRes].
    rewrite Hflags, Hstep. cbn [bindRes]. split; [exact Hloop|].
    cbn [flat_map localFlagsOf snd]. rewrite Hflags, omap_id_Some.
    by rewrite <- app_assoc in Hcounted'.
Qed.

Lemma liftParameter_loop (paramMap : gmap string FlagInfo) (counts : list (string * Z)) :
  (forall name count, (name, count) ∈ counts -> 1 < count -> is_Some (paramMap !! name)) ->
  forall parameters0 : gmap string Parameter_,
    exists parameters,
      foldRes (liftParameter paramMap) counts parameters0 = Ok parameters /\
      (forall name,
         is_Some (parameters !! name) <->
         is_Some (parameters0 !! name) \/ exists count, (name, count) ∈ counts /\ 1 < count) /\
      (forall name parameter,
         parameters !! name = Some parameter ->
         parameters0 !! name = Some parameter \/
         exists flag, paramMap !! name = Some flag /\ parameter = convertFlag flag "local").
Proof.
  induction counts as [|[name0 count0] counts IH]; intros Hmap parameters0.
  - exists parameters0. split_and!; [reflexivity| |by left].
    intros name. split; [by left|]. intros [?|(count & Hin & _)]; [done|].
    by apply elem_of_nil in Hin.
  - assert (Hmap' : forall name count,
               (name, count) ∈ counts -> 1 < count -> is_Some (paramMap !! name)).
    { intros name count Hin. apply Hmap. by right. }
    cbn [foldRes]. unfold liftParameter at 1.
    destruct (1 <? count0) eqn:Hcount.
    + apply Z.ltb_lt in Hcount.
      destruct (Hmap name0 count0) as [flag Hflag]; [by left|done|].
      rewrite Hflag. cbn [deref bindRes].
      destruct (IH Hmap' (<[name0 := convertFlag flag "local"]> parameters0))
        as (parameters & Hloop & Hdom & Hval).
      exists parameters. split_and!; [exact Hloop| |].
      * intros name. rewrite Hdom. split.
        -- intros [Hins|(count & Hin & Hc)].
           ++ destruct (decide (name0 = name)) as [<-|Hne].
              ** right. exists count0. split; [by left|done].
              ** rewrite lookup_insert_ne in Hins by done. by left.
           ++ right. exists count. split; [by right|done].
        -- intros [Hold|(count & Hin & Hc)].
           ++ left. destruct (decide (name0 = name)) as [<-|Hne].
              ** rewrite lookup_insert_eq. by eexists.
              ** by rewrite lookup_insert_ne.
           ++ apply elem_of_cons in Hin as [Heq|Hin].
              ** injection Heq as -> ->. left. rewrite lookup_insert_eq. by eexists.
              ** right. by exists count.
      * intros name parameter Hp.
        destruct (Hval name parameter Hp) as [Hold|?]; [|by right].
        destruct (decide (name0 = name)) as [<-|Hne].
        -- rewrite lookup_insert_eq in Hold. injection Hold as <-. right. by exists flag.
        -- rewrite lookup_insert_ne in Hold by done. by left.
    + apply Z.ltb_ge in Hcount. cbn [bindRes].
      destruct (IH Hmap' parameters0) as (parameters & Hloop & Hdom & Hval).
      exists parameters. split_and!; [exact Hloop| |exact Hval].
      intros name. rewrite Hdom. split.
      * intros [?|(count & Hin & Hc)]; [by left|].
        right. exists count. split; [by right|done].
      * intros [?|(count & Hin & Hc)]; [by left|].
        apply elem_of_cons in Hin as [Heq|Hin].
        -- injection Heq as -> ->. lia.
        -- right. by exists count.
Qed.


Lemma occurrences_perm name (flags1 flags2 : list FlagInfo) :
  flags1 ≡ₚ flags2 -> occurrences name flags1 = occurrences name flags2.
Proof. intros Hperm. unfold occurrences. by rewrite Hperm. Qed.

(** [extractComponents] on a model without [nil]: it lifts exactly the names
    that occur more than once among all local flags, each under its own
    name, and always gives the two fixed responses. *)
Lemma extractComponents_spec (rng : RangeOrder) parsed options :
  enumerates rng -> ReferencesValid parsed ->
  exists components,
    extractComponents rng parsed options = Ok components /\
    (forall name,
       is_Some (cp_Parameters components !! name) <->
       1 < occurrences name (allLocalFlags parsed)) /\
    (forall name parameter,
       cp_Parameters components !! name = Some parameter ->
       pa_Name parameter = name /\ pa_In parameter = "flag") /\
    cp_Responses components = commonResponses.
Proof.
  intros Hrng Hvalid.
  destruct (countCommand_loop _ (range_valid rng parsed Hrng Hvalid) (∅, ∅) [] Counted_start)
    as ([paramCounts paramMap] & Hcount & Hcounts & Hmap & Hnames).
  simpl in Hcounts, Hmap, Hnames.
  assert (Hocc : forall name,
             occurrences name
               (flat_map (fun entry => localFlagsOf (snd entry)) (rng _ (Commands parsed)))
             = occurrences name (allLocalFlags parsed)).
  { intros name. apply occurrences_perm. unfold allLocalFlags.
    apply Permutation_flat_map, Hrng. }
  assert (Hentry : forall name count,
             (name, count) ∈ rng _ paramCounts <->
             count = occurrences name (allLocalFlags parsed) /\ 0 < count).
  { intros name count. rewrite (enumerates_elem rng) by done.
    rewrite Hcounts, Hocc. case_bool_decide; split.
    - intros [= <-]. done.
    - intros [-> _]. done.
    - discriminate.
    - intros [-> ?]. done. }
  destruct (liftParameter_loop paramMap (rng _ paramCounts)) with (parameters0 := (∅ : gmap string Parameter_))
    as (parameters & Hlift & Hdom & Hval).
  { intros name count Hin Hc. apply Hentry in Hin as [-> Hpos].
    apply Hmap. by rewrite Hocc. }
  eexists. unfold extractComponents. rewrite Hcount. cbn [bindRes fst snd].
  rewrite Hlift. cbn [bindRes]. split_and!; [reflexivity| | |reflexivity].
  - intros name. simpl. rewrite Hdom, lookup_empty. split.
    + intros [[? ?]|(count & Hin & Hc)]; [done|]. apply Hentry in Hin as [-> _]. done.
    + intros Hc. right. eexists. split; [|exact Hc]. apply Hentry. split; [done|lia].
  - intros name parameter Hp. simpl in Hp.
    destruct (Hval name parameter Hp) as [Hold|(flag & Hflag & ->)].
    + by rewrite lookup_empty in Hold.
    + simpl. split; [by apply Hnames|done].
Qed.

(** When no command lists a name twice, the occurrences of a name are the
    commands that declare it. *)
Lemma occurrences_are_commands name parsed :
  map_Forall (fun _ p => NoDup (fi_Name <$> localFlagsOf p)) (Commands parsed) ->
  occurrences name (allLocalFlags parsed)
  = Z.of_nat (length (commandsDeclaring name parsed)).
Proof.
  intros Hall. unfold allLocalFlags, commandsDeclaring.
  assert (Hentries : Forall (fun entry => NoDup (fi_Name <$> localFlagsOf (snd entry)))
                            (map_to_list (Commands parsed))).
  { apply Forall_forall. intros [path p] Hin. apply elem_of_map_to_list in Hin.
    by apply (Hall path p). }
  assert (Hone : forall flags : list FlagInfo,
             NoDup (fi_Name <$> flags) ->
             occurrences name flags = if decide (name ∈ fi_Name <$> flags) then 1 else 0).
  { clear. induction flags as [|flag flags IH]; intros Hnd.
    - rewrite decide_False by apply not_elem_of_nil. reflexivity.
    - rewrite fmap_cons in Hnd |- *. apply NoDup_cons in Hnd as [Hfresh Hnd].
      change (flag :: flags) with ([flag] ++ flags).
      rewrite occurrences_app, occurrences_one, (IH Hnd).
      case_bool_decide as Hname.
      + rewrite decide_False by congruence. rewrite decide_True; [done|].
        rewrite Hname. by left.
      + destruct (decide (name ∈ fi_Name <$> flags)).
        * rewrite decide_True; [done|]. by right.
        * rewrite decide_False; [done|]. intros Hin.
          apply elem_of_cons in Hin as [?|?]; congruence. }
  induction Hentries as [|entry entries Hnd _ IH]; [reflexivity|].
  cbn [flat_map]. rewrite occurrences_app, IH, (Hone _ Hnd), filter_cons.
  destruct (decide (name ∈ fi_Name <$> localFlagsOf entry.2)); simpl; lia.
Qed.

(** ** [Convert] *)

(** The key of the command loop, by cases. *)
Lemma outputKey_cases path cmdInfo :
  (path = ci_Name cmdInfo /\ outputKey path cmdInfo = ci_Name cmdInfo) \/
  (path <> ci_Name cmdInfo /\ Strings.HasPrefix path "/" = true /\
   outputKey path cmdInfo = path) \/
  (path <> ci_Name cmdInfo /\ Strings.HasPrefix path "/" = false /\
   outputKey path cmdInfo = "/" +:+ path).
Proof.
  unfold outputKey, Strings.eqb.
  destruct (decide (path = ci_Name cmdInfo)) as [Heq|Hne].
  - left. by rewrite (bool_decide_eq_true_2 _ Heq).
  - right. rewrite (bool_decide_eq_false_2 _ Hne).
    destruct (Strings.HasPrefix path "/"); [left|right]; done.
Qed.

(** [Convert] on a model without [nil]: it returns a document; the commands
    of the document are conversions of commands that were not skipped, each
    under its key; each command that was not skipped has its key there; and
    the components are those of [extractComponents], when asked for. *)
Lemma Convert_spec (rng : RangeOrder) parsed options :
  enumerates rng -> ReferencesValid parsed ->
  let options' := default DefaultConvertOptions options in
  exists out,
    Convert rng (Some parsed) options = Ok out /\
    os_OpenCLI out = SpecVersion options' /\
    (forall key command, os_Commands out !! key = Some command ->
       exists path cmdInfo,
         Commands parsed !! path = Some (Some cmdInfo) /\
         skipped options' cmdInfo = false /\
         outputKey path cmdInfo = key /\
         convertCommand cmdInfo options' = Ok command) /\
    (forall path cmdInfo,
       Commands parsed !! path = Some (Some cmdInfo) ->
       skipped options' cmdInfo = false ->
       is_Some (os_Commands out !! outputKey path cmdInfo)) /\
    (ExtractComponents options' = false -> os_Components out = None) /\
    (ExtractComponents options' = true ->
       exists components,
         extractComponents rng parsed options' = Ok components /\
         os_Components out = Some components).
Proof.
  intros Hrng Hvalid options'.
  destruct (convertEntry_loop options' _ (range_valid rng parsed Hrng Hvalid) ∅)
    as (commands & Hloop & Hfrom & _ & Hin).
  destruct (extractComponents_spec rng parsed options' Hrng Hvalid)
    as (components & Hcomponents & _).
  destruct Hvalid as [[md Hmd] _].
  assert (Hinfo : exists info, convertInfo (Metadata parsed) options' = Ok info).
  { unfold convertInfo. rewrite Hmd. destruct (CustomInfo options'); by eexists. }
  destruct Hinfo as [info Hinfo].
  assert (Hout : exists out,
             Convert rng (Some parsed) options = Ok out /\
             os_OpenCLI out = SpecVersion options' /\
             os_Commands out = commands /\
             os_Components out
             = if ExtractComponents options' then Some components else None).
  { unfold Convert. fold options'. rewrite Hinfo, Hmd. cbn [bindRes deref].
    rewrite Hloop. cbn [bindRes]. rewrite Hcomponents.
    destruct (ExtractComponents options'); cbn [bindRes]; eexists; by split_and!. }
  destruct Hout as (out & Hconvert & Hversion & Hcommands & Hcomps).
  exists out. rewrite Hcommands, Hcomps. split_and!; [done|done| | | |].
  - intros key command Hkey.
    destruct (Hfrom key command Hkey) as [Hold|(path & cmdInfo & Hi & ?)].
    + by rewrite lookup_empty in Hold.
    + exists path, cmdInfo. split; [|done]. by apply (enumerates_elem rng) in Hi.
  - intros path cmdInfo Hpath Hskip. apply Hin; [|done]. by apply (enumerates_elem rng).
  - by intros ->.
  - intros ->. by exists components.
Qed.

(** None of the converter's functions returns an error on a model that is
    there: they return a value or panic. *)
Lemma NoErr_bind {A B} (r : Res A) (k : A -> Res B) :
  NoErr r -> (forall a, NoErr (k a)) -> NoErr (bindRes r k).
Proof. destruct r; simpl; [by intros _ H|done|done]. Qed.

Lemma NoErr_foldRes {A S} (f : S -> A -> Res S) (l : list A) :
  (forall s x, NoErr (f s x)) -> forall s, NoErr (foldRes f l s).
Proof.
  intros Hf. induction l as [|x l IH]; intros s; simpl; [done|].
  apply NoErr_bind; [apply Hf|apply IH].
Qed.

Lemma NoErr_deref {A} (p : option A) : NoErr (deref p).
Proof. by destruct p. Qed.

Ltac no_err :=
  repeat first
    [ apply NoErr_bind; [|intros ?]
    | apply NoErr_foldRes; intros ? ?
    | apply NoErr_deref
    | exact I
    | match goal with
      | |- NoErr (if ?b then _ else _) => destruct b
      | |- NoErr (let '(_, _) := ?p in _) => destruct p
      | |- NoErr (match ?p with Some _ => _ | None => _ end) => destruct p
      end ].

Lemma NoErr_convertCommand cmdInfo options : NoErr (convertCommand cmdInfo options).
Proof. unfold convertCommand, appendFlag, appendArgument. no_err. Qed.

Lemma NoErr_Convert (rng : RangeOrder) parsed options :
  NoErr (Convert rng (Some parsed) options).
Proof.
  unfold Convert, convertInfo, extractComponents.
  apply NoErr_bind; [no_err|intros info].
  apply NoErr_bind; [no_err|intros md].
  apply NoErr_bind.
  { apply NoErr_foldRes. intros commands [path p]. unfold convertEntry.
    apply NoErr_bind; [no_err|intros cmdInfo].
    destruct (skipped _ cmdInfo); [exact I|].
    apply NoErr_bind; [apply NoErr_convertCommand|intros command; exact I]. }
  intros commands. apply NoErr_bind; [|intros; exact I].
  destruct (ExtractComponents _); [|exact I].
  apply NoErr_bind; [|intros; exact I].
  apply NoErr_bind.
  { apply NoErr_foldRes. intros tables entry. unfold countCommand.
    apply NoErr_bind; [no_err|intros cmdInfo].
    apply NoErr_foldRes. intros [paramCounts paramMap] flag. unfold countFlag. no_err. }
  intros tables. apply NoErr_bind; [|intros; exact I].
  apply NoErr_foldRes. intros parameters [name count]. unfold liftParameter. no_err.
Qed.


Lemma canonicalOrder_enumerates : enumerates canonicalOrder.
Proof. intros A m. reflexivity. Qed.

(** Claim C3, as the code has it. [Convert] returns an error exactly when
    the model is [nil], and the error is then the plain error "parsed CLI is
    nil"; on a model that is there it never returns an error; and on a model
    that holds no [nil] inside (metadata, commands, flags, arguments) it
    returns a document, whatever the options. *)
Theorem C3_convert_errs_only_on_nil_and_succeeds_without_nil_inside :
  forall (rng : RangeOrder) (parsed : option ParsedCLI) (options : option ConvertOptions),
    enumerates rng ->
    (forall e, Convert rng parsed options = Err e <->
               parsed = None /\ e = errorString "parsed CLI is nil") /\
    (forall p, parsed = Some p -> ReferencesValid p ->
               exists out, Convert rng parsed options = Ok out).
Proof.
  intros rng parsed options Hrng. split.
  - intros e. destruct parsed as [p|].
    + pose proof (NoErr_Convert rng p options) as Hno. split.
      * intros H. rewrite H in Hno. destruct Hno.
      * intros [? _]. discriminate.
    + simpl. split; [intros [= <-]; done|intros [_ ->]; done].
  - intros p -> Hvalid.
    destruct (Convert_spec rng p options Hrng Hvalid) as (out & Hout & _).
    by exists out.
Qed.

(** The model of the parser's test converts, with no options given. *)
Lemma C3_testapp_witness :
  exists out, Convert canonicalOrder (Some (parsedOf testappTree)) None = Ok out.
Proof.
  refine (proj2 (C3_convert_errs_only_on_nil_and_succeeds_without_nil_inside
                   canonicalOrder (Some (parsedOf testappTree)) None _)
                (parsedOf testappTree) _ _).
  - intros A m. reflexivity.
  - reflexivity.
  - split; [by eexists|]. apply map_Forall_to_list. vm_compute. repeat constructor.
Defined.

(** Claim C3, as it is worded, fails on a model that is there but has no
    metadata: [Convert] dereferences the metadata and panics. *)
Lemma C3_counterexample_model_without_metadata :
  Convert canonicalOrder (Some bareCLI) None = Panic /\
  ~ exists out, Convert canonicalOrder (Some bareCLI) None = Ok out.
Proof.
  assert (H : Convert canonicalOrder (Some bareCLI) None = Panic) by reflexivity.
  split; [exact H|]. intros [out Hout]. rewrite H in Hout. discriminate.
Qed.

(** Claim C10, as the code has it. [Convert] with no options is [Convert]
    with the default options, on every model and in every outcome; the
    default options are version 1.0.0, hidden items left out, deprecated
    items kept, identifiers generated, responses inferred, components
    extracted. On a model that is there, [Convert] with no options never
    returns an error; it returns the document, under version 1.0.0 and with
    its components, when the model has no [nil] inside; and it panics when
    the model has no metadata. *)
Theorem C10_nil_options_are_the_default_options :
  forall (rng : RangeOrder) (parsed : option ParsedCLI),
    Convert rng parsed None = Convert rng parsed (Some DefaultConvertOptions) /\
    (SpecVersion DefaultConvertOptions = "1.0.0" /\
     IncludeHidden DefaultConvertOptions = false /\
     IncludeDeprecated DefaultConvertOptions = true /\
     GenerateOperationIDs DefaultConvertOptions = true /\
     InferResponses DefaultConvertOptions = true /\
     ExtractComponents DefaultConvertOptions = true) /\
    (forall p, parsed = Some p -> forall e, Convert rng parsed None <> Err e) /\
    (forall p, parsed = Some p -> Metadata p = None -> Convert rng parsed None = Panic) /\
    (forall p, enumerates rng -> parsed = Some p -> ReferencesValid p ->
       exists out,
         Convert rng parsed None = Ok out /\
         os_OpenCLI out = "1.0.0" /\
         is_Some (os_Components out)).
Proof.
  intros rng parsed. split_and!; try reflexivity.
  - intros p -> e He. pose proof (NoErr_Convert rng p None) as Hno.
    rewrite He in Hno. destruct Hno.
  - intros p -> Hmd. unfold Convert, convertInfo. by rewrite Hmd.
  - intros p Hrng -> Hvalid.
    destruct (Convert_spec rng p None Hrng Hvalid)
      as (out & Hout & Hversion & _ & _ & _ & Hcomponents).
    destruct (Hcomponents eq_refl) as (components & _ & Hsome).
    exists out. split_and!; [exact Hout|exact Hversion|]. rewrite Hsome. by eexists.
Qed.

(** The model of the parser's test converts, with no options given, to a
    document of version 1.0.0. *)
Lemma C10_testapp_witness :
  exists out,
    Convert canonicalOrder (Some (parsedOf testappTree)) None = Ok out /\
    os_OpenCLI out = "1.0.0" /\
    is_Some (os_Components out).
Proof.
  refine (proj2 (proj2 (proj2 (proj2 (C10_nil_options_are_the_default_options
                                        canonicalOrder (Some (parsedOf testappTree))))))
                (parsedOf testappTree) _ _ _).
  - intros A m. reflexivity.
  - reflexivity.
  - split; [by eexists|]. apply map_Forall_to_list. vm_compute. repeat constructor.
Defined.

(** Claim C10, as it is worded, fails on a model that is there but has no
    metadata: with no options given, [Convert] does not return; it panics,
    as it does with the default options. *)
Lemma C10_counterexample_model_without_metadata :
  Convert canonicalOrder (Some bareCLI) None = Panic /\
  Convert canonicalOrder (Some bareCLI) (Some DefaultConvertOptions) = Panic /\
  ~ exists out, Convert canonicalOrder (Some bareCLI) None = Ok out.
Proof.
  assert (H : Convert canonicalOrder (Some bareCLI) None = Panic) by reflexivity.
  split_and!; [exact H|reflexivity|]. intros [out Hout]. rewrite H in Hout. discriminate.
Qed.

(** The command loop of [Convert], from its result alone: whenever it ends
    without panic, every entry it leaves was there before or is the
    conversion of a command that was not skipped, under that command's key,
    and every command that was not skipped has its key in the result. *)
Lemma convertEntry_loop_result options (entries : list (string * option CommandInfo)) :
  forall commands0 commands : gmap string spec.Command,
    foldRes (convertEntry options) entries commands0 = Ok commands ->
    (forall key command, commands !! key = Some command ->
       commands0 !! key = Some command \/
       exists path cmdInfo,
         (path, Some cmdInfo) ∈ entries /\ skipped options cmdInfo = false /\
         outputKey path cmdInfo = key /\ convertCommand cmdInfo options = Ok command) /\
    (forall key, is_Some (commands0 !! key) -> is_Some (commands !! key)) /\
    (forall path cmdInfo,
       (path, Some cmdInfo) ∈ entries -> skipped options cmdInfo = false ->
       is_Some (commands !! outputKey path cmdInfo)).
Proof.
  induction entries as [|[path p] entries IH]; intros commands0 commands Hloop.
  - injection Hloop as <-. split_and!; [by left|done|].
    intros ?? Hin. by apply elem_of_nil in Hin.
  - cbn [foldRes convertEntry] in Hloop.
    destruct p as [cmdInfo|]; cbn [deref bindRes] in Hloop; [|discriminate].
    destruct (skipped options cmdInfo) eqn:Hskip.
    + cbn [bindRes] in Hloop. destruct (IH _ _ Hloop) as (Hfrom & Hkeep & Hin).
      split_and!; [|exact Hkeep|].
      * intros key command Hkey.
        destruct (Hfrom key command Hkey) as [?|(path' & ci' & Hi & ?)]; [by left|].
        right. exists path', ci'. split; [by right|done].
      * intros path' ci' Hi Hs. apply elem_of_cons in Hi as [Heq|Hi]; [|by apply Hin].
        injection Heq as -> ->. congruence.
    + destruct (convertCommand cmdInfo options) as [command|e|] eqn:Hcommand;
        cbn [bindRes] in Hloop; try discriminate.
      destruct (IH _ _ Hloop) as (Hfrom & Hkeep & Hin).
      split_and!.
      * intros key command' Hkey.
        destruct (Hfrom key command' Hkey) as [Hold|(path' & ci' & Hi & ?)].
        -- destruct (decide (outputKey path cmdInfo = key)) as [Heq|Hne].
           ++ rewrite <- Heq, lookup_insert_eq in Hold. injection Hold as <-.
              right. exists path, cmdInfo. split; [by left|done].
           ++ rewrite lookup_insert_ne in Hold by done. by left.
        -- right. exists path', ci'. split; [by right|done].
      * intros key Hkey. apply Hkeep.
        destruct (decide (outputKey path cmdInfo = key)) as [<-|Hne].
        -- rewrite lookup_insert_eq. by eexists.
        -- by rewrite lookup_insert_ne.
      * intros path' ci' Hi Hs. apply elem_of_cons in Hi as [Heq|Hi]; [|by apply Hin].
        injection Heq as -> ->. apply Hkeep. rewrite lookup_insert_eq. by eexists.
Qed.

(** The command map of any document that [Convert] returns. *)
Lemma Convert_commands (rng : RangeOrder) parsed options out :
  enumerates rng ->
  Convert rng (Some parsed) (Some options) = Ok out ->
  (forall key command, os_Commands out !! key = Some command ->
     exists path cmdInfo,
       Commands parsed !! path = Some (Some cmdInfo) /\
       skipped options cmdInfo = false /\
       outputKey path cmdInfo = key /\
       convertCommand cmdInfo options = Ok command) /\
  (forall path cmdInfo,
     Commands parsed !! path = Some (Some cmdInfo) ->
     skipped options cmdInfo = false ->
     is_Some (os_Commands out !! outputKey path cmdInfo)).
Proof.
  intros Hrng Hout. unfold Convert in Hout.
  change (default DefaultConvertOptions (Some options)) with options in Hout.
  destruct (convertInfo (Metadata parsed) options) as [info|e|];
    cbn [bindRes] in Hout; try discriminate.
  destruct (deref (Metadata parsed)) as [md|e|];
    cbn [bindRes] in Hout; try discriminate.
  destruct (foldRes (convertEntry options) (rng _ (Commands parsed)) ∅)
    as [commands|e|] eqn:Hloop; cbn [bindRes] in Hout; try discriminate.
  assert (Hcommands : os_Commands out = commands).
  { destruct (ExtractComponents options).
    - destruct (extractComponents rng parsed options) as [components|e|];
        cbn [bindRes] in Hout; try discriminate. by injection Hout as <-.
    - cbn [bindRes] in Hout. by injection Hout as <-. }
  rewrite Hcommands.
  destruct (convertEntry_loop_result _ _ _ _ Hloop) as (Hfrom & _ & Hin).
  split.
  - intros key command Hkey.
    destruct (Hfrom key command Hkey) as [Hold|(path & cmdInfo & Hi & ?)].
    + by rewrite lookup_empty in Hold.
    + exists path, cmdInfo. split; [|done]. by apply (enumerates_elem rng) in Hi.
  - intros path cmdInfo Hpath Hskip. apply Hin; [|done]. by apply (enumerates_elem rng).
Qed.

Lemma skipped_cases options cmdInfo :
  skipped options cmdInfo = true <->
  (IncludeHidden options = false /\ ci_Hidden cmdInfo = true) \/
  (IncludeDeprecated options = false /\ ci_Deprecated cmdInfo <> "").
Proof.
  unfold skipped, Strings.eqb.
  destruct (decide (ci_Deprecated cmdInfo = "")) as [Hd|Hd].
  - rewrite (bool_decide_eq_true_2 _ Hd).
    destruct (IncludeHidden options), (ci_Hidden cmdInfo), (IncludeDeprecated options);
      simpl; naive_solver.
  - rewrite (bool_decide_eq_false_2 _ Hd).
    destruct (IncludeHidden options), (ci_Hidden cmdInfo), (IncludeDeprecated options);
      simpl; naive_solver.
Qed.

(** Claim C6, as the code has it. A command is skipped exactly when it is
    hidden and hidden items are not included, or deprecated and deprecated
    items are not included, each test being made without regard to the
    other. In every
    document that [Convert] returns (and it returns one on every model with
    no [nil] inside): every command that is not skipped has its key in the
    command map; every entry of the command map is the conversion of a
    command that is not skipped, under that command's key; so that a command
    whose key no other command shares is absent from the map exactly when
    it is skipped. *)
Theorem C6_commands_are_absent_exactly_when_skipped :
  forall (rng : RangeOrder) (parsed : ParsedCLI) (options : ConvertOptions),
    enumerates rng ->
    (ReferencesValid parsed ->
     exists out, Convert rng (Some parsed) (Some options) = Ok out) /\
    (forall cmdInfo,
       skipped options cmdInfo = true <->
       (IncludeHidden options = false /\ ci_Hidden cmdInfo = true) \/
       (IncludeDeprecated options = false /\ ci_Deprecated cmdInfo <> "")) /\
    forall out,
      Convert rng (Some parsed) (Some options) = Ok out ->
      (forall path cmdInfo,
         Commands parsed !! path = Some (Some cmdInfo) ->
         skipped options cmdInfo = false ->
         is_Some (os_Commands out !! outputKey path cmdInfo)) /\
      (forall key command,
         os_Commands out !! key = Some command ->
         exists path cmdInfo,
           Commands parsed !! path = Some (Some cmdInfo) /\
           skipped options cmdInfo = false /\
           outputKey path cmdInfo = key /\
           convertCommand cmdInfo options = Ok command) /\
      (forall path cmdInfo,
         Commands parsed !! path = Some (Some cmdInfo) ->
         (forall path' cmdInfo',
            Commands parsed !! path' = Some (Some cmdInfo') ->
            outputKey path' cmdInfo' = outputKey path cmdInfo -> path' = path) ->
         os_Commands out !! outputKey path cmdInfo = None <->
         skipped options cmdInfo = true).
Proof.
  intros rng parsed options Hrng. split_and!.
  - intros Hvalid.
    destruct (Convert_spec rng parsed (Some options) Hrng Hvalid) as (out & Hout & _).
    by exists out.
  - apply skipped_cases.
  - intros out Hout.
    destruct (Convert_commands rng parsed options out Hrng Hout) as [Hfrom Hin].
    split_and!; [exact Hin|exact Hfrom|].
    intros path cmdInfo Hpath Hunique. split.
    + intros Habsent. destruct (skipped options cmdInfo) eqn:Hskip; [done|].
      destruct (Hin path cmdInfo Hpath Hskip) as [command Hcommand]. congruence.
    + intros Hskip.
      destruct (os_Commands out !! outputKey path cmdInfo) as [command|] eqn:Hkey; [|done].
      destruct (Hfrom _ _ Hkey) as (path' & cmdInfo' & Hpath' & Hskip' & Hsame & _).
      pose proof (Hunique path' cmdInfo' Hpath' Hsame) as ->.
      rewrite Hpath in Hpath'. injection Hpath' as <-. congruence.
Qed.

(** The keys that the loop of [Convert] makes. In every document that
    [Convert] returns (and it returns one on every model with no [nil]
    inside), the command map holds, for every command that is not skipped,
    a key made from the path the command is stored under: the command's
    bare name when that path is the name, the path itself when it already
    starts with the separator, and the path with one separator before it
    otherwise; and the map holds no other key. *)
Theorem output_keys_follow_the_stored_paths :
  forall (rng : RangeOrder) (parsed : ParsedCLI) (options : ConvertOptions),
    enumerates rng ->
    (ReferencesValid parsed ->
     exists out, Convert rng (Some parsed) (Some options) = Ok out) /\
    forall out,
      Convert rng (Some parsed) (Some options) = Ok out ->
      (forall path cmdInfo,
         Commands parsed !! path = Some (Some cmdInfo) ->
         skipped options cmdInfo = false ->
         (path = ci_Name cmdInfo -> is_Some (os_Commands out !! ci_Name cmdInfo)) /\
         (path <> ci_Name cmdInfo -> Strings.HasPrefix path "/" = true ->
            is_Some (os_Commands out !! path)) /\
         (path <> ci_Name cmdInfo -> Strings.HasPrefix path "/" = false ->
            is_Some (os_Commands out !! ("/" +:+ path)))) /\
      (forall key,
         is_Some (os_Commands out !! key) ->
         exists path cmdInfo,
           Commands parsed !! path = Some (Some cmdInfo) /\
           skipped options cmdInfo = false /\
           ((path = ci_Name cmdInfo /\ key = ci_Name cmdInfo) \/
            (path <> ci_Name cmdInfo /\ Strings.HasPrefix path "/" = true /\ key = path) \/
            (path <> ci_Name cmdInfo /\ Strings.HasPrefix path "/" = false /\
             key = "/" +:+ path))).
Proof.
  intros rng parsed options Hrng. split.
  { intros Hvalid.
    destruct (Convert_spec rng parsed (Some options) Hrng Hvalid) as (out & Hout & _).
    by exists out. }
  intros out Hout.
  destruct (Convert_commands rng parsed options out Hrng Hout) as [Hfrom Hin].
  split.
  - intros path cmdInfo Hpath Hskip.
    pose proof (Hin path cmdInfo Hpath Hskip) as Hkey.
    destruct (outputKey_cases path cmdInfo)
      as [[Hname Heq]|[(Hname & Hpre & Heq)|(Hname & Hpre & Heq)]];
      rewrite Heq in Hkey; split_and!; intros; try done; congruence.
  - intros key [command Hkey].
    destruct (Hfrom _ _ Hkey) as (path & cmdInfo & Hpath & Hskip & Hsame & _).
    exists path, cmdInfo. split_and!; [done|done|].
    rewrite <- Hsame.
    destruct (outputKey_cases path cmdInfo)
      as [[Hname Heq]|[(Hname & Hpre & Heq)|(Hname & Hpre & Heq)]]; rewrite Heq; auto.
Qed.

(** In the model of the parser's test, [create] is stored under its path
    with one separator before it, and the root under its bare name. *)
Lemma output_keys_witness :
  exists out,
    Convert canonicalOrder (Some (parsedOf testappTree)) (Some DefaultConvertOptions) = Ok out /\
    is_Some (os_Commands out !! "/testapp/user/create") /\
    is_Some (os_Commands out !! "testapp").
Proof.
  destruct (output_keys_follow_the_stored_paths
              canonicalOrder (parsedOf testappTree) DefaultConvertOptions)
    as (Hreturns & Hdocument).
  { intros A m. reflexivity. }
  destruct Hreturns as [out Hout].
  { split; [by eexists|]. apply map_Forall_to_list. vm_compute. repeat constructor. }
  destruct (Hdocument out Hout) as (Hkeys & _).
  - exists out. split; [exact Hout|]. split.
    + refine (proj2 (proj2 (Hkeys "testapp/user/create"
                              (parseNode (plainCommand "create" []) "testapp/user") _ _)) _ _).
      * vm_compute. reflexivity.
      * reflexivity.
      * vm_compute. discriminate.
      * reflexivity.
    + refine (proj1 (Hkeys "testapp" (parseNode testappTree "") _ _) _).
      * vm_compute. reflexivity.
      * reflexivity.
      * reflexivity.
Defined.

(** Claim C5, where the code departs from it. The loop of [Convert] takes a
    command for the root when the path it is stored under is its name.
    Under a root that has no name this is so of every subcommand of the
    root as well: the path of its node is its name, and the key made for
    it is its bare name, with no separator before it. So in the tree of a
    root without a name and its subcommand [serve], the document holds the
    key [serve] and no key [/serve]. *)
Theorem C5_subcommand_of_unnamed_root_is_keyed_by_its_bare_name :
  (forall cmd child : cobra.Command,
     cmd_Name cmd = "" -> child ∈ cmd_Commands cmd ->
     exists node,
       node ∈ ci_Subcommands (parseNode cmd "") /\
       ci_Name node = cmd_Name child /\
       ci_Path node = cmd_Name child /\
       outputKey (ci_Path node) node = cmd_Name child) /\
  exists parsed rootInfo child out,
    Parse (SrcCommand unnamedRootTree) = Ok parsed /\
    RootCommand parsed = Some rootInfo /\
    child ∈ ci_Subcommands rootInfo /\
    ci_Name child = "serve" /\
    Commands parsed !! ci_Path child = Some (Some child) /\
    Convert canonicalOrder (Some parsed) None = Ok out /\
    os_Commands out !! ("/" +:+ ci_Path child) = None /\
    is_Some (os_Commands out !! ci_Path child).
Proof.
  split.
  - intros cmd child Hname Hchild.
    exists (parseNode child (ci_Path (parseNode cmd ""))).
    rewrite parseNode_Subcommands, !parseNode_Path, !parseNode_Name, Hname.
    change (buildPath "" "") with "". rewrite buildPath_root.
    split_and!; [|reflexivity|reflexivity|].
    + apply list_elem_of_fmap. by exists child.
    + destruct (outputKey_cases (cmd_Name child) (parseNode child ""))
        as [[_ Hkey]|[(Hne & _)|(Hne & _)]].
      * by rewrite Hkey, parseNode_Name.
      * by rewrite parseNode_Name in Hne.
      * by rewrite parseNode_Name in Hne.
  - eexists _, _, (parseNode (plainCommand "serve" []) ""), _.
    split_and!; [reflexivity|reflexivity| |reflexivity|vm_compute; reflexivity
                 |vm_compute; reflexivity| |].
    + vm_compute. constructor.
    + vm_compute. reflexivity.
    + vm_compute. by eexists.
Qed.

(** The subcommand [serve] of a root without a name. *)
Lemma C5_unnamed_root_witness :
  exists node,
    node ∈ ci_Subcommands (parseNode unnamedRootTree "") /\
    ci_Path node = "serve" /\
    outputKey (ci_Path node) node = "serve".
Proof.
  destruct (proj1 C5_subcommand_of_unnamed_root_is_keyed_by_its_bare_name
              unnamedRootTree (plainCommand "serve" []) eq_refl)
    as (node & Hnode & _ & Hpath & Hkey).
  - vm_compute. constructor.
  - exists node. split_and!; [exact Hnode|exact Hpath|exact Hkey].
Defined.

Lemma keyUnshared_sound parsed path cmdInfo :
  keyUnshared parsed path cmdInfo = true ->
  forall path' cmdInfo',
    Commands parsed !! path' = Some (Some cmdInfo') ->
    outputKey path' cmdInfo' = outputKey path cmdInfo -> path' = path.
Proof.
  unfold keyUnshared. rewrite forallb_forall. intros Hall path' cmdInfo' Hlookup Hkey.
  apply elem_of_map_to_list, list_elem_of_In in Hlookup.
  specialize (Hall _ Hlookup). simpl in Hall. unfold Strings.eqb in Hall.
  rewrite (bool_decide_eq_true_2 _ Hkey) in Hall. simpl in Hall.
  by apply bool_decide_eq_true in Hall.
Qed.

(** In the tree of the parser's test of hidden commands, under the default
    options: [hidden] is absent from the document, [visible] is there. *)
Lemma C6_hidden_command_witness :
  exists out,
    Convert canonicalOrder (Some (parsedOf hiddenTree)) (Some DefaultConvertOptions) = Ok out /\
    os_Commands out !! "/root/hidden" = None /\
    is_Some (os_Commands out !! "/root/visible").
Proof.
  destruct (C6_commands_are_absent_exactly_when_skipped
              canonicalOrder (parsedOf hiddenTree) DefaultConvertOptions)
    as (Hreturns & _ & Hdocument).
  { intros A m. reflexivity. }
  destruct Hreturns as [out Hout].
  { split; [by eexists|]. apply map_Forall_to_list. vm_compute. repeat constructor. }
  destruct (Hdocument out Hout) as (Hin & _ & Habsent).
  - exists out. split; [exact Hout|]. split.
    + refine (proj2 (Habsent "root/hidden" (parseNode (hiddenCommand "hidden") "root") _ _) _).
      * vm_compute. reflexivity.
      * apply keyUnshared_sound. vm_compute. reflexivity.
      * reflexivity.
    + refine (Hin "root/visible" (parseNode (plainCommand "visible" []) "root") _ _).
      * vm_compute. reflexivity.
      * reflexivity.
Defined.

Lemma summaryAbsent_sound out summary :
  summaryAbsent out summary = true ->
  forall key command, os_Commands out !! key = Some command -> cm_Summary command <> summary.
Proof.
  unfold summaryAbsent. rewrite forallb_forall. intros Hall key command Hlookup.
  apply elem_of_map_to_list, list_elem_of_In in Hlookup.
  specialize (Hall _ Hlookup). simpl in Hall. unfold Strings.eqb in Hall.
  apply negb_true_iff, bool_decide_eq_false in Hall. exact Hall.
Qed.

(** Claim C6, as it is worded, fails where two commands get one key. Under
    a root without a name, the subcommand [b] of [/a] and the subcommand
    [b] of [a] have the paths [/a/b] and [a/b] and both the key [/a/b]:
    neither is hidden or deprecated, five commands are stored in the flat
    map, and the document holds four: under [/a/b] the conversion of the
    second [b], and nowhere that of the first. *)
Lemma C6_counterexample_two_commands_of_one_key :
  exists parsed out lost,
    Parse (SrcCommand sharedKeyTree) = Ok parsed /\
    Convert canonicalOrder (Some parsed) (Some DefaultConvertOptions) = Ok out /\
    Commands parsed !! "/a/b" = Some (Some lost) /\
    ci_Hidden lost = false /\ ci_Deprecated lost = "" /\
    skipped DefaultConvertOptions lost = false /\
    ci_Short lost = "first" /\
    (forall key command,
       os_Commands out !! key = Some command -> cm_Summary command <> ci_Short lost) /\
    (exists command,
       os_Commands out !! "/a/b" = Some command /\ cm_Summary command = "second") /\
    size (Commands parsed) = 5%nat /\
    size (os_Commands out) = 4%nat.
Proof.
  eexists (parsedOf sharedKeyTree), _, (parseNode (describedCommand "b" "first" []) "/a").
  split_and!; [reflexivity|vm_compute; reflexivity|vm_compute; reflexivity|reflexivity
               |reflexivity|reflexivity|reflexivity| | |vm_compute; reflexivity
               |vm_compute; reflexivity].
  - apply summaryAbsent_sound. vm_compute. reflexivity.
  - eexists. split; vm_compute; reflexivity.
Qed.

(** The count of [extractComponents] is of the occurrences of a name. In a
    model of one command that lists the local flag [force] twice, which no
    flag set gives, the name is lifted into the shared parameter table
    though one command only declares it. *)
Lemma repeated_flag_of_one_command_is_lifted :
  exists components,
    extractComponents canonicalOrder repeatedFlagCLI DefaultConvertOptions = Ok components /\
    length (commandsDeclaring "force" repeatedFlagCLI) = 1%nat /\
    is_Some (cp_Parameters components !! "force").
Proof.
  eexists. split_and!; [vm_compute; reflexivity|vm_compute; reflexivity|].
  vm_compute. by eexists.
Qed.

(** What [extractComponents] does do, through [Convert] with component
    extraction enabled, on a model with no [nil] inside: the shared
    parameter table holds exactly the names that occur more than once among
    the local flags of all commands, each once, under its own name; and the
    shared responses are the two fixed ones. Where no command lists a name
    twice, the names lifted are those that more than one command declares. *)
Lemma components_hold_the_names_that_occur_more_than_once
    (rng : RangeOrder) (parsed : ParsedCLI) (options : ConvertOptions) :
  enumerates rng ->
  ReferencesValid parsed ->
  ExtractComponents options = true ->
  exists out components,
    Convert rng (Some parsed) (Some options) = Ok out /\
    os_Components out = Some components /\
    (forall name,
       is_Some (cp_Parameters components !! name) <->
       1 < occurrences name (allLocalFlags parsed)) /\
    (forall name parameter,
       cp_Parameters components !! name = Some parameter -> pa_Name parameter = name) /\
    (map_Forall (fun _ p => NoDup (fi_Name <$> localFlagsOf p)) (Commands parsed) ->
     forall name,
       is_Some (cp_Parameters components !! name) <->
       (1 < length (commandsDeclaring name parsed))%nat) /\
    dom (cp_Responses components) = {["Success"; "Error"]}.
Proof.
  intros Hrng Hvalid Hon.
  destruct (Convert_spec rng parsed (Some options) Hrng Hvalid)
    as (out & Hout & _ & _ & _ & _ & Hcomps).
  destruct (Hcomps Hon) as (components & Hextract & Hsome).
  destruct (extractComponents_spec rng parsed options Hrng Hvalid)
    as (components' & Hextract' & Hdom & Hnames & Hresp).
  simpl in Hextract. rewrite Hextract in Hextract'. injection Hextract' as <-.
  exists out, components. split_and!; [done|done|done| | |].
  - intros name parameter Hp. by apply Hnames in Hp as [? _].
  - intros Hnodup name. rewrite Hdom, (occurrences_are_commands name parsed Hnodup). lia.
  - rewrite Hresp. unfold commonResponses. rewrite !dom_insert_L, dom_empty_L. set_solver.
Qed.

(** ** The two stages together *)

Lemma noNil_Some {A} (l : list A) : noNil (Some <$> l) = true.
Proof.
  induction l as [|a l IH]; [reflexivity|].
  rewrite fmap_cons. simpl. exact IH.
Qed.

Lemma parseCommand_local_flags cmd parentPath :
  ci_Flags (parseCommand cmd parentPath)
  = Some <$> ((fun flag => parseFlag flag false)
              <$> filter (fun flag => shadowed cmd flag = false)
                    (default [] (cmd_Flags cmd))).
Proof.
  simpl. destruct (cmd_Flags cmd) as [fs|]; [|reflexivity].
  rewrite visitLocalFlag_loop. simpl. by rewrite <- list_fmap_compose.
Qed.

Lemma parseCommand_persistent_flags cmd parentPath :
  ci_PersistentFlags (parseCommand cmd parentPath)
  = Some <$> ((fun flag => parseFlag flag true) <$> default [] (cmd_PersistentFlags cmd)).
Proof.
  simpl. destruct (cmd_PersistentFlags cmd) as [pfs|]; [|reflexivity].
  rewrite visitPersistentFlag_loop. simpl. by rewrite <- list_fmap_compose.
Qed.

Lemma parseNode_flags cmd parentPath :
  ci_Flags (parseNode cmd parentPath) = ci_Flags (parseCommand cmd parentPath) /\
  ci_PersistentFlags (parseNode cmd parentPath)
  = ci_PersistentFlags (parseCommand cmd parentPath) /\
  ci_Args (parseNode cmd parentPath) = parseArguments cmd.
Proof. rewrite parseNode_unfold. by split_and!. Qed.

Lemma parseNode_valid cmd parentPath :
  commandValid (Some (parseNode cmd parentPath)) = true.
Proof.
  destruct (parseNode_flags cmd parentPath) as (Hf & Hp & Ha).
  destruct (parseArguments_no_nil cmd) as [args Hargs].
  unfold commandValid.
  rewrite Hf, Hp, Ha, parseCommand_local_flags, parseCommand_persistent_flags, Hargs.
  by rewrite !noNil_Some.
Qed.

(** A property of the commands of a tree passes to the nodes parsed from
    them. *)
Lemma nodes_of_commands (P : cobra.Command -> Prop) (Q : CommandInfo -> Prop) :
  (forall cmd parentPath, P cmd -> Q (parseNode cmd parentPath)) ->
  forall cmd parentPath,
    Forall P (commandsOf cmd) -> Forall Q (nodes (parseNode cmd parentPath)).
Proof.
  intros HPQ. induction cmd as [cmd IH] using Command_tree_ind.
  intros parentPath Hall. rewrite commandsOf_unfold in Hall.
  apply Forall_cons in Hall as [Hcmd Hsubs].
  rewrite nodes_unfold, parseNode_Subcommands. constructor; [by apply HPQ|].
  generalize (buildPath (cmd_Name cmd) parentPath). intros here.
  induction IH as [|sub subs Hsub _ IHsubs]; simpl in *; [constructor|].
  apply Forall_app in Hsubs as [Hs1 Hs2].
  apply Forall_app. split; [by apply Hsub|by apply IHsubs].
Qed.

Lemma parsedOf_lookup cmd path p :
  Commands (parsedOf cmd) !! path = Some p ->
  exists info, p = Some info /\ info ∈ nodes (parseNode cmd "").
Proof.
  intros Hp. destruct (parsed_commands cmd) as [_ Hlookup].
  destruct (Hlookup path p Hp) as (info & -> & Hin & _). by exists info.
Qed.

(** The models that [Parse] builds hold no [nil] inside. *)
Lemma parsedOf_valid cmd : ReferencesValid (parsedOf cmd).
Proof.
  split; [by eexists|].
  intros path p Hp. destruct (parsedOf_lookup cmd path p Hp) as (info & -> & Hin).
  assert (Hall : Forall (fun n => commandValid (Some n) = true) (nodes (parseNode cmd ""))).
  { apply (nodes_of_commands (fun _ => True)).
    - intros c pp _. apply parseNode_valid.
    - by apply Forall_forall. }
  rewrite Forall_forall in Hall. by apply Hall.
Qed.

(** Extraction followed by conversion always returns a document. *)
Lemma pipeline_returns_a_document (rng : RangeOrder) cmd options :
  enumerates rng ->
  exists parsed out,
    Parse (SrcCommand cmd) = Ok parsed /\ Convert rng (Some parsed) options = Ok out.
Proof.
  intros Hrng.
  destruct (Convert_spec rng (parsedOf cmd) options Hrng (parsedOf_valid cmd))
    as (out & Hout & _).
  by exists (parsedOf cmd), out.
Qed.

(** In the models that [Parse] builds from flag sets of one flag per name,
    no command lists a local flag name twice. *)
Lemma parsedOf_flag_names_distinct cmd :
  Forall (fun c => NoDup (flagNames (default [] (cmd_Flags c)))) (commandsOf cmd) ->
  map_Forall (fun _ p => NoDup (fi_Name <$> localFlagsOf p)) (Commands (parsedOf cmd)).
Proof.
  intros Hsets path p Hp. destruct (parsedOf_lookup cmd path p Hp) as (info & -> & Hin).
  assert (Hall : Forall (fun n => NoDup (fi_Name <$> localFlagsOf (Some n)))
                        (nodes (parseNode cmd ""))).
  { apply (nodes_of_commands
             (fun c => NoDup (flagNames (default [] (cmd_Flags c))))); [|done].
    clear. intros c parentPath Hnd. simpl.
  destruct (parseNode_flags c parentPath) as (-> & _).
  rewrite parseCommand_local_flags, omap_id_Some, <- list_fmap_compose.
  unfold flagNames in Hnd. revert Hnd.
  generalize (default [] (cmd_Flags c)). intros fs Hnd.
  induction fs as [|flag fs IH]; [constructor|].
  simpl in Hnd. apply NoDup_cons in Hnd as [Hfresh Hnd].
  rewrite filter_cons. destruct (decide (shadowed c flag = false)); [|by apply IH].
  rewrite fmap_cons. apply NoDup_cons. split; [|by apply IH].
  intros Hin. apply Hfresh. simpl in Hin.
  apply list_elem_of_fmap in Hin as (flag' & Hname & Hin').
  apply list_elem_of_filter in Hin' as [_ Hin'].
    apply list_elem_of_In, in_map_iff. exists flag'. split; [done|by apply list_elem_of_In]. }
  rewrite Forall_forall in Hall. by apply Hall.
Qed.

(** On the models that [Parse] builds from such flag sets, the names lifted
    into the shared parameter table are those that more than one command
    declares. *)
Lemma components_of_parsed_trees (rng : RangeOrder) cmd options :
  enumerates rng ->
  ExtractComponents options = true ->
  Forall (fun c => NoDup (flagNames (default [] (cmd_Flags c)))) (commandsOf cmd) ->
  exists out components,
    Convert rng (Some (parsedOf cmd)) (Some options) = Ok out /\
    os_Components out = Some components /\
    forall name,
      is_Some (cp_Parameters components !! name) <->
      (1 < length (commandsDeclaring name (parsedOf cmd)))%nat.
Proof.
  intros Hrng Hon Hsets.
  destruct (Convert_spec rng (parsedOf cmd) (Some options) Hrng (parsedOf_valid cmd))
    as (out & Hout & _ & _ & _ & _ & Hcomps).
  destruct (Hcomps Hon) as (components & Hextract & Hsome). simpl in Hextract.
  destruct (extractComponents_spec rng (parsedOf cmd) options Hrng (parsedOf_valid cmd))
    as (components' & Hextract' & Hdom & _).
  rewrite Hextract in Hextract'. injection Hextract' as <-.
  exists out, components. split_and!; [done|done|].
  intros name. rewrite Hdom.
  rewrite (occurrences_are_commands name (parsedOf cmd)
             (parsedOf_flag_names_distinct cmd Hsets)). lia.
Qed.

(** The loops of [extractComponents] end without panic only if every command
    of the map is there, and every local flag of every command. *)
Lemma countFlag_loop_returns (l : list (option FlagInfo)) :
  forall tables tables' : gmap string Z * gmap string FlagInfo,
    foldRes countFlag l tables = Ok tables' -> noNil l = true.
Proof.
  induction l as [|p l IH]; intros tables tables' H; [reflexivity|].
  cbn [foldRes] in H. destruct p as [f|]; destruct tables as [paramCounts paramMap];
    cbn [countFlag deref bindRes] in H; [|discriminate].
  cbn [noNil forallb]. rewrite bool_decide_eq_true_2 by (by eexists).
  exact (IH _ _ H).
Qed.

Lemma countCommand_loop_returns (entries : list (string * option CommandInfo)) :
  forall tables tables' : gmap string Z * gmap string FlagInfo,
    foldRes countCommand entries tables = Ok tables' ->
    Forall (fun entry => localValid (snd entry) = true) entries.
Proof.
  induction entries as [|[path p] entries IH]; intros tables tables' H; [constructor|].
  cbn [foldRes] in H. unfold countCommand at 1 in H. cbn [snd] in H.
  destruct p as [cmdInfo|]; cbn [deref bindRes] in H; [|discriminate].
  destruct (foldRes countFlag (ci_Flags cmdInfo) tables) as [tables1|e|] eqn:Hflags;
    cbn [bindRes] in H; try discriminate.
  constructor; [|exact (IH _ _ H)].
  exact (countFlag_loop_returns _ _ _ Hflags).
Qed.

Lemma countCommand_loop_local (entries : list (string * option CommandInfo)) :
  Forall (fun entry => localValid (snd entry) = true) entries ->
  forall tables seen,
    Counted tables seen ->
    exists tables',
      foldRes countCommand entries tables = Ok tables' /\
      Counted tables' (seen ++ flat_map (fun entry => localFlagsOf (snd entry)) entries).
Proof.
  induction 1 as [|[path p] entries Hvalid _ IH]; intros tables seen Hcounted.
  - exists tables. split; [reflexivity|]. simpl. by rewrite app_nil_r.
  - simpl in Hvalid. destruct p as [cmdInfo|]; [|discriminate].
    apply noNil_fmap in Hvalid as [flags Hflags].
    destruct (countFlag_loop flags tables seen Hcounted) as (tables1 & Hstep & Hcounted1).
    destruct (IH tables1 (seen ++ flags) Hcounted1) as (tables' & Hloop & Hcounted').
    exists tables'. cbn [foldRes]. unfold countCommand at 1. cbn [snd deref bindRes].
    rewrite Hflags, Hstep. cbn [bindRes]. split; [exact Hloop|].
    cbn [flat_map localFlagsOf snd]. rewrite Hflags, omap_id_Some.
    by rewrite <- app_assoc in Hcounted'.
Qed.

(** The table of any result of [extractComponents]: the names lifted are
    those that occur more than once among all local flags, each under its
    own name. *)
Lemma extractComponents_result (rng : RangeOrder) parsed options components :
  enumerates rng ->
  extractComponents rng parsed options = Ok components ->
  (forall name,
     is_Some (cp_Parameters components !! name) <->
     1 < occurrences name (allLocalFlags parsed)) /\
  (forall name parameter,
     cp_Parameters components !! name = Some parameter ->
     pa_Name parameter = name /\ pa_In parameter = "flag") /\
  cp_Responses components = commonResponses.
Proof.
  intros Hrng Hresult.
  assert (Hvalid : Forall (fun entry => localValid (snd entry) = true)
                          (rng _ (Commands parsed))).
  { unfold extractComponents in Hresult.
    destruct (foldRes countCommand (rng _ (Commands parsed)) (∅, ∅))
      as [tables|e|] eqn:Hcount; cbn [bindRes] in Hresult; try discriminate.
    exact (countCommand_loop_returns _ _ _ Hcount). }
  destruct (countCommand_loop_local _ Hvalid (∅, ∅) [] Counted_start)
    as ([paramCounts paramMap] & Hcount & Hcounts & Hmap & Hnames).
  simpl in Hcounts, Hmap, Hnames.
  assert (Hocc : forall name,
             occurrences name
               (flat_map (fun entry => localFlagsOf (snd entry)) (rng _ (Commands parsed)))
             = occurrences name (allLocalFlags parsed)).
  { intros name. apply occurrences_perm. unfold allLocalFlags.
    apply Permutation_flat_map, Hrng. }
  assert (Hentry : forall name count,
             (name, count) ∈ rng _ paramCounts <->
             count = occurrences name (allLocalFlags parsed) /\ 0 < count).
  { intros name count. rewrite (enumerates_elem rng) by done.
    rewrite Hcounts, Hocc. case_bool_decide; split.
    - intros [= <-]. done.
    - intros [-> _]. done.
    - discriminate.
    - intros [-> ?]. done. }
  destruct (liftParameter_loop paramMap (rng _ paramCounts))
    with (parameters0 := (∅ : gmap string Parameter_))
    as (parameters & Hlift & Hdom & Hval).
  { intros name count Hin Hc. apply Hentry in Hin as [-> Hpos].
    apply Hmap. by rewrite Hocc. }
  unfold extractComponents in Hresult. rewrite Hcount in Hresult.
  cbn [bindRes fst snd] in Hresult. rewrite Hlift in Hresult. cbn [bindRes] in Hresult.
  injection Hresult as <-. split_and!; [| |reflexivity].
  - intros name. simpl. rewrite Hdom, lookup_empty. split.
    + intros [[? ?]|(count & Hin & Hc)]; [done|]. apply Hentry in Hin as [-> _]. done.
    + intros Hc. right. eexists. split; [|exact Hc]. apply Hentry. split; [done|lia].
  - intros name parameter Hp. simpl in Hp.
    destruct (Hval name parameter Hp) as [Hold|(flag & Hflag & ->)].
    + by rewrite lookup_empty in Hold.
    + simpl. split; [by apply Hnames|done].
Qed.

(** The components of any document that [Convert] returns when asked for
    them. *)
Lemma Convert_components (rng : RangeOrder) parsed options out :
  Convert rng (Some parsed) (Some options) = Ok out ->
  ExtractComponents options = true ->
  exists components,
    extractComponents rng parsed options = Ok components /\
    os_Components out = Some components.
Proof.
  intros Hout Hon. unfold Convert in Hout.
  change (default DefaultConvertOptions (Some options)) with options in Hout.
  destruct (convertInfo (Metadata parsed) options) as [info|e|];
    cbn [bindRes] in Hout; try discriminate.
  destruct (deref (Metadata parsed)) as [md|e|];
    cbn [bindRes] in Hout; try discriminate.
  destruct (foldRes (convertEntry options) (rng _ (Commands parsed)) ∅)
    as [commands|e|]; cbn [bindRes] in Hout; try discriminate.
  rewrite Hon in Hout.
  destruct (extractComponents rng parsed options) as [components|e|];
    cbn [bindRes] in Hout; try discriminate.
  injection Hout as <-. by exists components.
Qed.

(** Claim C8. A flag set holds one flag per name, and in the model that
    [Parse] builds from such flag sets no command lists a local flag name
    twice. With component extraction enabled, on a model in which no
    command lists a local flag name twice, in every document that [Convert]
    returns (and it returns one on every model with no [nil] inside): a
    flag name that occurs in the local flags of more than one command is in
    the shared parameter table, under its own name; every entry of the
    table bears the name it is stored under, so that no name is there
    twice, and is of a name that more than one command declares; a name
    that one command only declares is not there; and the table of shared
    responses holds the two fixed responses, whatever was lifted. *)
Theorem C8_names_of_several_commands_are_lifted_once :
  (forall cmd : cobra.Command,
     Forall (fun c => NoDup (flagNames (default [] (cmd_Flags c)))) (commandsOf cmd) ->
     Parse (SrcCommand cmd) = Ok (parsedOf cmd) /\
     map_Forall (fun _ p => NoDup (fi_Name <$> localFlagsOf p)) (Commands (parsedOf cmd))) /\
  forall (rng : RangeOrder) (parsed : ParsedCLI) (options : ConvertOptions),
    enumerates rng ->
    ExtractComponents options = true ->
    map_Forall (fun _ p => NoDup (fi_Name <$> localFlagsOf p)) (Commands parsed) ->
    (ReferencesValid parsed ->
     exists out, Convert rng (Some parsed) (Some options) = Ok out) /\
    forall out,
      Convert rng (Some parsed) (Some options) = Ok out ->
      exists components,
        os_Components out = Some components /\
        (forall name,
           (1 < length (commandsDeclaring name parsed))%nat ->
           exists parameter,
             cp_Parameters components !! name = Some parameter /\
             pa_Name parameter = name /\ pa_In parameter = "flag") /\
        (forall key parameter,
           cp_Parameters components !! key = Some parameter ->
           pa_Name parameter = key /\
           (1 < length (commandsDeclaring key parsed))%nat) /\
        (forall name,
           length (commandsDeclaring name parsed) = 1%nat ->
           cp_Parameters components !! name = None) /\
        cp_Responses components = commonResponses /\
        dom (cp_Responses components) = {["Success"; "Error"]}.
Proof.
  split.
  { intros cmd Hsets. split; [reflexivity|]. by apply parsedOf_flag_names_distinct. }
  intros rng parsed options Hrng Hon Hnodup. split.
  { intros Hvalid.
    destruct (Convert_spec rng parsed (Some options) Hrng Hvalid) as (out & Hout & _).
    by exists out. }
  intros out Hout.
  destruct (Convert_components rng parsed options out Hout Hon)
    as (components & Hextract & Hsome).
  destruct (extractComponents_result rng parsed options components Hrng Hextract)
    as (Hdom & Hnames & Hresponses).
  assert (Hlifted : forall name,
             is_Some (cp_Parameters components !! name) <->
             (1 < length (commandsDeclaring name parsed))%nat).
  { intros name. rewrite Hdom, (occurrences_are_commands name parsed Hnodup). lia. }
  exists components. split_and!; [exact Hsome| | | |exact Hresponses|].
  - intros name Hmore. destruct (proj2 (Hlifted name) Hmore) as [parameter Hp].
    exists parameter. split; [exact Hp|]. by apply Hnames.
  - intros key parameter Hp. split; [by apply Hnames in Hp as [? _]|].
    apply Hlifted. by eexists.
  - intros name Hone.
    destruct (cp_Parameters components !! name) as [parameter|] eqn:Hp; [|reflexivity].
    assert (Hmore : (1 < length (commandsDeclaring name parsed))%nat).
    { apply Hlifted. rewrite Hp. by eexists. }
    lia.
  - rewrite Hresponses. unfold commonResponses. rewrite !dom_insert_L, dom_empty_L. set_solver.
Qed.

(** Two commands that declare [force], one of which declares [yes] as
    well: [force] is lifted, [yes] is not. *)
Lemma C8_force_witness :
  exists out components,
    Convert canonicalOrder (Some (parsedOf forceTree)) (Some DefaultConvertOptions) = Ok out /\
    os_Components out = Some components /\
    is_Some (cp_Parameters components !! "force") /\
    cp_Parameters components !! "yes" = None.
Proof.
  destruct (proj1 C8_names_of_several_commands_are_lifted_once forceTree) as [_ Hnodup].
  { vm_compute. repeat constructor; set_solver. }
  destruct (proj2 C8_names_of_several_commands_are_lifted_once canonicalOrder
              (parsedOf forceTree) DefaultConvertOptions canonicalOrder_enumerates eq_refl
              Hnodup)
    as (Hreturns & Hdocument).
  destruct (Hreturns (parsedOf_valid forceTree)) as [out Hout].
  destruct (Hdocument out Hout) as (components & Hsome & Hmore & _ & Hone & _).
  exists out, components. split_and!; [exact Hout|exact Hsome| |].
  - destruct (Hmore "force") as (parameter & Hp & _); [vm_compute; lia|].
    rewrite Hp. by eexists.
  - apply Hone. vm_compute. reflexivity.
Defined.

Lemma length_append (s t : string) :
  String.length (s +:+ t) = (String.length s + String.length t)%nat.
Proof.
  induction s as [|c s IH]; [reflexivity|].
  change (S (String.length (s +:+ t)) = S (String.length s + String.length t)).
  by rewrite IH.
Qed.

Lemma HasPrefix_append (s t : string) :
  s <> "" -> Strings.HasPrefix (s +:+ t) "/" = Strings.HasPrefix s "/".
Proof.
  destruct s as [|c s]; [done|]. intros _.
  unfold Strings.HasPrefix.
  change ((String c s) +:+ t) with (String c (s +:+ t)). cbn [String.prefix].
  destruct (ascii_dec "/"%char c); [|reflexivity].
  generalize (s +:+ t). intros u. by destruct s, u.
Qed.

(** Below a path that is not empty and has no separator in front, in a tree
    of named commands, every node's path is longer than that path, differs
    from the node's name and has no separator in front. *)
Lemma paths_below cmd :
  forall parentPath,
    Forall (fun c => cmd_Name c <> "") (commandsOf cmd) ->
    parentPath <> "" ->
    Strings.HasPrefix parentPath "/" = false ->
    Forall (fun n => (String.length parentPath < String.length (ci_Path n))%nat /\
                     ci_Path n <> ci_Name n /\
                     Strings.HasPrefix (ci_Path n) "/" = false)
           (nodes (parseNode cmd parentPath)).
Proof.
  induction cmd as [cmd IH] using Command_tree_ind.
  intros parentPath Hnamed Hparent Hprefix.
  rewrite commandsOf_unfold in Hnamed. apply Forall_cons in Hnamed as [Hname Hsubs].
  assert (Hpath : buildPath (cmd_Name cmd) parentPath
                  = parentPath +:+ "/" +:+ cmd_Name cmd).
  { unfold buildPath, Strings.eqb.
    by rewrite (bool_decide_eq_false_2 _ Hname), (bool_decide_eq_false_2 _ Hparent). }
  assert (Hlen : (String.length parentPath
                  < String.length (buildPath (cmd_Name cmd) parentPath))%nat).
  { rewrite Hpath, !length_append. simpl. lia. }
  assert (Hpre : Strings.HasPrefix (buildPath (cmd_Name cmd) parentPath) "/" = false).
  { rewrite Hpath, HasPrefix_append; done. }
  assert (Hnonempty : buildPath (cmd_Name cmd) parentPath <> "").
  { intros Heq. rewrite Heq in Hlen. simpl in Hlen. lia. }
  rewrite nodes_unfold, parseNode_Subcommands. constructor.
  - rewrite parseNode_Path, parseNode_Name. split_and!; [done| |done].
    intros Heq. rewrite Hpath in Heq.
    apply (f_equal String.length) in Heq. rewrite !length_append in Heq. simpl in Heq. lia.
  - revert Hlen Hpre Hnonempty.
    generalize (buildPath (cmd_Name cmd) parentPath). intros here Hlen Hpre Hnonempty.
    induction IH as [|sub subs Hsub _ IHsubs]; simpl in *; [constructor|].
    apply Forall_app in Hsubs as [Hs1 Hs2]. apply Forall_app. split; [|by apply IHsubs].
    eapply Forall_impl; [by apply Hsub|].
    intros n (Hn & ? & ?). split_and!; [lia|done|done].
Qed.

(** Claim C5 as it is worded holds on the trees in which every command has a
    name and the root's name has no separator in front: extraction followed
    by conversion stores the root, if it is not skipped, under its bare
    name, and every other command that is not skipped under its path with
    one separator before it. *)
Lemma keys_of_named_trees (rng : RangeOrder) cmd options :
  enumerates rng ->
  Forall (fun c => cmd_Name c <> "") (commandsOf cmd) ->
  Strings.HasPrefix (cmd_Name cmd) "/" = false ->
  exists out,
    Convert rng (Some (parsedOf cmd)) (Some options) = Ok out /\
    forall path cmdInfo,
      Commands (parsedOf cmd) !! path = Some (Some cmdInfo) ->
      skipped options cmdInfo = false ->
      (path = cmd_Name cmd /\ ci_Name cmdInfo = cmd_Name cmd /\
       is_Some (os_Commands out !! cmd_Name cmd)) \/
      (path <> cmd_Name cmd /\ is_Some (os_Commands out !! ("/" +:+ path))).
Proof.
  intros Hrng Hnamed Hprefix.
  destruct (Convert_spec rng (parsedOf cmd) (Some options) Hrng (parsedOf_valid cmd))
    as (out & Hout & _ & _ & Hstored & _).
  simpl in Hstored.
  exists out. split; [exact Hout|].
  intros path cmdInfo Hlookup Hskip.
  destruct (proj2 (parsed_commands cmd) path (Some cmdInfo) Hlookup)
    as (info & [= <-] & Hin & Hinfo).
  pose proof (Hstored path cmdInfo Hlookup Hskip) as Hkey.
  assert (Hroot : path = ci_Name cmdInfo -> is_Some (os_Commands out !! ci_Name cmdInfo)).
  { intros Heq.
    destruct (outputKey_cases path cmdInfo) as [[_ Hk]|[(Hne & _)|(Hne & _)]];
      [by rewrite Hk in Hkey|done|done]. }
  assert (Hother : path <> ci_Name cmdInfo -> Strings.HasPrefix path "/" = false ->
                   is_Some (os_Commands out !! ("/" +:+ path))).
  { intros Hne Hpre.
    destruct (outputKey_cases path cmdInfo) as [[Heq _]|[(_ & Hp & _)|(_ & _ & Hk)]];
      [done|congruence|by rewrite Hk in Hkey]. }
  rewrite commandsOf_unfold in Hnamed. apply Forall_cons in Hnamed as [Hname Hsubs].
  rewrite nodes_unfold, parseNode_Subcommands, buildPath_root in Hin.
  apply elem_of_cons in Hin as [->|Hin].
  - left. rewrite parseNode_Path, buildPath_root in Hinfo.
    rewrite parseNode_Name in Hroot |- *. split_and!; [done|done|]. by apply Hroot.
  - right.
    apply list_elem_of_In, in_flat_map in Hin as (subInfo & HsubInfo & Hin).
    apply in_map_iff in HsubInfo as (subCmd & <- & HsubCmd).
    assert (Hsub : Forall (fun c => cmd_Name c <> "") (commandsOf subCmd)).
    { rewrite Forall_forall in Hsubs |- *. intros c Hc. apply Hsubs.
      apply list_elem_of_In, in_flat_map. exists subCmd.
      split; [done|by apply list_elem_of_In]. }
    pose proof (paths_below subCmd (cmd_Name cmd) Hsub Hname Hprefix) as Hall.
    rewrite Forall_forall in Hall.
    destruct (Hall cmdInfo) as (Hlen & Hne & Hpre); [by apply list_elem_of_In|].
    rewrite Hinfo in Hlen, Hne, Hpre. split.
    + intros ->. lia.
    + by apply Hother.
Qed.

(** * Further properties of the code *)

(** ** The registry *)

Lemma List_keys (rng : RangeOrder) (r : gmap string Parser) :
  List rng r = fst <$> rng _ r.
Proof.
  unfold List.
  assert (H : forall (entries : list (string * Parser)) names,
             fold_left (fun names entry => names ++ [fst entry]) entries names
             = names ++ (fst <$> entries)).
  { induction entries as [|entry entries IH]; intros names; cbn [fold_left].
    - by rewrite fmap_nil, app_nil_r.
    - by rewrite IH, fmap_cons, <- app_assoc. }
  by rewrite H.
Qed.

Lemma List_elem (rng : RangeOrder) (r : gmap string Parser) name :
  enumerates rng -> name ∈ List rng r <-> is_Some (r !! name).
Proof.
  intros Hrng. rewrite List_keys, list_elem_of_fmap. split.
  - intros ([name' p] & -> & Hin). apply (enumerates_elem rng) in Hin; [|done]. by exists p.
  - intros [p Hp]. exists (name, p). split; [done|]. by apply (enumerates_elem rng).
Qed.

(** A parser that was registered is found again under its name; registering
    leaves the other names as they were; registering a second parser under
    a name replaces the first; and [List] gives the registered names, each
    once: after a registration, the new name and the names that were
    there. *)
Theorem registry_register_then_get_and_list :
  forall (rng : RangeOrder) (r : gmap string Parser) (p : Parser),
    enumerates rng ->
    Get (Register r p) (pr_Name p) = Some p /\
    (forall name, name <> pr_Name p -> Get (Register r p) name = Get r name) /\
    (forall q, pr_Name q = pr_Name p -> Register (Register r p) q = Register r q) /\
    NoDup (List rng (Register r p)) /\
    (forall name, name ∈ List rng (Register r p) <-> name = pr_Name p \/ name ∈ List rng r) /\
    List rng NewParserRegistry = [].
Proof.
  intros rng r p Hrng. unfold Get, Register. split_and!.
  - apply lookup_insert_eq.
  - intros name Hne. by apply lookup_insert_ne.
  - intros q ->. apply insert_insert_eq.
  - rewrite List_keys, (Hrng _ _). apply NoDup_fst_map_to_list.
  - intros name. rewrite !List_elem by done.
    destruct (decide (name = pr_Name p)) as [->|Hne].
    + rewrite lookup_insert_eq. split; [by left|by eexists].
    + rewrite lookup_insert_ne by done. split; [by right|]. by intros [?|?].
  - rewrite List_keys. unfold NewParserRegistry.
    pose proof (Hrng Parser ∅) as Hperm. rewrite map_to_list_empty in Hperm.
    apply Permutation_nil_r in Hperm. by rewrite Hperm.
Qed.

Lemma registry_witness :
  Get (Register NewParserRegistry NewCobraParser) "cobra" = Some NewCobraParser /\
  List canonicalOrder (Register NewParserRegistry NewCobraParser) = ["cobra"].
Proof.
  destruct (registry_register_then_get_and_list canonicalOrder NewParserRegistry NewCobraParser)
    as (Hget & _).
  - intros A m. reflexivity.
  - split; [exact Hget|]. vm_compute. reflexivity.
Defined.

Lemma firstSupporting_result (parsers : list (string * Parser)) source :
  (forall p, firstSupporting parsers source = Ok p ->
     exists name, (name, p) ∈ parsers /\ pr_Supports p source = true) /\
  (forall e, firstSupporting parsers source = Err e ->
     e = ErrNoSuitableParser /\
     forall name p, (name, p) ∈ parsers -> pr_Supports p source = false) /\
  firstSupporting parsers source <> Panic.
Proof.
  induction parsers as [|[name0 p0] parsers (IHok & IHerr & IHpanic)]; simpl.
  - split_and!; [discriminate| |discriminate].
    intros e [= <-]. split; [done|]. intros ?? Hin. by apply elem_of_nil in Hin.
  - destruct (pr_Supports p0 source) eqn:Hsupports.
    + split_and!; [|discriminate|discriminate].
      intros p [= <-]. exists name0. split; [by left|done].
    + split_and!; [| |done].
      * intros p Hp. destruct (IHok p Hp) as (name & Hin & ?).
        exists name. split; [by right|done].
      * intros e He. destruct (IHerr e He) as [-> Hnone]. split; [done|].
        intros name p Hin. apply elem_of_cons in Hin as [[= -> ->]|Hin]; [done|].
        by apply (Hnone name).
Qed.

(** [FindParser] never panics. A parser it returns is registered and
    supports the source; it fails, with [ErrNoSuitableParser] and no other
    error, exactly when no registered parser supports the source; and when
    one registered parser alone supports the source, that parser is
    returned, in whatever order the registry is ranged over. *)
Theorem FindParser_returns_a_supporting_parser :
  forall (rng : RangeOrder) (r : gmap string Parser) (source : Source),
    enumerates rng ->
    FindParser rng r source <> Panic /\
    (forall p, FindParser rng r source = Ok p ->
       exists name, Get r name = Some p /\ pr_Supports p source = true) /\
    (forall e, FindParser rng r source = Err e -> e = ErrNoSuitableParser) /\
    (FindParser rng r source = Err ErrNoSuitableParser <->
     forall name p, Get r name = Some p -> pr_Supports p source = false) /\
    (forall name p,
       Get r name = Some p -> pr_Supports p source = true ->
       (forall name' p', Get r name' = Some p' -> pr_Supports p' source = true ->
                         name' = name) ->
       FindParser rng r source = Ok p).
Proof.
  intros rng r source Hrng. unfold FindParser, Get.
  destruct (firstSupporting_result (rng _ r) source) as (Hok & Herr & Hpanic).
  split_and!; [exact Hpanic| | | |].
  - intros p Hp. destruct (Hok p Hp) as (name & Hin & ?).
    exists name. split; [|done]. by apply (enumerates_elem rng) in Hin.
  - intros e He. by destruct (Herr e He).
  - split.
    + intros He name p Hp. destruct (Herr _ He) as [_ Hnone].
      apply (Hnone name). by apply (enumerates_elem rng).
    + intros Hnone. destruct (firstSupporting (rng _ r) source) as [p|e|] eqn:Hfind.
      * destruct (Hok p eq_refl) as (name & Hin & Hsupports).
        apply (enumerates_elem rng) in Hin; [|done].
        rewrite (Hnone name p Hin) in Hsupports. discriminate.
      * by destruct (Herr e eq_refl) as [-> _].
      * done.
  - intros name p Hp Hsupports Honly.
    destruct (firstSupporting (rng _ r) source) as [p'|e|] eqn:Hfind.
    + destruct (Hok p' eq_refl) as (name' & Hin & Hsupports').
      apply (enumerates_elem rng) in Hin; [|done].
      pose proof (Honly name' p' Hin Hsupports') as ->. congruence.
    + destruct (Herr e eq_refl) as [_ Hnone].
      rewrite (Hnone name p) in Hsupports; [discriminate|].
      by apply (enumerates_elem rng).
    + done.
Qed.

Lemma FindParser_witness :
  FindParser canonicalOrder (Register NewParserRegistry NewCobraParser)
             (SrcCommand testappTree) = Ok NewCobraParser.
Proof.
  refine (proj2 (proj2 (proj2 (proj2
            (FindParser_returns_a_supporting_parser canonicalOrder
               (Register NewParserRegistry NewCobraParser) (SrcCommand testappTree) _))))
            "cobra" NewCobraParser _ _ _).
  - intros A m. reflexivity.
  - reflexivity.
  - reflexivity.
  - intros name' p' Hget _. unfold Get, Register, NewParserRegistry in Hget.
    destruct (decide (name' = "cobra")) as [->|Hne]; [reflexivity|].
    rewrite lookup_insert_ne, lookup_empty in Hget by done. discriminate.
Defined.

(** ** The entry points *)

Lemma FindParser_default (rng : RangeOrder) source :
  enumerates rng ->
  FindParser rng (Register NewParserRegistry NewCobraParser) source
  = if Supports source then Ok NewCobraParser else Err ErrNoSuitableParser.
Proof.
  intros Hrng. unfold FindParser, Register, NewParserRegistry.
  pose proof (Hrng Parser (<[pr_Name NewCobraParser := NewCobraParser]> ∅)) as Hperm.
  rewrite insert_empty, map_to_list_singleton in Hperm.
  apply Permutation_singleton_r in Hperm. rewrite insert_empty, Hperm. reflexivity.
Qed.

(** With the registry that [New] sets up, [GoSpec.Convert] returns a
    document for every command tree, every options value and every order of
    ranging: the document that [Convert] makes of the model that [Parse]
    builds. For a source that is not a command it fails at the first step,
    with the error "failed to find parser" wrapping [ErrNoSuitableParser]:
    the extractor's own error for such a source is never reached. *)
Theorem gospec_Convert_with_the_default_registry :
  forall (rngF rngC : RangeOrder) (options : option ConvertOptions),
    enumerates rngF ->
    enumerates rngC ->
    (forall cmd : cobra.Command,
       exists parsed out,
         Parse (SrcCommand cmd) = Ok parsed /\
         converter.Convert rngC (Some parsed) options = Ok out /\
         gospec.Convert rngF (gospec.New rngC) (SrcCommand cmd) options
         = gospec.Returned out) /\
    gospec.Convert rngF (gospec.New rngC) SrcOther options
    = gospec.Failed (gospec.Wrapped "failed to find parser" ErrNoSuitableParser) /\
    gospec.wrapErrorText (gospec.Wrapped "failed to find parser" ErrNoSuitableParser)
    = "failed to find parser: no suitable parser found for source".
Proof.
  intros rngF rngC options HrngF HrngC. split_and!; [|by unfold gospec.Convert, gospec.New,
    gospec.NewWithRegistry; simpl; rewrite FindParser_default|reflexivity].
  intros cmd.
  destruct (Convert_spec rngC (parsedOf cmd) options HrngC (parsedOf_valid cmd))
    as (out & Hout & _).
  exists (parsedOf cmd), out. split_and!; [reflexivity|exact Hout|].
  unfold gospec.Convert, gospec.New, gospec.NewWithRegistry. simpl.
  rewrite FindParser_default by done. simpl.
  unfold parsedOf in Hout. simpl in Hout. by rewrite Hout.
Qed.

Lemma gospec_Convert_witness :
  exists out,
    gospec.Convert canonicalOrder (gospec.New canonicalOrder) (SrcCommand testappTree) None
    = gospec.Returned out.
Proof.
  destruct (gospec_Convert_with_the_default_registry canonicalOrder canonicalOrder None)
    as (Hreturns & _).
  - intros A m. reflexivity.
  - intros A m. reflexivity.
  - destruct (Hreturns testappTree) as (parsed & out & _ & _ & Hout). by exists out.
Defined.

(** [ParseWith] runs the parser registered under the name it is given, and
    passes that parser's result on unchanged, so a parser just registered is
    the one its name selects; under a name that is not registered it
    returns the plain error "parser '<name>' not found". With the registry
    of [New]: the name [cobra] gives the model of a command tree, and for a
    source that is not a command the extractor's error, which wraps
    [ErrInvalidSource]; every other name is not found. *)
Theorem ParseWith_selects_the_parser_by_name :
  forall (rng : RangeOrder) (g : gospec.GoSpec) (p : Parser) (source : Source)
         (name : string),
    gospec.ParseWith (gospec.RegisterParser g p) (pr_Name p) source = pr_Parse p source /\
    (gospec.GetParser g name = None ->
     gospec.ParseWith g name source
     = Err (errorString ("parser '" +:+ name +:+ "' not found"))) /\
    (forall cmd, gospec.ParseWith (gospec.New rng) "cobra" (SrcCommand cmd)
                 = Ok (Some (parsedOf cmd))) /\
    gospec.ParseWith (gospec.New rng) "cobra" SrcOther
    = Err (ParserError "source is not a *cobra.Command" (Some ErrInvalidSource)) /\
    (name <> "cobra" ->
     gospec.ParseWith (gospec.New rng) name source
     = Err (errorString ("parser '" +:+ name +:+ "' not found"))).
Proof.
  intros rng g p source name. unfold gospec.ParseWith, gospec.GetParser, Get. split_and!.
  - simpl. unfold Register. by rewrite lookup_insert_eq.
  - by intros ->.
  - intros cmd. reflexivity.
  - reflexivity.
  - intros Hne. simpl. unfold Register, NewParserRegistry.
    rewrite lookup_insert_ne, lookup_empty; [reflexivity|].
    intros Heq. apply Hne. symmetry. exact Heq.
Qed.

Lemma ParseWith_witness :
  gospec.ParseWith (gospec.New canonicalOrder) "urfave" (SrcCommand testappTree)
  = Err (errorString "parser 'urfave' not found").
Proof.
  refine (proj2 (proj2 (proj2 (proj2
            (ParseWith_selects_the_parser_by_name canonicalOrder
               (gospec.New canonicalOrder) NewCobraParser (SrcCommand testappTree)
               "urfave")))) _).
  discriminate.
Defined.

(** ** The extractor *)

(** In a tree of named commands every node's path is longer than the path
    it was built under. *)
Lemma paths_grow cmd :
  forall parentPath,
    Forall (fun c => cmd_Name c <> "") (commandsOf cmd) ->
    Forall (fun n => (String.length parentPath < String.length (ci_Path n))%nat)
           (nodes (parseNode cmd parentPath)).
Proof.
  induction cmd as [cmd IH] using Command_tree_ind.
  intros parentPath Hnamed.
  rewrite commandsOf_unfold in Hnamed. apply Forall_cons in Hnamed as [Hname Hsubs].
  assert (Hlen : (String.length parentPath
                  < String.length (buildPath (cmd_Name cmd) parentPath))%nat).
  { unfold buildPath, Strings.eqb. rewrite (bool_decide_eq_false_2 _ Hname). simpl.
    case_bool_decide as Hparent.
    - rewrite Hparent. destruct (cmd_Name cmd); [done|simpl; lia].
    - rewrite !length_append. simpl. lia. }
  rewrite nodes_unfold, parseNode_Subcommands. constructor.
  - by rewrite parseNode_Path.
  - revert Hlen. generalize (buildPath (cmd_Name cmd) parentPath). intros here Hlen.
    induction IH as [|sub subs Hsub _ IHsubs]; simpl in *; [constructor|].
    apply Forall_app in Hsubs as [Hs1 Hs2]. apply Forall_app. split; [|by apply IHsubs].
    eapply Forall_impl; [by apply Hsub|]. intros n Hn. simpl in Hn. lia.
Qed.

(** The outcomes of [Parse]. It returns a model for a command, panics on a
    [*cobra.Command] that is [nil], which [Supports] accepts like any other,
    and returns the error "source is not a *cobra.Command", whose cause is
    [ErrInvalidSource], exactly for the sources that [Supports] rejects. A
    model it returns has its root node, its metadata and the two framework
    entries; under the root's path the flat map holds a node of the tree
    that has that path, and this node is the root itself when every command
    below the root has a name. *)
Theorem Parse_outcome_follows_the_source :
  forall source : Source,
    ((exists parsed, Parse source = Ok parsed) <-> exists cmd, source = SrcCommand cmd) /\
    (Parse source = Panic <-> source = SrcNilCommand) /\
    (source = SrcNilCommand -> Supports source = true) /\
    (Supports source = false <->
     Parse source = Err (ParserError "source is not a *cobra.Command" (Some ErrInvalidSource))) /\
    (forall e, Parse source = Err e ->
       e = ParserError "source is not a *cobra.Command" (Some ErrInvalidSource)) /\
    Error (ParserError "source is not a *cobra.Command" (Some ErrInvalidSource))
    = "source is not a *cobra.Command: invalid source provided" /\
    (forall cmd parsed,
       source = SrcCommand cmd ->
       Parse source = Ok parsed ->
       exists rootInfo,
         RootCommand parsed = Some rootInfo /\
         ci_Name rootInfo = cmd_Name cmd /\
         (exists stored,
            Commands parsed !! ci_Path rootInfo = Some (Some stored) /\
            stored ∈ nodes rootInfo /\ ci_Path stored = ci_Path rootInfo) /\
         (Forall (fun c => cmd_Name c <> "") (flat_map commandsOf (cmd_Commands cmd)) ->
          Commands parsed !! ci_Path rootInfo = Some (Some rootInfo)) /\
         is_Some (Metadata parsed) /\
         FrameworkData parsed !! "framework" = Some "cobra" /\
         FrameworkData parsed !! "version" = Some "1.8.0").
Proof.
  intros [cmd| |]; simpl.
  - split_and!; [|split; discriminate|discriminate|split; discriminate|discriminate
                 |reflexivity|].
    { split; intros _; by eexists. }
    intros cmd' parsed [= <-] [= <-]. simpl. exists (parseNode cmd ""). split_and!.
    + reflexivity.
    + apply parseNode_Name.
    + destruct (parsed_commands cmd) as [Hdom Hlookup].
      assert (Hkey : is_Some (parseSubcommands (parseNode cmd "")
                                (<[ci_Path (parseNode cmd "") := Some (parseNode cmd "")]> ∅)
                              !! ci_Path (parseNode cmd ""))).
      { apply elem_of_dom. rewrite Hdom.
        apply elem_of_list_to_set, list_elem_of_fmap. exists (parseNode cmd "").
        split; [done|]. rewrite nodes_unfold. by left. }
      destruct Hkey as [p Hp].
      destruct (Hlookup _ _ Hp) as (stored & -> & Hstored & Hpath). by exists stored.
    + intros Hnamed. rewrite parseSubcommands_inserts, inserts_last.
      assert (Hbelow : filter (fun n => ci_Path n = ci_Path (parseNode cmd ""))
                         (flat_map nodes (ci_Subcommands (parseNode cmd ""))) = []).
      { apply filter_none. rewrite parseNode_Subcommands, parseNode_Path.
        generalize (buildPath (cmd_Name cmd) ""). intros here.
        induction (cmd_Commands cmd) as [|sub subs IHsubs]; simpl in *; [constructor|].
        apply Forall_app in Hnamed as [Hsub Hsubs]. apply Forall_app.
        split; [|by apply IHsubs].
        eapply Forall_impl; [by apply paths_grow|].
        intros n Hn Heq. simpl in Hn. rewrite Heq in Hn. lia. }
      rewrite Hbelow. simpl. apply lookup_insert_eq.
    + by eexists.
    + reflexivity.
    + reflexivity.
  - split_and!; [|done|done|split; discriminate|discriminate|reflexivity|discriminate].
    split; [intros [? ?]; discriminate|intros [? ?]; discriminate].
  - split_and!; [|split; discriminate|discriminate|done| |reflexivity|discriminate].
    + split; [intros [? ?]; discriminate|intros [? ?]; discriminate].
    + by intros e [= <-].
Qed.

(** The tree of the parser's test: the root is stored under [testapp]. *)
Lemma Parse_witness :
  exists rootInfo,
    RootCommand (parsedOf testappTree) = Some rootInfo /\
    Commands (parsedOf testappTree) !! "testapp" = Some (Some rootInfo).
Proof.
  destruct (proj2 (proj2 (proj2 (proj2 (proj2 (proj2
              (Parse_outcome_follows_the_source (SrcCommand testappTree)))))))
              testappTree (parsedOf testappTree) eq_refl eq_refl)
    as (rootInfo & Hroot & Hname & _ & Hstored & _).
  exists rootInfo. split; [exact Hroot|].
  injection Hroot as <-. apply Hstored. vm_compute. repeat constructor; discriminate.
Defined.

(** A command that declares a set of valid arguments gets one argument for
    each of them, in their order, whatever its validator: the argument of
    the value at index [i] bears the value as its name and as its only
    allowed value, is required, of type [string], at position [i + 1], with
    no occurrence counts; and its conversion is a required parameter of
    origin [argument], of that position, whose schema lists the one value,
    with no arity. *)
Theorem valid_arguments_become_one_argument_each :
  forall (cmd : cobra.Command) (validArgs : list string),
    cmd_ValidArgs cmd = Some validArgs ->
    validArgs <> [] ->
    length (parseArguments cmd) = length validArgs /\
    forall (i : nat) (value : string),
      validArgs !! i = Some value ->
      exists arg,
        parseArguments cmd !! i = Some (Some arg) /\
        arg = {| ai_Name := value; ai_Description := ""; ai_Position := Z.of_nat i + 1;
                 ai_Required := true; ai_Type := "string"; ai_MinArgs := 0;
                 ai_MaxArgs := 0; ai_ValidValues := [value] |} /\
        pa_In (convertArgument arg) = "argument" /\
        pa_Name (convertArgument arg) = value /\
        pa_Position (convertArgument arg) = Z.of_nat i + 1 /\
        pa_Required (convertArgument arg) = true /\
        pa_Schema (convertArgument arg)
        = Some {| sc_Type := "string"; sc_Enum := [value]; sc_Default := None |} /\
        pa_Arity (convertArgument arg) = None.
Proof.
  intros cmd validArgs Hvalid Hnonempty.
  assert (Hargs : parseArguments cmd
                  = imap (fun i validArg =>
                            Some {| ai_Name := validArg; ai_Description := "";
                                    ai_Position := Z.of_nat i + 1; ai_Required := true;
                                    ai_Type := "string"; ai_MinArgs := 0; ai_MaxArgs := 0;
                                    ai_ValidValues := [validArg] |}) validArgs).
  { unfold parseArguments. rewrite Hvalid. simpl.
    destruct validArgs as [|v vs]; [done|]. reflexivity. }
  rewrite Hargs. split; [apply length_imap|].
  intros i value Hvalue. eexists. split; [|split; [reflexivity|]].
  - rewrite list_lookup_imap, Hvalue. reflexivity.
  - by split_and!.
Qed.

(** A command that completes to [json] or [yaml] and takes one argument. *)
Lemma valid_arguments_witness :
  exists arg,
    parseArguments
      {| cmd_Use := "export"; cmd_Name := "export"; cmd_Short := ""; cmd_Long := "";
         cmd_Example := ""; cmd_Aliases := []; cmd_Version := ""; cmd_Hidden := false;
         cmd_Deprecated := ""; cmd_HasRun := true; cmd_Annotations := ∅;
         cmd_SuggestFor := []; cmd_ValidArgs := Some ["json"; "yaml"];
         cmd_Args := Some (ExactArgs 1); cmd_Flags := Some [];
         cmd_PersistentFlags := Some []; cmd_Parent := None; cmd_Commands := [] |} !! 1%nat
    = Some (Some arg) /\ ai_Name arg = "yaml" /\ ai_Position arg = 2.
Proof.
  destruct (valid_arguments_become_one_argument_each
              {| cmd_Use := "export"; cmd_Name := "export"; cmd_Short := ""; cmd_Long := "";
                 cmd_Example := ""; cmd_Aliases := []; cmd_Version := ""; cmd_Hidden := false;
                 cmd_Deprecated := ""; cmd_HasRun := true; cmd_Annotations := ∅;
                 cmd_SuggestFor := []; cmd_ValidArgs := Some ["json"; "yaml"];
                 cmd_Args := Some (ExactArgs 1); cmd_Flags := Some [];
                 cmd_PersistentFlags := Some []; cmd_Parent := None; cmd_Commands := [] |}
              ["json"; "yaml"])
    as (_ & Hargs).
  - reflexivity.
  - discriminate.
  - destruct (Hargs 1%nat "yaml") as (arg & Hlookup & -> & _); [reflexivity|].
    eexists. split; [exact Hlookup|]. split; reflexivity.
Defined.

(** The flat map that [Parse] builds holds, under each path, the last of the
    nodes of that path in the order of the walk (a node, then what is below
    it, then its next sibling): where several commands have one path, the
    later ones overwrite the earlier. So the map has at most as many entries
    as the tree has commands, and exactly as many when the paths of the
    nodes are all different. *)
Theorem flat_map_holds_the_last_node_of_each_path :
  forall cmd : cobra.Command,
    Parse (SrcCommand cmd) = Ok (parsedOf cmd) /\
    (forall path,
       Commands (parsedOf cmd) !! path
       = Some <$> last (filter (fun n => ci_Path n = path) (nodes (parseNode cmd "")))) /\
    (size (Commands (parsedOf cmd)) <= length (commandsOf cmd))%nat /\
    (NoDup (ci_Path <$> nodes (parseNode cmd "")) ->
     size (Commands (parsedOf cmd)) = length (commandsOf cmd)).
Proof.
  intros cmd.
  assert (Hmap : Commands (parsedOf cmd)
                 = fold_left (fun m n => <[ci_Path n := Some n]> m)
                             (nodes (parseNode cmd "")) ∅).
  { simpl. rewrite parseSubcommands_inserts. by rewrite (nodes_unfold (parseNode cmd "")). }
  assert (Hlen : length (nodes (parseNode cmd "")) = length (commandsOf cmd)).
  { rewrite <- (length_fmap ci_Name), nodes_parseNode_names. apply length_fmap. }
  split_and!; [reflexivity| | |].
  - intros path. rewrite Hmap, inserts_last, lookup_empty.
    by destruct (last _).
  - rewrite Hmap, <- Hlen. pose proof (inserts_size (nodes (parseNode cmd "")) ∅) as Hsize.
    by rewrite map_size_empty in Hsize.
  - intros Hnd. rewrite <- Hlen, <- (length_fmap ci_Path).
    rewrite <- (size_list_to_set (C := gset string)) by done.
    destruct (parsed_commands cmd) as [Hdom _]. rewrite <- Hdom. by rewrite size_dom.
Qed.

(** The tree of [testapp]: three commands of three paths, three entries. *)
Lemma flat_map_witness :
  size (Commands (parsedOf testappTree)) = 3%nat.
Proof.
  rewrite (proj2 (proj2 (proj2 (flat_map_holds_the_last_node_of_each_path testappTree)))).
  - reflexivity.
  - vm_compute. repeat constructor; set_solver.
Defined.

(** ** The converter *)

Lemma appendFlag_loop_references options scope (l : list (option FlagInfo)) :
  forall parameters result,
    foldRes (appendFlag options scope) l parameters = Ok result ->
    exists flags, l = Some <$> flags.
Proof.
  induction l as [|p l IH]; intros parameters result H; [by exists []|].
  cbn [foldRes] in H. destruct p as [flag|]; [|discriminate].
  unfold appendFlag at 1 in H. cbn [deref bindRes] in H.
  destruct (negb (IncludeHidden options) && fi_Hidden flag);
    cbn [bindRes] in H; destruct (IH _ _ H) as [flags ->]; by exists (flag :: flags).
Qed.

Lemma appendArgument_loop_references (l : list (option ArgumentInfo)) :
  forall parameters result,
    foldRes appendArgument l parameters = Ok result ->
    exists args, l = Some <$> args.
Proof.
  induction l as [|p l IH]; intros parameters result H; [by exists []|].
  cbn [foldRes] in H. destruct p as [arg|]; [|discriminate].
  unfold appendArgument at 1 in H. cbn [deref bindRes] in H.
  destruct (IH _ _ H) as [args ->]. by exists (arg :: args).
Qed.

(** A command that [convertCommand] returns, field by field. *)
Lemma convertCommand_result cmdInfo options command :
  convertCommand cmdInfo options = Ok command ->
  exists flags pflags args,
    ci_Flags cmdInfo = Some <$> flags /\
    ci_PersistentFlags cmdInfo = Some <$> pflags /\
    ci_Args cmdInfo = Some <$> args /\
    cm_Parameters command
    = ((fun flag => convertFlag flag "local")
       <$> filter (fun flag => IncludeHidden options || negb (fi_Hidden flag) = true) flags)
      ++ ((fun flag => convertFlag flag "inherited")
          <$> filter (fun flag => IncludeHidden options || negb (fi_Hidden flag) = true) pflags)
      ++ (convertArgument <$> args) /\
    cm_Hidden command = ci_Hidden cmdInfo /\
    cm_Deprecated command = negb (Strings.eqb (ci_Deprecated cmdInfo) "") /\
    cm_Responses command = (if InferResponses options then generateDefaultResponses else ∅) /\
    cm_OperationID command
    = (if GenerateOperationIDs options then generateOperationID cmdInfo else "").
Proof.
  unfold convertCommand. intros H.
  destruct (foldRes (appendFlag options "local") (ci_Flags cmdInfo) [])
    as [p1|e|] eqn:H1; cbn [bindRes] in H; try discriminate.
  destruct (foldRes (appendFlag options "inherited") (ci_PersistentFlags cmdInfo) p1)
    as [p2|e|] eqn:H2; cbn [bindRes] in H; try discriminate.
  destruct (foldRes appendArgument (ci_Args cmdInfo) p2)
    as [p3|e|] eqn:H3; cbn [bindRes] in H; try discriminate.
  destruct (appendFlag_loop_references _ _ _ _ _ H1) as [flags Hflags].
  destruct (appendFlag_loop_references _ _ _ _ _ H2) as [pflags Hpflags].
  destruct (appendArgument_loop_references _ _ _ H3) as [args Hargs].
  rewrite Hflags, appendFlag_loop in H1. injection H1 as <-.
  rewrite Hpflags, appendFlag_loop in H2. injection H2 as <-.
  rewrite Hargs, appendArgument_loop in H3. injection H3 as <-.
  injection H as <-. exists flags, pflags, args. simpl.
  split_and!; try done. by rewrite <- app_assoc.
Qed.

(** [convertCommand] returns a command exactly when no flag and no argument
    of its input is [nil], and panics otherwise. The parameters of the
    command it returns are, in this order: the local flags with scope
    [local], the persistent flags with scope [inherited], the arguments;
    each group in the order of the input; a hidden flag being left out
    unless hidden items are included, and no argument ever being left out. *)
Theorem convertCommand_lists_flags_then_inherited_flags_then_arguments :
  forall (cmdInfo : CommandInfo) (options : ConvertOptions),
    (commandValid (Some cmdInfo) = true <->
     exists command, convertCommand cmdInfo options = Ok command) /\
    (commandValid (Some cmdInfo) = false <-> convertCommand cmdInfo options = Panic) /\
    forall command,
      convertCommand cmdInfo options = Ok command ->
      exists flags pflags args,
        ci_Flags cmdInfo = Some <$> flags /\
        ci_PersistentFlags cmdInfo = Some <$> pflags /\
        ci_Args cmdInfo = Some <$> args /\
        cm_Parameters command
        = ((fun flag => convertFlag flag "local")
           <$> filter (fun flag => IncludeHidden options || negb (fi_Hidden flag) = true) flags)
          ++ ((fun flag => convertFlag flag "inherited")
              <$> filter (fun flag => IncludeHidden options || negb (fi_Hidden flag) = true)
                    pflags)
          ++ (convertArgument <$> args) /\
        (IncludeHidden options = true ->
         length (cm_Parameters command)
         = (length flags + length pflags + length args)%nat).
Proof.
  intros cmdInfo options.
  assert (Hiff : commandValid (Some cmdInfo) = true <->
                 exists command, convertCommand cmdInfo options = Ok command).
  { split; [apply convertCommand_valid|].
    intros [command Hcommand].
    destruct (convertCommand_result _ _ _ Hcommand)
      as (flags & pflags & args & Hf & Hp & Ha & _).
    simpl. by rewrite Hf, Hp, Ha, !noNil_Some. }
  split_and!; [exact Hiff| |].
  - pose proof (NoErr_convertCommand cmdInfo options) as Hno.
    destruct (commandValid (Some cmdInfo)) eqn:Hvalid.
    + destruct (proj1 Hiff eq_refl) as [command ->]. split; discriminate.
    + split; [intros _|done].
      destruct (convertCommand cmdInfo options) as [command|e|] eqn:Hc; [|done|done].
      assert (false = true) by (apply Hiff; by eexists). discriminate.
  - intros command Hcommand.
    destruct (convertCommand_result _ _ _ Hcommand)
      as (flags & pflags & args & Hf & Hp & Ha & Hparams & _).
    exists flags, pflags, args. split_and!; try done.
    intros Hall. rewrite Hparams, Hall, !length_app, !length_fmap.
    assert (Hkeep : forall l : list FlagInfo,
               filter (fun flag => true || negb (fi_Hidden flag) = true) l = l).
    { induction l as [|x l IH]; [done|]. by rewrite filter_cons, decide_True, IH. }
    rewrite !Hkeep. lia.
Qed.

Lemma convertCommand_witness :
  exists command,
    convertCommand (parseCommand sharedFlagCommand "") DefaultConvertOptions = Ok command.
Proof.
  apply (proj1 (proj1 (convertCommand_lists_flags_then_inherited_flags_then_arguments
                         (parseCommand sharedFlagCommand "") DefaultConvertOptions))).
  vm_compute. reflexivity.
Defined.

(** Of every document that [Convert] returns with hidden items not included:
    no command in it is hidden, and no parameter of any command in it is
    hidden; and with deprecated items not included, no command in it is
    deprecated. *)
Theorem no_hidden_item_reaches_the_document :
  forall (rng : RangeOrder) (parsed : ParsedCLI) (options : ConvertOptions)
         (out : OpenCLISpec),
    enumerates rng ->
    converter.Convert rng (Some parsed) (Some options) = Ok out ->
    (IncludeHidden options = false ->
     forall key command,
       os_Commands out !! key = Some command ->
       cm_Hidden command = false /\
       Forall (fun parameter => pa_Hidden parameter = false) (cm_Parameters command)) /\
    (IncludeDeprecated options = false ->
     forall key command,
       os_Commands out !! key = Some command -> cm_Deprecated command = false).
Proof.
  intros rng parsed options out Hrng Hout.
  destruct (Convert_commands rng parsed options out Hrng Hout) as [Hfrom _].
  split.
  - intros Hhide key command Hkey.
    destruct (Hfrom key command Hkey) as (path & cmdInfo & _ & Hskip & _ & Hcommand).
    destruct (convertCommand_result _ _ _ Hcommand)
      as (flags & pflags & args & _ & _ & _ & Hparams & Hhidden & _).
    split.
    + rewrite Hhidden. unfold skipped in Hskip. rewrite Hhide in Hskip.
      by destruct (ci_Hidden cmdInfo).
    + rewrite Hparams, Hhide. rewrite !Forall_app. split_and!.
      * apply Forall_fmap, Forall_forall. intros flag Hflag.
        apply list_elem_of_filter in Hflag as [Hvisible _]. simpl in *.
        by destruct (fi_Hidden flag).
      * apply Forall_fmap, Forall_forall. intros flag Hflag.
        apply list_elem_of_filter in Hflag as [Hvisible _]. simpl in *.
        by destruct (fi_Hidden flag).
      * apply Forall_fmap, Forall_forall. by intros arg _.
  - intros Hdrop key command Hkey.
    destruct (Hfrom key command Hkey) as (path & cmdInfo & _ & Hskip & _ & Hcommand).
    destruct (convertCommand_result _ _ _ Hcommand)
      as (flags & pflags & args & _ & _ & _ & _ & _ & Hdeprecated & _).
    rewrite Hdeprecated. unfold skipped in Hskip. rewrite Hdrop in Hskip.
    destruct (ci_Hidden cmdInfo), (IncludeHidden options); simpl in Hskip;
      by destruct (negb (Strings.eqb (ci_Deprecated cmdInfo) "")).
Qed.

Lemma no_hidden_item_witness :
  exists out,
    converter.Convert canonicalOrder (Some (parsedOf hiddenTree)) (Some DefaultConvertOptions)
    = Ok out /\
    forall key command, os_Commands out !! key = Some command -> cm_Hidden command = false.
Proof.
  destruct (Convert_spec canonicalOrder (parsedOf hiddenTree) (Some DefaultConvertOptions)
              canonicalOrder_enumerates (parsedOf_valid hiddenTree)) as (out & Hout & _).
  exists out. split; [exact Hout|].
  intros key command Hkey.
  refine (proj1 (proj1 (no_hidden_item_reaches_the_document canonicalOrder
                   (parsedOf hiddenTree) DefaultConvertOptions out _ Hout) _ key command Hkey)).
  - intros A m. reflexivity.
  - reflexivity.
Defined.

Lemma toLowerByte_idempotent (c : ascii) :
  Strings.toLowerByte (Strings.toLowerByte c) = Strings.toLowerByte c.
Proof. destruct c as [[] [] [] [] [] [] [] []]; reflexivity. Qed.

Lemma ToLower_idempotent (s : string) :
  Strings.ToLower (Strings.ToLower s) = Strings.ToLower s.
Proof.
  induction s as [|c s IH]; [reflexivity|].
  simpl. by rewrite toLowerByte_idempotent, IH.
Qed.

(** [mapTypeToSchemaType] answers with one of five schema types whatever
    type name it is given, and does not tell the cases of letters apart; so
    the schema of every converted flag and argument has one of the five
    types. *)
Theorem mapTypeToSchemaType_yields_one_of_five_types :
  forall typeName : string,
    mapTypeToSchemaType typeName ∈ ["boolean"; "integer"; "number"; "string"; "array"] /\
    mapTypeToSchemaType (Strings.ToLower typeName) = mapTypeToSchemaType typeName /\
    (forall defaultValue validValues,
       sc_Type (createSchema typeName defaultValue validValues)
       ∈ ["boolean"; "integer"; "number"; "string"; "array"]) /\
    (forall (flag : FlagInfo) (scope : string),
       exists schema,
         pa_Schema (convertFlag flag scope) = Some schema /\
         sc_Type schema ∈ ["boolean"; "integer"; "number"; "string"; "array"]).
Proof.
  assert (Hfive : forall t, mapTypeToSchemaType t
                            ∈ ["boolean"; "integer"; "number"; "string"; "array"]).
  { intros t. unfold mapTypeToSchemaType.
    repeat (case_bool_decide; [apply list_elem_of_In; simpl; tauto|]).
    apply list_elem_of_In; simpl; tauto. }
  intros typeName. split_and!.
  - apply Hfive.
  - unfold mapTypeToSchemaType. by rewrite ToLower_idempotent.
  - intros. apply Hfive.
  - intros flag scope. eexists. split; [reflexivity|]. apply Hfive.
Qed.

(** The fields of a document that [Convert] returns, other than its commands
    and components. *)
Lemma Convert_fields (rng : RangeOrder) parsed options out :
  converter.Convert rng (Some parsed) (Some options) = Ok out ->
  exists md info,
    Metadata parsed = Some md /\
    convertInfo (Some md) options = Ok info /\
    os_Info out = info /\
    os_OpenCLI out = SpecVersion options /\
    os_Tags out = convertTags (md_Tags md) /\
    os_Environment out = convertEnvironment (md_EnvVars md) /\
    os_Platforms out = convertPlatforms (md_Platforms md) /\
    (ExtractComponents options = false -> os_Components out = None) /\
    (ExtractComponents options = true -> is_Some (os_Components out)).
Proof.
  intros Hout. unfold converter.Convert in Hout.
  change (default DefaultConvertOptions (Some options)) with options in Hout.
  destruct (Metadata parsed) as [md|] eqn:Hmd.
  2:{ destruct (convertInfo None options); cbn [bindRes deref] in Hout; discriminate. }
  destruct (convertInfo (Some md) options) as [info|e|] eqn:Hinfo;
    cbn [bindRes deref] in Hout; try discriminate.
  destruct (foldRes (convertEntry options) (rng _ (Commands parsed)) ∅)
    as [commands|e|]; cbn [bindRes] in Hout; try discriminate.
  assert (Hlists : forall {A B} (f : list A -> list B) (l : list A),
             f [] = [] -> (if 0 <? Z.of_nat (length l) then f l else []) = f l).
  { intros A B f l Hnil. destruct l; [by rewrite Hnil|reflexivity]. }
  exists md, info.
  destruct (ExtractComponents options).
  - destruct (extractComponents rng parsed options) as [components|e|];
      cbn [bindRes] in Hout; try discriminate.
    injection Hout as <-. simpl. rewrite !Hlists by reflexivity.
    by split_and!.
  - cbn [bindRes] in Hout. injection Hout as <-. simpl. rewrite !Hlists by reflexivity.
    by split_and!.
Qed.

(** The loop of [extractMetadata] ends at a command that has no parent. *)
Lemma topmost_root : forall cmd : cobra.Command, cmd_Parent (topmost cmd) = None.
Proof.
  fix IH 1. intros cmd.
  destruct cmd as [? ? ? ? ? ? ? ? ? ? ? ? ? ? ? ? parent ?].
  destruct parent as [parent|]; simpl; [apply IH|reflexivity].
Qed.

(** The global information of a document made from the model of a command.
    The metadata are read from the topmost ancestor of the command that
    [Parse] is handed: the command itself when it has no parent, and
    otherwise the command without a parent that is reached by going from
    parent to parent. With a custom info in the options, the document
    carries it as it is. Without one, the title, version and description
    are that ancestor's name, version and long text; there is a contact
    exactly when its annotations give a non-empty author or homepage, and a
    licence exactly when they give a non-empty licence. The extractor fills
    in no tags, no environment variables and no platforms, so such a
    document has none; its version tag is the options' spec version. *)
Theorem document_info_comes_from_the_root_command :
  forall (rng : RangeOrder) (cmd : cobra.Command) (options : ConvertOptions)
         (out : OpenCLISpec),
    converter.Convert rng (Some (parsedOf cmd)) (Some options) = Ok out ->
    (cmd_Parent cmd = None -> topmost cmd = cmd) /\
    (forall parent, cmd_Parent cmd = Some parent -> topmost cmd = topmost parent) /\
    cmd_Parent (topmost cmd) = None /\
    (forall custom, CustomInfo options = Some custom -> os_Info out = custom) /\
    (CustomInfo options = None ->
     in_Title (os_Info out) = cmd_Name (topmost cmd) /\
     in_Version (os_Info out) = cmd_Version (topmost cmd) /\
     in_Description (os_Info out) = cmd_Long (topmost cmd) /\
     (is_Some (in_Contact (os_Info out)) <->
      default "" (cmd_Annotations (topmost cmd) !! "author") <> "" \/
      default "" (cmd_Annotations (topmost cmd) !! "homepage") <> "") /\
     (forall contact, in_Contact (os_Info out) = Some contact ->
        ct_Name contact = default "" (cmd_Annotations (topmost cmd) !! "author") /\
        ct_URL contact = default "" (cmd_Annotations (topmost cmd) !! "homepage")) /\
     (is_Some (in_License (os_Info out)) <->
      default "" (cmd_Annotations (topmost cmd) !! "license") <> "")) /\
    os_OpenCLI out = SpecVersion options /\
    os_Tags out = [] /\ os_Environment out = [] /\ os_Platforms out = [].
Proof.
  intros rng cmd options out Hout.
  destruct (Convert_fields rng _ _ _ Hout)
    as (md & info & Hmd & Hinfo & Hi & Hversion & Htags & Henv & Hplat & _).
  simpl in Hmd. injection Hmd as <-. rewrite Hi.
  split_and!; [| |apply topmost_root| | |exact Hversion|exact Htags|exact Henv|exact Hplat].
  - destruct cmd; simpl. by intros ->.
  - intros parent. destruct cmd; simpl. by intros ->.
  - intros custom Hcustom. unfold convertInfo in Hinfo. rewrite Hcustom in Hinfo.
    by injection Hinfo as <-.
  - intros Hnone. unfold convertInfo in Hinfo. rewrite Hnone in Hinfo.
    cbn [deref bindRes] in Hinfo. injection Hinfo as <-.
    unfold extractMetadata. cbn [md_Name md_Version md_Description md_Author md_License
                                 md_Homepage in_Title in_Version in_Description
                                 in_Contact in_License].
    generalize (topmost cmd). intros root.
    unfold Strings.eqb. split_and!; try reflexivity.
    + repeat case_bool_decide; simpl; split;
        try (intros [? ?]; discriminate); try (intros _; by eexists); try tauto;
        intros [?|?]; done.
    + intros contact. repeat case_bool_decide; simpl; intros [= <-]; done.
    + case_bool_decide; simpl; split;
        try (intros [? ?]; discriminate); try (intros _; by eexists); done.
Qed.

(** The command [user] handed to [Parse] after it was added to [testapp]:
    the document is titled [testapp], with the version of [testapp]. *)
Lemma document_info_witness :
  exists out,
    converter.Convert canonicalOrder (Some (parsedOf attachedCommand))
      (Some DefaultConvertOptions) = Ok out /\
    in_Title (os_Info out) = "testapp" /\
    in_Version (os_Info out) = "2.1.0" /\
    os_Tags out = [].
Proof.
  destruct (Convert_spec canonicalOrder (parsedOf attachedCommand)
              (Some DefaultConvertOptions)
              canonicalOrder_enumerates (parsedOf_valid attachedCommand))
    as (out & Hout & _).
  exists out. split; [exact Hout|].
  destruct (document_info_comes_from_the_root_command canonicalOrder attachedCommand
              DefaultConvertOptions out Hout)
    as (_ & _ & _ & _ & Hderived & _ & Htags & _).
  destruct (Hderived eq_refl) as (Htitle & Hversion & _).
  split_and!; [exact Htitle|exact Hversion|exact Htags].
Defined.

(** Every command of a document that [Convert] returns follows the options:
    it has the two responses [0] and [1] when responses are inferred and no
    response otherwise; it has an operation identifier that ends in
    [Command] when identifiers are generated, and the empty identifier
    otherwise. *)
Theorem commands_of_the_document_follow_the_options :
  forall (rng : RangeOrder) (parsed : ParsedCLI) (options : ConvertOptions)
         (out : OpenCLISpec),
    enumerates rng ->
    converter.Convert rng (Some parsed) (Some options) = Ok out ->
    forall key command,
      os_Commands out !! key = Some command ->
      (InferResponses options = true -> dom (cm_Responses command) = {["0"; "1"]}) /\
      (InferResponses options = false -> cm_Responses command = ∅) /\
      (GenerateOperationIDs options = true ->
       exists stem, cm_OperationID command = stem +:+ "Command") /\
      (GenerateOperationIDs options = false -> cm_OperationID command = "").
Proof.
  intros rng parsed options out Hrng Hout key command Hkey.
  destruct (Convert_commands rng parsed options out Hrng Hout) as [Hfrom _].
  destruct (Hfrom key command Hkey) as (path & cmdInfo & _ & _ & _ & Hcommand).
  destruct (convertCommand_result _ _ _ Hcommand)
    as (flags & pflags & args & _ & _ & _ & _ & _ & _ & Hresponses & Hid).
  rewrite Hresponses, Hid. split_and!.
  - intros ->. unfold generateDefaultResponses.
    rewrite !dom_insert_L, dom_empty_L. set_solver.
  - by intros ->.
  - intros ->.
    destruct (generateOperationID_never_takes_the_constant_branch cmdInfo)
      as (first & rest & Hparts).
    unfold generateOperationID. rewrite Hparts. by eexists.
  - by intros ->.
Qed.

Lemma commands_follow_the_options_witness :
  exists out,
    converter.Convert canonicalOrder (Some (parsedOf testappTree)) (Some DefaultConvertOptions)
    = Ok out /\
    forall key command,
      os_Commands out !! key = Some command -> dom (cm_Responses command) = {["0"; "1"]}.
Proof.
  destruct (Convert_spec canonicalOrder (parsedOf testappTree) (Some DefaultConvertOptions)
              canonicalOrder_enumerates (parsedOf_valid testappTree)) as (out & Hout & _).
  exists out. split; [exact Hout|]. intros key command Hkey.
  refine (proj1 (commands_of_the_document_follow_the_options canonicalOrder
                   (parsedOf testappTree) DefaultConvertOptions out _ Hout key command Hkey) _).
  - intros A m. reflexivity.
  - reflexivity.
Defined.

Lemma countFlag_loop_source (l : list (option FlagInfo)) :
  forall (tables tables' : gmap string Z * gmap string FlagInfo),
    foldRes countFlag l tables = Ok tables' ->
    forall name flag,
      snd tables' !! name = Some flag ->
      snd tables !! name = Some flag \/ (Some flag ∈ l /\ fi_Name flag = name).
Proof.
  induction l as [|p l IH]; intros tables tables' H name flag Hflag.
  - injection H as <-. by left.
  - cbn [foldRes] in H. destruct p as [f|]; destruct tables as [paramCounts paramMap];
      cbn [countFlag deref bindRes] in H; [|discriminate].
    destruct (IH _ _ H name flag Hflag) as [Hold|[Hin Hname]].
    + simpl in Hold. destruct (_ =? 1); [|by left].
      destruct (decide (fi_Name f = name)) as [Heq|Hne].
      * rewrite <- Heq, lookup_insert_eq in Hold. injection Hold as <-.
        right. split; [by left|done].
      * rewrite lookup_insert_ne in Hold by done. by left.
    + right. split; [by right|done].
Qed.

Lemma countCommand_loop_source (entries : list (string * option CommandInfo)) :
  forall (tables tables' : gmap string Z * gmap string FlagInfo),
    foldRes countCommand entries tables = Ok tables' ->
    forall name flag,
      snd tables' !! name = Some flag ->
      snd tables !! name = Some flag \/
      exists path cmdInfo,
        (path, Some cmdInfo) ∈ entries /\ Some flag ∈ ci_Flags cmdInfo /\ fi_Name flag = name.
Proof.
  induction entries as [|[path p] entries IH]; intros tables tables' H name flag Hflag.
  - injection H as <-. by left.
  - cbn [foldRes] in H. unfold countCommand at 1 in H. cbn [snd] in H.
    destruct p as [cmdInfo|]; cbn [deref bindRes] in H; [|discriminate].
    destruct (foldRes countFlag (ci_Flags cmdInfo) tables) as [tables1|e|] eqn:Hflags;
      cbn [bindRes] in H; try discriminate.
    destruct (IH _ _ H name flag Hflag) as [Hold|(path' & ci' & Hin & ?)].
    + destruct (countFlag_loop_source _ _ _ Hflags name flag Hold) as [?|[Hin Hname]];
        [by left|].
      right. exists path, cmdInfo. split; [by left|done].
    + right. exists path', ci'. split; [by right|done].
Qed.

Lemma liftParameter_loop_source (paramMap : gmap string FlagInfo)
    (counts : list (string * Z)) :
  forall parameters0 parameters : gmap string Parameter_,
    foldRes (liftParameter paramMap) counts parameters0 = Ok parameters ->
    forall name parameter,
      parameters !! name = Some parameter ->
      parameters0 !! name = Some parameter \/
      exists flag, paramMap !! name = Some flag /\ parameter = convertFlag flag "local".
Proof.
  induction counts as [|[name0 count0] counts IH]; intros parameters0 parameters H name
    parameter Hp.
  - injection H as <-. by left.
  - cbn [foldRes] in H. unfold liftParameter at 1 in H.
    destruct (1 <? count0).
    + destruct (paramMap !! name0) as [flag|] eqn:Hflag; cbn [deref bindRes] in H;
        [|discriminate].
      destruct (IH _ _ H name parameter Hp) as [Hold|?]; [|by right].
      destruct (decide (name0 = name)) as [<-|Hne].
      * rewrite lookup_insert_eq in Hold. injection Hold as <-. right. by exists flag.
      * rewrite lookup_insert_ne in Hold by done. by left.
    + cbn [bindRes] in H. by apply (IH _ _ H).
Qed.

(** Every parameter that [extractComponents] puts in the shared table is the
    conversion, with scope [local], of a local flag of some command of the
    model, a flag of the name the parameter is stored under; the flag is
    taken as it is, hidden or not, from a command skipped or not. *)
Theorem shared_parameters_are_local_flags_of_the_model :
  forall (rng : RangeOrder) (parsed : ParsedCLI) (options : ConvertOptions)
         (components : Components),
    enumerates rng ->
    extractComponents rng parsed options = Ok components ->
    forall name parameter,
      cp_Parameters components !! name = Some parameter ->
      exists path cmdInfo flag,
        Commands parsed !! path = Some (Some cmdInfo) /\
        Some flag ∈ ci_Flags cmdInfo /\
        fi_Name flag = name /\
        parameter = convertFlag flag "local" /\
        pa_Name parameter = name /\
        pa_Hidden parameter = fi_Hidden flag.
Proof.
  intros rng parsed options components Hrng H name parameter Hp.
  unfold extractComponents in H.
  destruct (foldRes countCommand (rng _ (Commands parsed)) (∅, ∅))
    as [tables|e|] eqn:Hcount; cbn [bindRes] in H; try discriminate.
  destruct (foldRes (liftParameter (snd tables)) (rng _ (fst tables)) ∅)
    as [parameters|e|] eqn:Hlift; cbn [bindRes] in H; try discriminate.
  injection H as <-. simpl in Hp.
  destruct (liftParameter_loop_source _ _ _ _ Hlift name parameter Hp)
    as [Hold|(flag & Hflag & ->)].
  { by rewrite lookup_empty in Hold. }
  destruct (countCommand_loop_source _ _ _ Hcount name flag Hflag)
    as [Hold|(path & cmdInfo & Hin & Hmember & Hname)].
  { simpl in Hold. by rewrite lookup_empty in Hold. }
  exists path, cmdInfo, flag. split_and!; try done.
  by apply (enumerates_elem rng) in Hin.
Qed.

Lemma shared_parameters_witness :
  exists components parameter,
    extractComponents canonicalOrder repeatedFlagCLI DefaultConvertOptions = Ok components /\
    cp_Parameters components !! "force" = Some parameter /\
    pa_Name parameter = "force".
Proof.
  assert (H : exists components parameter,
             extractComponents canonicalOrder repeatedFlagCLI DefaultConvertOptions
             = Ok components /\
             cp_Parameters components !! "force" = Some parameter).
  { eexists _, _. split; vm_compute; reflexivity. }
  destruct H as (components & parameter & Hcomponents & Hp).
  exists components, parameter. split_and!; [done|done|].
  destruct (shared_parameters_are_local_flags_of_the_model canonicalOrder repeatedFlagCLI
              DefaultConvertOptions components canonicalOrder_enumerates Hcomponents
              "force" parameter Hp)
    as (path & cmdInfo & flag & _ & _ & _ & _ & Hname & _).
  exact Hname.
Defined.


(** ** Witnesses of the properties of the two stages together *)

Lemma paths_joined_witness : PathsJoined (parseNode testappTree "").
Proof.
  apply paths_joined_when_named. vm_compute. repeat constructor; discriminate.
Defined.

Lemma keys_of_named_trees_witness :
  exists out,
    converter.Convert canonicalOrder (Some (parsedOf testappTree)) (Some DefaultConvertOptions)
    = Ok out /\
    is_Some (os_Commands out !! "/testapp/user").
Proof.
  destruct (keys_of_named_trees canonicalOrder testappTree DefaultConvertOptions)
    as (out & Hout & Hkeys).
  - intros A m. reflexivity.
  - vm_compute. repeat constructor; discriminate.
  - reflexivity.
  - exists out. split; [exact Hout|].
    destruct (Hkeys "testapp/user"
                (parseNode (plainCommand "user" [plainCommand "create" []]) "testapp"))
      as [(Heq & _)|(_ & Hkey)].
    + vm_compute. reflexivity.
    + reflexivity.
    + discriminate.
    + exact Hkey.
Defined.

Lemma components_witness :
  exists out components,
    converter.Convert canonicalOrder (Some repeatedFlagCLI) (Some DefaultConvertOptions)
    = Ok out /\
    os_Components out = Some components /\
    dom (cp_Responses components) = {["Success"; "Error"]}.
Proof.
  destruct (components_hold_the_names_that_occur_more_than_once canonicalOrder
              repeatedFlagCLI DefaultConvertOptions)
    as (out & components & Hout & Hcomps & _ & _ & _ & Hresponses).
  - intros A m. reflexivity.
  - split; [by eexists|]. apply map_Forall_to_list. vm_compute. repeat constructor.
  - reflexivity.
  - exists out, components. split; [exact Hout|]. split; [exact Hcomps|exact Hresponses].
Defined.

Lemma components_of_parsed_trees_witness :
  exists out components,
    converter.Convert canonicalOrder (Some (parsedOf sharedFlagCommand))
                      (Some DefaultConvertOptions) = Ok out /\
    os_Components out = Some components /\
    cp_Parameters components !! "config" = None.
Proof.
  destruct (components_of_parsed_trees canonicalOrder sharedFlagCommand DefaultConvertOptions)
    as (out & components & Hout & Hcomps & Hlifted).
  - intros A m. reflexivity.
  - reflexivity.
  - vm_compute. repeat constructor; set_solver.
  - exists out, components. split_and!; [done|done|].
    destruct (cp_Parameters components !! "config") as [parameter|] eqn:Hp; [|done].
    assert (Hmore : (1 < length (commandsDeclaring "config" (parsedOf sharedFlagCommand)))%nat).
    { apply Hlifted. by eexists. }
    vm_compute in Hmore. lia.
Defined.


(** ** More of the extractor *)

Lemma Lookup_member (pfs : list Flag) (pflag : Flag) :
  pflag ∈ pfs -> is_Some (Lookup pfs (fl_Name pflag)).
Proof.
  intros Hin. unfold Lookup.
  destruct (find _ pfs) as [found|] eqn:Hfind; [by eexists|].
  apply list_elem_of_In in Hin.
  pose proof (find_none _ _ Hfind _ Hin) as Hno. simpl in Hno.
  unfold Strings.eqb in Hno. by rewrite bool_decide_eq_true_2 in Hno.
Qed.

(** The flags of a node. Every flag of the command's persistent set is
    recorded as a persistent flag, in the order of the set, marked as
    persistent; the local flags recorded are marked as not persistent, and
    a flag of the command's own set is among them whenever it is marked as
    changed or the persistent set has no flag of its name. When no flag of
    the command is marked as changed, no name is recorded both as a local
    and as a persistent flag. *)
Theorem flags_of_a_node_are_partitioned :
  forall (cmd : cobra.Command) (parentPath : string),
    ci_PersistentFlags (parseCommand cmd parentPath)
    = (fun flag => Some (parseFlag flag true)) <$> default [] (cmd_PersistentFlags cmd) /\
    (forall fi, Some fi ∈ ci_PersistentFlags (parseCommand cmd parentPath) ->
                fi_Persistent fi = true) /\
    (forall fi, Some fi ∈ ci_Flags (parseCommand cmd parentPath) ->
                fi_Persistent fi = false) /\
    (forall flag,
       flag ∈ default [] (cmd_Flags cmd) ->
       fl_Changed flag = true \/
       Lookup (default [] (cmd_PersistentFlags cmd)) (fl_Name flag) = None ->
       Some (parseFlag flag false) ∈ ci_Flags (parseCommand cmd parentPath)) /\
    (Forall (fun flag => fl_Changed flag = false) (default [] (cmd_Flags cmd)) ->
     forall fi pi,
       Some fi ∈ ci_Flags (parseCommand cmd parentPath) ->
       Some pi ∈ ci_PersistentFlags (parseCommand cmd parentPath) ->
       fi_Name fi <> fi_Name pi).
Proof.
  intros cmd parentPath.
  rewrite parseCommand_local_flags, parseCommand_persistent_flags.
  rewrite <- !list_fmap_compose. split_and!.
  - reflexivity.
  - intros fi Hfi. apply list_elem_of_fmap in Hfi as (flag & [= ->] & _). reflexivity.
  - intros fi Hfi. apply list_elem_of_fmap in Hfi as (flag & [= ->] & _). reflexivity.
  - intros flag Hflag Hkept. apply list_elem_of_fmap. exists flag. split; [done|].
    apply list_elem_of_filter. split; [|done]. unfold shadowed.
    destruct Hkept as [->|Hnone]; [reflexivity|].
    destruct (cmd_PersistentFlags cmd) as [pfs|]; [|by destruct (fl_Changed flag)].
    simpl in Hnone. rewrite Hnone. by destruct (fl_Changed flag).
  - intros Hunchanged fi pi Hfi Hpi Hname.
    apply list_elem_of_fmap in Hfi as (flag & [= ->] & Hflag).
    apply list_elem_of_fmap in Hpi as (pflag & [= ->] & Hpflag).
    apply list_elem_of_filter in Hflag as [Hkept Hflag].
    rewrite Forall_forall in Hunchanged. specialize (Hunchanged flag Hflag).
    unfold shadowed in Hkept. rewrite Hunchanged in Hkept.
    destruct (cmd_PersistentFlags cmd) as [pfs|]; [|by apply elem_of_nil in Hpflag].
    simpl in Hkept, Hpflag, Hname. apply bool_decide_eq_false in Hkept. apply Hkept.
    rewrite Hname. by apply Lookup_member.
Qed.

(** The flag [config] of both sets of a command, unchanged: it is recorded
    as a persistent flag and not as a local one. *)
Lemma flags_partition_witness :
  Forall (fun flag => fl_Changed flag = false) (default [] (cmd_Flags sharedFlagCommand)) /\
  Some (parseFlag (plainFlag "config" false false) true)
    ∈ ci_PersistentFlags (parseCommand sharedFlagCommand "") /\
  Some (parseFlag (plainFlag "config" false false) false)
    ∉ ci_Flags (parseCommand sharedFlagCommand "").
Proof.
  assert (Hunchanged : Forall (fun flag => fl_Changed flag = false)
                         (default [] (cmd_Flags sharedFlagCommand))).
  { vm_compute. repeat constructor. }
  assert (Hpersistent : Some (parseFlag (plainFlag "config" false false) true)
                          ∈ ci_PersistentFlags (parseCommand sharedFlagCommand "")).
  { rewrite (proj1 (flags_of_a_node_are_partitioned sharedFlagCommand "")).
    simpl. apply list_elem_of_here. }
  split_and!; [exact Hunchanged|exact Hpersistent|].
  intros Hlocal.
  exact (proj2 (proj2 (proj2 (proj2
           (flags_of_a_node_are_partitioned sharedFlagCommand ""))))
           Hunchanged _ _ Hlocal Hpersistent eq_refl).
Defined.

Lemma Split_length (s : string) (sep : ascii) :
  length (Strings.Split s sep) = S (countByte sep s).
Proof.
  induction s as [|c s IH]; [reflexivity|].
  simpl. destruct (Strings.eqb_ascii c sep); simpl; [by rewrite IH|].
  destruct (Strings.Split s sep) as [|piece pieces]; simpl in *; lia.
Qed.

Lemma TrimSpaceRight_idempotent (s : string) :
  Strings.TrimSpaceRight (Strings.TrimSpaceRight s) = Strings.TrimSpaceRight s.
Proof.
  induction s as [|c s IH]; [reflexivity|].
  simpl. destruct (Strings.TrimSpaceRight s) as [|c' r] eqn:Hr.
  - destruct (Strings.isSpace c) eqn:Hc; [reflexivity|]. simpl. by rewrite Hc.
  - simpl. simpl in IH. by rewrite IH.
Qed.

Lemma TrimSpaceLeft_head (s : string) :
  match Strings.TrimSpaceLeft s with
  | EmptyString => True
  | String c _ => Strings.isSpace c = false
  end.
Proof.
  induction s as [|c s IH]; [done|].
  simpl. by destruct (Strings.isSpace c) eqn:Hc.
Qed.

Lemma TrimSpaceRight_head (s : string) :
  match s with
  | EmptyString => True
  | String c _ => Strings.isSpace c = false
  end ->
  Strings.TrimSpaceLeft (Strings.TrimSpaceRight s) = Strings.TrimSpaceRight s.
Proof.
  destruct s as [|c s]; [done|]. intros Hc. simpl.
  destruct (Strings.TrimSpaceRight s); rewrite ?Hc; simpl; by rewrite ?Hc.
Qed.

Lemma TrimSpace_idempotent (s : string) :
  Strings.TrimSpace (Strings.TrimSpace s) = Strings.TrimSpace s.
Proof.
  unfold Strings.TrimSpace.
  rewrite (TrimSpaceRight_head _ (TrimSpaceLeft_head s)).
  apply TrimSpaceRight_idempotent.
Qed.

Lemma eqb_ascii_refl (c : ascii) : Strings.eqb_ascii c c = true.
Proof. apply N.eqb_refl. Qed.

Lemma Split_plain (s : string) (sep : ascii) :
  countByte sep s = 0%nat -> Strings.Split s sep = [s].
Proof.
  induction s as [|c s IH]; [reflexivity|]. simpl.
  destruct (Strings.eqb_ascii c sep); [discriminate|]. simpl. intros Hs.
  by rewrite (IH Hs).
Qed.

Lemma Split_append (s r : string) (sep : ascii) :
  countByte sep s = 0%nat ->
  Strings.Split (s +:+ String sep r) sep = s :: Strings.Split r sep.
Proof.
  induction s as [|c s IH].
  - intros _. change ("" +:+ String sep r) with (String sep r).
    cbn [Strings.Split]. by rewrite eqb_ascii_refl.
  - change (String c s +:+ String sep r) with (String c (s +:+ String sep r)).
    cbn [Strings.Split countByte].
    destruct (Strings.eqb_ascii c sep); [discriminate|]. simpl. intros Hs.
    by rewrite (IH Hs).
Qed.

(** Tags written with [strings.Join(tags, ", ")] are read back as they
    were, when none of them has a comma or white space at an end. *)
Lemma tags_read_back (tags : list string) :
  tags <> [] ->
  Forall (fun tag => countByte ","%char tag = 0%nat /\ Strings.TrimSpace tag = tag) tags ->
  map Strings.TrimSpace (Strings.Split (joinTags tags) ","%char) = tags.
Proof.
  induction tags as [|tag rest IH]; [done|]. intros _ Htags.
  apply Forall_cons in Htags as [[Hcomma Htrim] Hrest].
  destruct rest as [|tag' rest].
  - cbn [joinTags]. rewrite (Split_plain _ _ Hcomma). cbn [map]. by rewrite Htrim.
  - change (joinTags (tag :: tag' :: rest))
      with (tag +:+ String ","%char (String " "%char (joinTags (tag' :: rest)))).
    rewrite (Split_append _ _ _ Hcomma).
    specialize (IH ltac:(discriminate) Hrest).
    cbn [Strings.Split]. change (Strings.eqb_ascii " " ",") with false. cbn iota.
    destruct (Strings.Split (joinTags (tag' :: rest)) ",") as [|piece pieces];
      [discriminate|].
    cbn [map] in IH |- *. injection IH as Hpiece Hpieces.
    rewrite Htrim, Hpieces. f_equal. f_equal. exact Hpiece.
Qed.

(** The tags of a node come from the annotation [tags] of its command. With
    no such annotation there are none. With one, there is one tag for each
    comma of the annotation and one more, so at least one, the empty tag
    for an empty annotation, and each tag is trimmed of white space at both
    ends. Tags that were written into the annotation with a comma and a
    blank between them are the tags of the node, in their order, provided
    that they are ASCII and none of them has a comma inside or white space
    at an end. *)
Theorem tags_are_the_trimmed_pieces_of_the_annotation :
  forall (cmd : cobra.Command) (parentPath : string),
    (cmd_Annotations cmd !! "tags" = None -> ci_Tags (parseCommand cmd parentPath) = []) /\
    (forall tagStr,
       cmd_Annotations cmd !! "tags" = Some tagStr ->
       length (ci_Tags (parseCommand cmd parentPath)) = S (countByte ","%char tagStr) /\
       Forall (fun tag => Strings.TrimSpace tag = tag) (ci_Tags (parseCommand cmd parentPath)) /\
       (tagStr = "" -> ci_Tags (parseCommand cmd parentPath) = [""])) /\
    (forall tags,
       tags <> [] ->
       Forall (fun tag => asciiOnly tag = true) tags ->
       Forall (fun tag => countByte ","%char tag = 0%nat /\ Strings.TrimSpace tag = tag) tags ->
       cmd_Annotations cmd !! "tags" = Some (joinTags tags) ->
       ci_Tags (parseCommand cmd parentPath) = tags).
Proof.
  intros cmd parentPath. cbn [ci_Tags parseCommand]. unfold extractTags. split_and!.
  - by intros ->.
  - intros tagStr ->. split_and!.
    + by rewrite length_map, Split_length.
    + apply Forall_forall. intros tag Htag.
      apply list_elem_of_In, in_map_iff in Htag as (piece & <- & _).
      apply TrimSpace_idempotent.
    + by intros ->.
  - intros tags Hnonempty _ Htags ->. by apply tags_read_back.
Qed.

(** A command annotated with the tags [storage, admin]: these two tags. *)
Lemma tags_witness :
  cmd_Annotations taggedCommand !! "tags" = Some (joinTags ["storage"; "admin"]) /\
  ci_Tags (parseCommand taggedCommand "") = ["storage"; "admin"].
Proof.
  split; [reflexivity|].
  apply (proj2 (proj2 (tags_are_the_trimmed_pieces_of_the_annotation taggedCommand ""))).
  - discriminate.
  - repeat constructor.
  - vm_compute. repeat constructor.
  - reflexivity.
Defined.

(** The parameter that conversion makes of an extracted flag. It is required
    exactly when the flag has an annotation of key [required], whatever the
    values of the annotation; the flag's record keeps of every annotation
    its first value, and nothing of an annotation with no value; the
    parameter always has a schema, whose default is the flag's default
    text; the allowed values are the pieces between the commas of the first
    value of the annotation [validValues], at least one piece, not trimmed,
    and there are none without such a value; and the parameter has an alias
    exactly when the flag has a shorthand, and is deprecated exactly when
    the flag has a deprecation text. *)
Theorem flag_parameter_follows_the_flag :
  forall (flag : Flag) (persistent : bool) (scope : string),
    (pa_Required (convertFlag (parseFlag flag persistent) scope) = true <->
     is_Some (fl_Annotations flag !! "required")) /\
    (forall key value,
       fi_Annotations (parseFlag flag persistent) !! key = Some value <->
       exists rest, fl_Annotations flag !! key = Some (value :: rest)) /\
    (exists schema,
       pa_Schema (convertFlag (parseFlag flag persistent) scope) = Some schema /\
       sc_Default schema = Some (fl_DefValue flag) /\
       sc_Type schema = mapTypeToSchemaType (fl_Type flag) /\
       (forall value rest,
          fl_Annotations flag !! "validValues" = Some (value :: rest) ->
          sc_Enum schema = Strings.Split value ","%char /\
          length (sc_Enum schema) = S (countByte ","%char value)) /\
       (fl_Annotations flag !! "validValues" = None \/
        fl_Annotations flag !! "validValues" = Some [] ->
        sc_Enum schema = [])) /\
    (pa_Alias (convertFlag (parseFlag flag persistent) scope) = [] <->
     fl_Shorthand flag = "") /\
    (forall shorthand,
       fl_Shorthand flag = shorthand -> shorthand <> "" ->
       pa_Alias (convertFlag (parseFlag flag persistent) scope) = [shorthand]) /\
    (pa_Deprecated (convertFlag (parseFlag flag persistent) scope) = true <->
     fl_Deprecated flag <> "").
Proof.
  intros flag persistent scope. split_and!.
  - simpl. unfold isRequiredFlag. apply bool_decide_eq_true.
  - intros key value. simpl. rewrite lookup_omap.
    destruct (fl_Annotations flag !! key) as [[|v rest]|]; simpl.
    + split; [done|]. by intros [rest' ?].
    + split; [intros [= ->]; by exists rest|]. by intros [rest' [= -> _]].
    + split; [done|]. by intros [rest' ?].
  - eexists. split; [reflexivity|]. simpl. split_and!; [reflexivity|reflexivity| |].
    + intros value rest Hvalues. unfold extractValidValues. rewrite Hvalues.
      pose proof (Split_length value ","%char) as Hlength.
      destruct (Strings.Split value ","%char) as [|piece pieces] eqn:Hsplit;
        [simpl in Hlength; lia|].
      split; [reflexivity|]. exact Hlength.
    + unfold extractValidValues. by intros [-> | ->].
  - simpl. unfold Strings.eqb. case_bool_decide as Hshort; simpl; [done|].
    split; [done|]. intros Hempty. by destruct Hshort.
  - intros shorthand <- Hshort. simpl. unfold Strings.eqb.
    by rewrite (bool_decide_eq_false_2 _ Hshort).
  - simpl. unfold Strings.eqb. case_bool_decide as Hdep; simpl; [|done].
    split; [done|]. intros Hne. by destruct Hne.
Qed.

(** A flag annotated as required with the value [false], and with the
    allowed values [json,yaml]: it is required, and has two allowed values. *)
Lemma flag_parameter_witness :
  pa_Required (convertFlag (parseFlag annotatedFlag false) "local") = true /\
  (exists schema,
     pa_Schema (convertFlag (parseFlag annotatedFlag false) "local") = Some schema /\
     sc_Enum schema = ["json"; "yaml"]) /\
  pa_Alias (convertFlag (parseFlag annotatedFlag false) "local") = ["o"].
Proof.
  destruct (flag_parameter_follows_the_flag annotatedFlag false "local")
    as (Hrequired & _ & (schema & Hschema & _ & _ & Hvalues & _) & _ & Halias & _).
  split_and!.
  - apply Hrequired. by eexists.
  - exists schema. split; [exact Hschema|].
    exact (proj1 (Hvalues "json,yaml" [] eq_refl)).
  - exact (Halias "o" eq_refl ltac:(discriminate)).
Defined.

(** ** More of the entry points *)

(** The stages of [GoSpec.Convert], with any registry and any converter. It
    fails at the first stage, with "failed to find parser" wrapping
    [ErrNoSuitableParser], exactly when no registered parser supports the
    source. A document it returns is what the converter makes of what a
    registered parser that supports the source has returned for it. And
    where the one registered parser supports the source but returns neither
    a model nor an error for it, the default converter's error for a [nil]
    model comes back, wrapped as a failure of the last stage. *)
Theorem gospec_Convert_goes_through_three_stages :
  forall (rng rngC : RangeOrder) (g : gospec.GoSpec) (source : Source)
         (options : option ConvertOptions),
    enumerates rng ->
    ((forall name p, Get (gospec.gs_registry g) name = Some p ->
                     pr_Supports p source = false) <->
     gospec.Convert rng g source options
     = gospec.Failed (gospec.Wrapped "failed to find parser" ErrNoSuitableParser)) /\
    (forall out,
       gospec.Convert rng g source options = gospec.Returned out ->
       exists name p parsed,
         Get (gospec.gs_registry g) name = Some p /\
         pr_Supports p source = true /\
         pr_Parse p source = Ok parsed /\
         gospec.gs_converter g parsed options = Ok out) /\
    (forall p,
       pr_Supports p source = true ->
       pr_Parse p source = Ok None ->
       gospec.Convert rng
         (gospec.NewWithRegistry rngC (Register NewParserRegistry p)) source options
       = gospec.Failed (gospec.Wrapped "failed to convert to OpenCLI spec"
                          (errorString "parsed CLI is nil"))).
Proof.
  intros rng rngC g source options Hrng.
  destruct (firstSupporting_result (rng _ (gospec.gs_registry g)) source)
    as (Hok & Herr & Hpanic).
  unfold gospec.Convert, FindParser, Get. split_and!.
  - split.
    + intros Hnone.
      destruct (firstSupporting (rng _ (gospec.gs_registry g)) source) as [p|e|] eqn:Hfind.
      * destruct (Hok p eq_refl) as (name & Hin & Hsupports).
        apply (enumerates_elem rng) in Hin; [|done].
        rewrite (Hnone name p Hin) in Hsupports. discriminate.
      * by destruct (Herr e eq_refl) as [-> _].
      * done.
    + intros Hfailed name p Hp.
      destruct (firstSupporting (rng _ (gospec.gs_registry g)) source) as [p'|e|] eqn:Hfind.
      * destruct (pr_Parse p' source) as [parsed|e|]; [|discriminate..].
        destruct (gospec.gs_converter g parsed options); discriminate.
      * destruct (Herr e eq_refl) as [_ Hnone]. apply (Hnone name).
        by apply (enumerates_elem rng).
      * done.
  - intros out Hout.
    destruct (firstSupporting (rng _ (gospec.gs_registry g)) source) as [p|e|] eqn:Hfind;
      [|discriminate..].
    destruct (Hok p eq_refl) as (name & Hin & Hsupports).
    apply (enumerates_elem rng) in Hin; [|done].
    destruct (pr_Parse p source) as [parsed|e|] eqn:Hparse; [|discriminate..].
    destruct (gospec.gs_converter g parsed options) as [out'|e|] eqn:Hconv;
      [|discriminate..].
    injection Hout as <-. by exists name, p, parsed.
  - intros p Hsupports Hparse. simpl. unfold Register, NewParserRegistry.
    pose proof (Hrng Parser (<[pr_Name p := p]> ∅)) as Hperm.
    rewrite insert_empty, map_to_list_singleton in Hperm.
    apply Permutation_singleton_r in Hperm. rewrite insert_empty, Hperm.
    simpl. rewrite Hsupports. simpl. rewrite Hparse. reflexivity.
Qed.

Lemma gospec_stages_witness :
  gospec.Convert canonicalOrder
    (gospec.NewWithRegistry canonicalOrder (Register NewParserRegistry silentParser))
    SrcOther None
  = gospec.Failed (gospec.Wrapped "failed to convert to OpenCLI spec"
                     (errorString "parsed CLI is nil")).
Proof.
  refine (proj2 (proj2 (gospec_Convert_goes_through_three_stages canonicalOrder
                          canonicalOrder (gospec.New canonicalOrder) SrcOther None _))
            silentParser eq_refl eq_refl).
  intros A m. reflexivity.
Defined.
